(** * Structural validation and auto-repair of n8n flow graphs

    A shallow embedding of [src/lib/validator.ts] (the validator and its
    repair pipeline) and of [calculateWorkflowDepth] from
    [src/lib/analyzer.ts], with the properties the specification states
    about them.

    Conventions of the embedding.
    - A JavaScript object used as a dictionary is an association list in
      insertion order (keys are step names and port kinds; the order decides
      the order of messages).  Assigning to a present key replaces the value
      in place, assigning to an absent key appends, [delete] removes.  Keys
      are taken not to be array indexes (which JavaScript enumerates first).
      A read [o[k]] of a key that [o] does not have goes through the
      prototype chain.  The two passes that create an entry after such a
      read, [fixBackwardsToolConnections] and [rebuildOrphanedConnections],
      are modelled with it ([builtin]); in the other reads the key is taken
      to be no name of an [Object.prototype] member.
    - Inputs are JSON documents: [JSON.parse(JSON.stringify(x))] rebuilds
      [x] value for value.
    - JavaScript numbers that the code uses as integers (indexes, canvas
      coordinates, counters) are [Z].  The depth counter of the analyzer,
      which a cycle drives up to 2^53, rounds there as a double does
      ([Analyzer.plusOne]).
    - Objects that the code reaches through a reference and writes to are
      objects of a store in [Heap]; the passes themselves are functions on
      the workflow behind the reference.
    - Strings are byte strings; case conversion and trimming act on ASCII.
    - A field that may be absent is an [option]. *)

From Stdlib Require Import String Ascii ZArith List Lia Bool.
From stdpp Require Import base list strings gmap pretty.
Import ListNotations.

(** ** Strings *)

Module Str.

(** The double quote, for messages that quote a name. *)
Definition dq : string := String (ascii_of_nat 34) EmptyString.

Definition quoted (s : string) : string := dq +:+ s +:+ dq.

(** [String.prototype.includes]. *)
Fixpoint includes (s pat : string) : bool :=
  String.prefix pat s ||
  match s with
  | EmptyString => false
  | String _ s' => includes s' pat
  end.

(** [String.prototype.startsWith]. *)
Definition startsWith (s pat : string) : bool := String.prefix pat s.

Definition is_upper (c : ascii) : bool :=
  let n := nat_of_ascii c in (65 <=? n)%nat && (n <=? 90)%nat.

Definition is_lower (c : ascii) : bool :=
  let n := nat_of_ascii c in (97 <=? n)%nat && (n <=? 122)%nat.

Definition is_digit (c : ascii) : bool :=
  let n := nat_of_ascii c in (48 <=? n)%nat && (n <=? 57)%nat.

Definition is_space (c : ascii) : bool :=
  let n := nat_of_ascii c in (n =? 32)%nat || ((9 <=? n)%nat && (n <=? 13)%nat).

Definition lower_ascii (c : ascii) : ascii :=
  if is_upper c then ascii_of_nat (nat_of_ascii c + 32) else c.

Definition upper_ascii (c : ascii) : ascii :=
  if is_lower c then ascii_of_nat (nat_of_ascii c - 32) else c.

Fixpoint map_chars (f : ascii -> ascii) (s : string) : string :=
  match s with
  | EmptyString => EmptyString
  | String c s' => String (f c) (map_chars f s')
  end.

(** [String.prototype.toLowerCase]. *)
Definition toLowerCase (s : string) : string := map_chars lower_ascii s.

Fixpoint all_chars (p : ascii -> bool) (s : string) : bool :=
  match s with
  | EmptyString => true
  | String c s' => p c && all_chars p s'
  end.

Definition is_empty (s : string) : bool :=
  match s with EmptyString => true | _ => false end.

Definition cons_head (c : ascii) (l : list string) : list string :=
  match l with
  | h :: t => String c h :: t
  | [] => [String c EmptyString]
  end.

(** [s.split(c)] for a one-character separator: never the empty list. *)
Fixpoint split_chr (c : ascii) (s : string) : list string :=
  match s with
  | EmptyString => [EmptyString]
  | String a s' =>
      if Ascii.eqb a c then EmptyString :: split_chr c s'
      else cons_head a (split_chr c s')
  end.

(** [s.split('->')]. *)
Fixpoint split_arrow (s : string) : list string :=
  match s with
  | EmptyString => [EmptyString]
  | String a s' =>
      match s' with
      | String b rest =>
          if Ascii.eqb a "-"%char && Ascii.eqb b ">"%char
          then EmptyString :: split_arrow rest
          else cons_head a (split_arrow s')
      | EmptyString => [String a EmptyString]
      end
  end.

Fixpoint drop_spaces (s : string) : string :=
  match s with
  | String c s' => if is_space c then drop_spaces s' else s
  | EmptyString => EmptyString
  end.

Fixpoint drop_spaces_end (s : string) : string :=
  match s with
  | EmptyString => EmptyString
  | String c s' =>
      match drop_spaces_end s' with
      | EmptyString => if is_space c then EmptyString else String c EmptyString
      | r => String c r
      end
  end.

(** [String.prototype.trim]. *)
Definition trim (s : string) : string := drop_spaces_end (drop_spaces s).

(** [s.replace(/([A-Z])/g, ' $1')]: a space before every capital. *)
Fixpoint space_capitals (s : string) : string :=
  match s with
  | EmptyString => EmptyString
  | String c s' =>
      if is_upper c then String " "%char (String c (space_capitals s'))
      else String c (space_capitals s')
  end.

(** [s.replace(/^./, c => c.toUpperCase())]. *)
Definition capitalize (s : string) : string :=
  match s with
  | EmptyString => EmptyString
  | String c s' => String (upper_ascii c) s'
  end.

(** [/^(Node|node)\d+$/i.test(s)]. *)
Definition isGenericName (s : string) : bool :=
  let l := toLowerCase s in
  String.prefix "node" l &&
  (let d := String.substring 4 (String.length l - 4) l in
   negb (is_empty d) && all_chars is_digit d).

(** [arr.join(sep)]. *)
Fixpoint join (sep : string) (l : list string) : string :=
  match l with
  | [] => EmptyString
  | [x] => x
  | x :: t => x +:+ sep +:+ join sep t
  end.

Definition mem (s : string) (l : list string) : bool :=
  existsb (String.eqb s) l.

End Str.

(** ** Dictionaries in insertion order *)

Module Dict.

Abbreviation t V := (list (string * V)).

Section Dict.
Context {V : Type}.

(** [o[k]] *)
Fixpoint get (k : string) (o : t V) : option V :=
  match o with
  | [] => None
  | (k', v) :: r => if String.eqb k k' then Some v else get k r
  end.

(** [k in o] *)
Definition has (k : string) (o : t V) : bool :=
  match get k o with Some _ => true | None => false end.

(** [o[k] = v] *)
Fixpoint set (k : string) (v : V) (o : t V) : t V :=
  match o with
  | [] => [(k, v)]
  | (k', v') :: r =>
      if String.eqb k k' then (k', v) :: r else (k', v') :: set k v r
  end.

(** [delete o[k]] *)
Definition remove (k : string) (o : t V) : t V :=
  List.filter (fun kv => negb (String.eqb k (fst kv))) o.

Definition keys (o : t V) : list string := map fst o.
Definition values (o : t V) : list V := map snd o.
End Dict.
End Dict.

(** ** The flow-graph data model *)

(** Parameter bags and credentials are JSON values. *)
#[local] Set Warnings "-register-all".
Inductive JSON : Type :=
| JNull
| JBool (b : bool)
| JNum (z : Z)
| JStr (s : string)
| JArr (l : list JSON)
| JObj (l : list (string * JSON)).

(** [typeof v === 'object'] (true of [null] and of arrays as well). *)
Definition typeof_object (v : JSON) : bool :=
  match v with
  | JNull | JArr _ | JObj _ => true
  | _ => false
  end.

(** JavaScript truthiness of a JSON value. *)
Definition truthy (v : JSON) : bool :=
  match v with
  | JNull => false
  | JBool b => b
  | JNum z => negb (z =? 0)%Z
  | JStr s => negb (Str.is_empty s)
  | JArr _ | JObj _ => true
  end.

(** A step.  [None] is an absent field. *)
Record Node : Type := mkNode {
  n_id : option string;
  n_name : option string;
  n_type : option string;
  n_typeVersion : option Z;
  n_position : option (list Z);
  n_parameters : option JSON;
  n_credentials : option JSON
}.

(** An edge record [{ node, type, index }]: the target step, the port kind
    written in the record and the target index.  The index may be missing,
    and the passes that read it test ['index' in conn] or read
    [conn.index || 0].  Every record is taken to have its [node] and its
    [type].  (In the repair pipeline a record without [node] would go the
    way of one with an empty [node]: [cleanConnections] removes both, ahead
    of the numbered fixes.) *)
Record Conn : Type := mkEdge {
  c_node : string;
  c_type : string;
  c_index : option Z
}.

(** An edge record that has its index. *)
Definition mkConn (node type : string) (index : Z) : Conn :=
  mkEdge node type (Some index).

(** [`${conn.index}`]: a missing index prints as [undefined]. *)
Definition show_index (c : Conn) : string :=
  match c_index c with
  | Some index => pretty index
  | None => "undefined"
  end.

(** [connections[source][portKind][slot]] is the list of edges leaving
    output [slot] of [source] through [portKind]. *)
Abbreviation Outputs := (list (list Conn)).
Abbreviation Ports := (Dict.t Outputs).
Abbreviation Connections := (Dict.t Ports).

(** A workflow whose [nodes] field is an array of objects: the only shape
    that gets past the first checks of [validateWorkflow]. *)
Record Workflow : Type := mkWorkflow {
  w_name : option string;
  w_nodes : list Node;
  w_connections : option Connections
}.

(** What a caller may hand to [validateWorkflow]: any object; [r_nodes] is
    [None] when the field is absent or not an array, and an element of the
    array is [None] when it is not an object. *)
Record RawWorkflow : Type := mkRaw {
  r_name : option string;
  r_nodes : option (list (option Node));
  r_connections : option Connections
}.

Definition raw_of (w : Workflow) : RawWorkflow :=
  mkRaw (w_name w) (Some (map Some (w_nodes w))) (w_connections w).

(** [!s] for an optional string: absent or empty. *)
Definition falsy (s : option string) : bool :=
  match s with
  | None => true
  | Some s => Str.is_empty s
  end.

(** [node.name] and [node.type] where the code has made sure they exist. *)
Definition nm (n : Node) : string := default EmptyString (n_name n).
Definition ty (n : Node) : string := default EmptyString (n_type n).

(** A name inside a template literal: an absent one prints as [undefined]. *)
Definition show_name (s : option string) : string := default "undefined" s.

Definition set_name (s : string) (n : Node) : Node :=
  mkNode (n_id n) (Some s) (n_type n) (n_typeVersion n) (n_position n)
         (n_parameters n) (n_credentials n).
Definition set_type (s : string) (n : Node) : Node :=
  mkNode (n_id n) (n_name n) (Some s) (n_typeVersion n) (n_position n)
         (n_parameters n) (n_credentials n).
Definition set_id (s : string) (n : Node) : Node :=
  mkNode (Some s) (n_name n) (n_type n) (n_typeVersion n) (n_position n)
         (n_parameters n) (n_credentials n).
Definition set_position (p : list Z) (n : Node) : Node :=
  mkNode (n_id n) (n_name n) (n_type n) (n_typeVersion n) (Some p)
         (n_parameters n) (n_credentials n).
Definition set_parameters (p : JSON) (n : Node) : Node :=
  mkNode (n_id n) (n_name n) (n_type n) (n_typeVersion n) (n_position n)
         (Some p) (n_credentials n).
Definition set_credentials (c : JSON) (n : Node) : Node :=
  mkNode (n_id n) (n_name n) (n_type n) (n_typeVersion n) (n_position n)
         (n_parameters n) (Some c).

Definition set_connections (c : Connections) (w : Workflow) : Workflow :=
  mkWorkflow (w_name w) (w_nodes w) (Some c).
Definition set_nodes (ns : list Node) (w : Workflow) : Workflow :=
  mkWorkflow (w_name w) ns (w_connections w).

(** [workflow.connections || {}] *)
Definition conns_of (w : Workflow) : Connections := default [] (w_connections w).

(** Every edge of an adjacency structure, with its source and port kind. *)
Definition edges_of_ports (src : string) (ps : Ports) : list (string * string * Conn) :=
  flat_map (fun kv => map (fun c => (src, fst kv, c)) (concat (snd kv))) ps.
Definition edges (cs : Connections) : list (string * string * Conn) :=
  flat_map (fun kv => edges_of_ports (fst kv) (snd kv)) cs.

(** The edges kept under the [ai_tool] port of each source, as every pass
    reaches them ([conns.ai_tool]), with their source. *)
Definition toolEdges (cs : Connections) : list (string * Conn) :=
  flat_map
    (fun kv =>
       match Dict.get "ai_tool" (snd kv) with
       | Some outs => map (pair (fst kv)) (concat outs)
       | None => []
       end)
    cs.

(** ** Step kinds *)

Definition isTriggerNode (nodeType : string) : bool :=
  let t := Str.toLowerCase nodeType in
  Str.includes t "trigger" || Str.includes t "webhook" || Str.includes t "manual" ||
  Str.includes t "schedule" || Str.includes t "cron".

Definition isToolNode (nodeType : string) : bool :=
  Str.includes nodeType "tool" || Str.includes nodeType "Tool".

Definition isLangChainTool (nodeType : string) : bool :=
  Str.startsWith nodeType "@n8n/n8n-nodes-langchain.tool".

Definition isServiceTool (nodeType : string) : bool :=
  Str.startsWith nodeType "n8n-nodes-base." &&
  Str.includes (Str.toLowerCase nodeType) "tool".

Definition isLanguageModelNode (nodeType : string) : bool :=
  Str.includes nodeType "lmChat" || Str.includes nodeType "ChatModel".

Definition isChatModelNode (nodeType : string) : bool :=
  Str.includes nodeType "lmChat".

Definition isMemoryNode (nodeType : string) : bool :=
  Str.includes nodeType "memory" || Str.includes nodeType "Memory".

Definition isAgentNode (nodeType : string) : bool :=
  Str.includes nodeType "agent" || Str.includes nodeType "Agent".

Definition isAIAgentNode (nodeType : string) : bool :=
  String.eqb nodeType "@n8n/n8n-nodes-langchain.agent".

(** The sources allowed to emit [ai_tool] edges. *)
Definition toolCapable (nodeType : string) : bool :=
  isLangChainTool nodeType || isServiceTool nodeType.

Definition hasAIAgents (w : Workflow) : bool :=
  existsb (fun n => isAgentNode (ty n)) (w_nodes w).

(** ** Display names derived from a step kind *)

(** The table shared by [generateDescriptiveName] and
    [getSuggestedNodeName]: the first keyword the kind contains decides. *)
Definition nameTable : list (string * string) :=
  [ ("manualTrigger", "Manual Trigger"); ("webhook", "Webhook Trigger");
    ("schedule", "Schedule Trigger"); ("googleSheets", "Google Sheets");
    ("gmail", "Gmail"); ("slack", "Slack"); ("httpRequest", "HTTP Request");
    ("set", "Set Data"); ("code", "Code Execute"); ("if", "Condition Check");
    ("function", "Function"); ("merge", "Merge Data"); ("split", "Split Data");
    ("filter", "Filter Data"); ("transform", "Transform Data");
    ("email", "Send Email"); ("file", "File Operation");
    ("database", "Database Query"); ("lmChatOpenAi", "OpenAI Chat Model");
    ("lmChatAnthropic", "Anthropic Chat Model"); ("agent", "AI Agent");
    ("memory", "Chat Memory"); ("tool", "AI Tool") ].

Definition tableName (nodeType : string) : option string :=
  option_map snd (find (fun kv => Str.includes nodeType (fst kv)) nameTable).

(** The last dot-separated part of the kind, camelCase turned into words. *)
Definition titleOfType (nodeType : string) : string :=
  let last_part := List.last (Str.split_chr "."%char nodeType) EmptyString in
  let baseType := if Str.is_empty last_part then "Node" else last_part in
  Str.trim (Str.capitalize (Str.space_capitals baseType)).

Definition generateDescriptiveName (node : Node) (index : nat) : string :=
  let nodeType := ty node in
  match tableName nodeType with
  | Some s => s
  | None =>
      let t := titleOfType nodeType in
      if Str.is_empty t then "Process Step " +:+ pretty (index + 1)%nat else t
  end.

Definition getSuggestedNodeName (nodeType : option string) : string :=
  if falsy nodeType then "Node"
  else
    let nodeType := default EmptyString nodeType in
    match tableName nodeType with
    | Some s => s
    | None => titleOfType nodeType
    end.

(** The loop [while (used.has(name)) { counter++; name = `${base} ${counter}` }],
    started at [counter].  It ends within [length used + 1] rounds, the
    candidates being pairwise distinct; [fuel] is that bound. *)
Fixpoint uniquify_from (fuel : nat) (base : string) (used : list string)
    (counter : nat) (cur : string) : string :=
  if Str.mem cur used then
    match fuel with
    | O => cur
    | S fuel' =>
        uniquify_from fuel' base used (S counter)
          (base +:+ " " +:+ pretty (S counter))
    end
  else cur.

Definition uniquify (base : string) (used : list string) : string :=
  uniquify_from (S (length used)) base used 1 base.

(** ** Exceptions *)

(** A computation that may throw; the payload is the error message. *)
Definition Exc (A : Type) : Type := string + A.
Definition ret {A} (a : A) : Exc A := inr a.
Definition throw {A} (msg : string) : Exc A := inl msg.
Definition bind {A B} (m : Exc A) (k : A -> Exc B) : Exc B :=
  match m with
  | inl e => inl e
  | inr a => k a
  end.
Notation "'do' x <- m ; k" := (bind m (fun x => k))
  (at level 10, x pattern, m at level 100, k at level 200).

(** ** Connectivity helpers *)

Definition isAIPort (t : string) : bool :=
  String.eqb t "ai_tool" || String.eqb t "ai_languageModel" ||
  String.eqb t "ai_memory" || String.eqb t "ai_outputParser".

(** The edge records kept under one source. *)
Definition conns_in (ps : Ports) : list Conn :=
  flat_map (fun kv => concat (snd kv)) ps.

Definition isConnectedOnlyToAIInfrastructure (nodeName : string)
    (connections : option Connections) : bool :=
  match connections with
  | None => true
  | Some cs =>
      let outgoing :=
        flat_map (fun kv => if String.eqb (fst kv) nodeName then conns_in (snd kv) else []) cs in
      let incoming :=
        List.filter (fun c => String.eqb (c_node c) nodeName)
               (flat_map (fun kv => conns_in (snd kv)) cs) in
      let touching := outgoing ++ incoming in
      let hasConnections := match touching with [] => false | _ => true end in
      let allConnectionsAreAI := forallb (fun c => isAIPort (c_type c)) touching in
      negb hasConnections || allConnectionsAreAI
  end.

Definition isConnectedTo (connections : option Connections)
    (sourceNode targetNode : string) : bool :=
  match connections with
  | None => false
  | Some cs =>
      match Dict.get sourceNode cs with
      | None => false
      | Some ps => existsb (fun c => String.eqb (c_node c) targetNode) (conns_in ps)
      end
  end.

Definition toolMappings : list (string * string) :=
  [ ("n8n-nodes-base.gmail", "n8n-nodes-base.gmailTool");
    ("n8n-nodes-base.googleSheets", "n8n-nodes-base.googleSheetsTool");
    ("n8n-nodes-base.slack", "n8n-nodes-base.slackTool");
    ("n8n-nodes-base.notion", "n8n-nodes-base.notionTool");
    ("n8n-nodes-base.airtable", "n8n-nodes-base.airtableTool");
    ("n8n-nodes-base.github", "n8n-nodes-base.githubTool");
    ("n8n-nodes-base.googleDrive", "n8n-nodes-base.googleDriveTool");
    ("n8n-nodes-base.hubspot", "n8n-nodes-base.hubspotTool");
    ("n8n-nodes-base.salesforce", "n8n-nodes-base.salesforceTool");
    ("n8n-nodes-base.jira", "n8n-nodes-base.jiraTool");
    ("n8n-nodes-base.trello", "n8n-nodes-base.trelloTool");
    ("n8n-nodes-base.asana", "n8n-nodes-base.asanaTool");
    ("n8n-nodes-base.linear", "n8n-nodes-base.linearTool");
    ("n8n-nodes-base.discord", "n8n-nodes-base.discordTool");
    ("n8n-nodes-base.telegram", "n8n-nodes-base.telegramTool");
    ("n8n-nodes-base.httpRequest", "n8n-nodes-base.httpRequestTool") ].

Definition getToolVariant (nodeType : string) : option string :=
  Dict.get nodeType toolMappings.

(** [new Map()] filled with [set(node.name, node.type)] for the steps that
    have both: a later step of the same name overrides an earlier one. *)
Definition nodeTypeMap (nodes : list Node) : Dict.t string :=
  fold_left
    (fun m n => if falsy (n_name n) || falsy (n_type n) then m else Dict.set (nm n) (ty n) m)
    nodes [].

Definition sum_nat (l : list nat) : nat := fold_right Nat.add 0%nat l.

(** ** Fix 1: remove [ai_tool] edges of steps that are not tools *)

Definition stripToolPort (types : Dict.t string) (kv : string * Ports)
    : (string * Ports) * nat :=
  match Dict.get (fst kv) types with
  | None => (kv, 0%nat)
  | Some sourceType =>
      if negb (toolCapable sourceType) && Dict.has "ai_tool" (snd kv)
      then ((fst kv, Dict.remove "ai_tool" (snd kv)), 1%nat)
      else (kv, 0%nat)
  end.

Definition removeInvalidAIToolConnections (w : Workflow) : Workflow * nat :=
  match w_connections w with
  | None => (w, 0%nat)
  | Some cs =>
      let rs := map (stripToolPort (nodeTypeMap (w_nodes w))) cs in
      (set_connections (map fst rs) w, sum_nat (map snd rs))
  end.

(** ** Fix 2: turn isolated service steps into their tool variants *)

Definition convertNode (connections : option Connections) (node : Node)
    : Node * list string :=
  if falsy (n_type node) || falsy (n_name node) then (node, [])
  else if isToolNode (ty node) then (node, [])
  else
    match getToolVariant (ty node) with
    | None => (node, [])
    | Some toolVariant =>
        if isConnectedOnlyToAIInfrastructure (nm node) connections then
          (set_type toolVariant node,
           [ "Converted " +:+ Str.quoted (nm node) +:+ " from " +:+ ty node +:+ " to "
             +:+ toolVariant +:+ " (AI tool variant)" ])
        else (node, [])
    end.

Definition convertRegularNodesToTools (w : Workflow) : Workflow * (nat * list string) :=
  if negb (hasAIAgents w) then (w, (0%nat, []))
  else
    let rs := map (convertNode (w_connections w)) (w_nodes w) in
    let fixes := concat (map snd rs) in
    (set_nodes (map fst rs) w, (length fixes, fixes)).

(** ** Fix 3: remove hard-coded model names *)

Definition hardcodedModelPatterns : list string :=
  [ "gpt-4"; "gpt-3.5"; "gpt-4-turbo"; "gpt-4o";
    "claude-3"; "claude-2"; "claude-instant";
    "claude-3-5-sonnet"; "claude-3-opus"; "claude-3-sonnet"; "claude-3-haiku";
    "gemini"; "palm";
    "llama"; "mistral"; "mixtral" ].

(** The value is a string that contains one of the patterns, case ignored. *)
Definition isHardcodedModel (v : JSON) : bool :=
  match v with
  | JStr s =>
      existsb (fun p => Str.includes (Str.toLowerCase s) (Str.toLowerCase p))
              hardcodedModelPatterns
  | _ => false
  end.

(** Delete [key] from the bag when its value is a hard-coded model name. *)
Definition stripKey (key : string) (ps : list (string * JSON))
    : list (string * JSON) * bool :=
  match Dict.get key ps with
  | Some v => if isHardcodedModel v then (Dict.remove key ps, true) else (ps, false)
  | None => (ps, false)
  end.

(** [if (!parameters.options) parameters.options = {}] *)
Definition ensureOptions (ps : list (string * JSON)) : list (string * JSON) :=
  match Dict.get "options" ps with
  | Some v => if truthy v then ps else Dict.set "options" (JObj []) ps
  | None => Dict.set "options" (JObj []) ps
  end.

(** The steps the pass inspects: named, typed, of a language-model kind. *)
Definition isModelStep (node : Node) : bool :=
  negb (falsy (n_type node)) && negb (falsy (n_name node)) && isLanguageModelNode (ty node).

(** The bag holds a hard-coded model name under [key]. *)
Definition hardcodedAt (key : string) (ps : list (string * JSON)) : bool :=
  match Dict.get key ps with
  | Some v => isHardcodedModel v
  | None => false
  end.

Definition stripModelNode (node : Node) : Node * (nat * list string) :=
  if falsy (n_type node) || falsy (n_name node) then (node, (0%nat, []))
  else if negb (isLanguageModelNode (ty node)) then (node, (0%nat, []))
  else
    match n_parameters node with
    | Some (JObj ps) =>
        let '(ps1, had1) := stripKey "model" ps in
        let '(ps2, had2) := stripKey "modelName" ps1 in
        if had1 || had2 then
          (set_parameters (JObj (ensureOptions ps2)) node,
           (((if had1 then 1 else 0) + (if had2 then 1 else 0))%nat,
            [ "Removed hardcoded model parameter from LLM node " +:+ Str.quoted (nm node)
              +:+ " (type: " +:+ ty node +:+ ")" ]))
        else (node, (0%nat, []))
    | _ => (node, (0%nat, []))
    end.

Definition removeHardcodedModelParameters (w : Workflow)
    : Workflow * (nat * list string) :=
  let rs := map stripModelNode (w_nodes w) in
  (set_nodes (map fst rs) w,
   (sum_nat (map (fun r => fst (snd r)) rs), concat (map (fun r => snd (snd r)) rs))).

(** ** Fix 4: reverse agent-to-tool edges *)

Record Backwards : Type := mkBackwards {
  agentName : string;
  toolName : string;
  b_index : Z
}.

(** The [ai_tool] edges that leave an agent-kind step and reach a tool. *)
Definition findBackwards (types : Dict.t string) (cs : Connections) : list Backwards :=
  flat_map
    (fun kv =>
       match Dict.get (fst kv) types with
       | None => []
       | Some sourceType =>
           if isAgentNode sourceType then
             flat_map
               (fun pk =>
                  if String.eqb (fst pk) "ai_tool" then
                    flat_map
                      (fun c =>
                         match Dict.get (c_node c) types with
                         | Some targetType =>
                             if isToolNode targetType
                             then [mkBackwards (fst kv) (c_node c)
                                               (default 0%Z (c_index c))]
                             else []
                         | None => []
                         end)
                      (concat (snd pk))
                  else [])
               (snd kv)
           else []
       end)
    cs.

Definition nonEmpty {A} (l : list A) : bool :=
  match l with [] => false | _ => true end.

(** Drop every [ai_tool] edge from [agent] to [tool]; drop slots and the
    port itself when they become empty. *)
Definition dropBackwards (agent tool : string) (cs : Connections) : Connections :=
  match Dict.get agent cs with
  | None => cs
  | Some ps =>
      match Dict.get "ai_tool" ps with
      | None => cs
      | Some outs =>
          let outs' :=
            List.filter (fun arr => nonEmpty arr)
              (map (List.filter (fun c => negb (String.eqb (c_node c) tool))) outs) in
          match outs' with
          | [] => Dict.set agent (Dict.remove "ai_tool" ps) cs
          | _ => Dict.set agent (Dict.set "ai_tool" outs' ps) cs
          end
      end
  end.

(** [connections[name]] reads through the prototype chain.  For a name
    that is a member of [Object.prototype] and not a key of [connections]
    itself, it yields a built-in object: a test [!connections[name]] then
    fails, no entry is created, and what the code writes next goes to the
    built-in object.  The built-in objects are taken to be as the engine
    provides them, without a property that an earlier write of this kind has
    left on them. *)
Definition inherited (name : string) : bool :=
  Str.mem name
    [ "constructor"; "__proto__"; "toString"; "toLocaleString"; "valueOf";
      "hasOwnProperty"; "isPrototypeOf"; "propertyIsEnumerable";
      "__defineGetter__"; "__defineSetter__"; "__lookupGetter__"; "__lookupSetter__" ].

(** [connections[name]] is a built-in object, not an entry of [cs]. *)
Definition builtin (cs : Connections) (name : string) : bool :=
  negb (Dict.has name cs) && inherited name.

(** One backwards edge: remove it under the agent, then add the edge from
    the tool to the agent unless slot 0 of the tool holds one already.
    When [connections[tool]] is a built-in object, that object takes the
    port and the edge and [connections] gets no entry for the tool; the
    built-in object is taken to hold no edge to this agent yet. *)
Definition reverseOne (st : Connections * list string) (b : Backwards)
    : Exc (Connections * list string) :=
  let '(cs, fixes) := st in
  let agent := agentName b in
  let tool := toolName b in
  let message :=
    "Reversed backwards connection: tool " +:+ Str.quoted tool
    +:+ " now correctly connects TO agent " +:+ Str.quoted agent in
  let cs1 := dropBackwards agent tool cs in
  if builtin cs1 tool then ret (cs1, fixes ++ [ message ])
  else
    let cs2 := match Dict.get tool cs1 with None => Dict.set tool [] cs1 | Some _ => cs1 end in
    let ps := default [] (Dict.get tool cs2) in
    let ps1 :=
      match Dict.get "ai_tool" ps with None => Dict.set "ai_tool" [[]] ps | Some _ => ps end in
    match default [] (Dict.get "ai_tool" ps1) with
    | [] => throw "Cannot read properties of undefined (reading 'find')"
    | slot0 :: rest =>
        if existsb (fun c => String.eqb (c_node c) agent) slot0 then
          ret (Dict.set tool ps1 cs2, fixes)
        else
          let slot0' := slot0 ++ [mkConn agent "ai_tool" (b_index b)] in
          ret (Dict.set tool (Dict.set "ai_tool" (slot0' :: rest) ps1) cs2, fixes ++ [ message ])
    end.

Fixpoint foldExc {S B} (f : S -> B -> Exc S) (l : list B) (s : S) : Exc S :=
  match l with
  | [] => ret s
  | b :: r => do s' <- f s b; foldExc f r s'
  end.

Definition fixBackwardsToolConnections (w : Workflow)
    : Exc (Workflow * (nat * list string)) :=
  match w_connections w with
  | None => ret (w, (0%nat, []))
  | Some cs =>
      let backwards := findBackwards (nodeTypeMap (w_nodes w)) cs in
      do r <- foldExc reverseOne backwards (cs, []);
      ret (set_connections (fst r) w, (length (snd r), snd r))
  end.

(** ** Fix 5: lay support steps out around their agent *)

Definition pos_x (n : Node) : Z := nth 0 (default [] (n_position n)) 0%Z.
Definition pos_y (n : Node) : Z := nth 1 (default [] (n_position n)) 0%Z.

(** Positions in [l] of the elements that satisfy [p]. *)
Definition indexes_where {A} (p : A -> bool) (l : list A) : list nat :=
  map fst (List.filter (fun ix => p (snd ix)) (imap (fun i x => (i, x)) l)).

Definition enumerate {A} (l : list A) : list (nat * A) := imap (fun i x => (i, x)) l.

Definition reposition (label : string) (x y : Z) (st : list Node * list string)
    (i : nat) : list Node * list string :=
  match fst st !! i with
  | None => st
  | Some n =>
      if negb (pos_x n =? x)%Z || negb (pos_y n =? y)%Z then
        (<[i := set_position [x; y] n]> (fst st),
         snd st ++ [ "📍 Repositioned " +:+ Str.quoted (nm n) +:+ " " +:+ label ])
      else st
  end.

Definition positionAround (connections : option Connections)
    (st : list Node * list string) (a : nat) : list Node * list string :=
  match fst st !! a with
  | None => st
  | Some agent =>
      let agentX := pos_x agent in
      let agentY := pos_y agent in
      let connected (kind : string -> bool) :=
        indexes_where
          (fun n => kind (ty n) && isConnectedTo connections (nm n) (nm agent)) (fst st) in
      let languageModels := connected isChatModelNode in
      let memoryNodes := connected isMemoryNode in
      let toolNodes := connected isToolNode in
      let st1 :=
        fold_left
          (fun st ki =>
             reposition "below-left of AI Agent"
               (agentX - 200) (agentY + 300 + Z.of_nat (fst ki) * 150) st (snd ki))
          (enumerate languageModels) st in
      let st2 :=
        fold_left
          (fun st ki =>
             reposition "below-right of AI Agent"
               (agentX + 200) (agentY + 300 + Z.of_nat (fst ki) * 150) st (snd ki))
          (enumerate memoryNodes) st1 in
      fold_left
        (fun st ki =>
           reposition "below-center of AI Agent"
             (agentX + (Z.of_nat (fst ki) - Z.of_nat (length toolNodes / 2)) * 200)
             (agentY + 300) st (snd ki))
        (enumerate toolNodes) st2
  end.

Definition fixNodePositioning (w : Workflow) : Workflow * list string :=
  let aiAgents := indexes_where (fun n => isAIAgentNode (ty n)) (w_nodes w) in
  let r := fold_left (positionAround (w_connections w)) aiAgents (w_nodes w, []) in
  (set_nodes (fst r) w, snd r).

(** ** Fix 6: descriptive names *)

Definition isGeneric (name : option string) : bool :=
  match name with
  | Some s => Str.isGenericName s
  | None => false
  end.

Definition mapConns (f : Conn -> Conn) (cs : Connections) : Connections :=
  map (fun kv => (fst kv, map (fun pk => (fst pk, map (map f) (snd pk))) (snd kv))) cs.

Definition retarget (oldName newName : string) (c : Conn) : Conn :=
  if String.eqb (c_node c) oldName then mkEdge newName (c_type c) (c_index c) else c.

(** Rewrite the adjacency key and every target that carries [oldName]. *)
Definition renameInConnections (oldName newName : string) (cs : Connections)
    : Connections :=
  let cs1 :=
    match Dict.get oldName cs with
    | Some ps => Dict.remove oldName (Dict.set newName ps cs)
    | None => cs
    end in
  mapConns (retarget oldName newName) cs1.

Record RenameState : Type := mkRenameState {
  rs_connections : option Connections;
  rs_used : list string;
  rs_fixes : list string
}.

Fixpoint renameGeneric (nodes : list Node) (st : RenameState)
    : list Node * RenameState :=
  match nodes with
  | [] => ([], st)
  | node :: rest =>
      if falsy (n_name node) || isGeneric (n_name node) then
        let oldName := n_name node in
        let newName := uniquify (getSuggestedNodeName (n_type node)) (rs_used st) in
        let cs' :=
          match rs_connections st with
          | Some cs =>
              if falsy oldName then Some cs
              else Some (renameInConnections (default EmptyString oldName) newName cs)
          | None => None
          end in
        let st' :=
          mkRenameState cs' (rs_used st ++ [newName])
            (rs_fixes st ++ [ "Renamed generic " +:+ Str.quoted (show_name oldName)
                              +:+ " to " +:+ Str.quoted newName ]) in
        let '(rest', st'') := renameGeneric rest st' in
        (set_name newName node :: rest', st'')
      else
        let '(rest', st') := renameGeneric rest st in
        (node :: rest', st')
  end.

Definition ensureDescriptiveNames (w : Workflow) : Workflow * list string :=
  let usedNames :=
    flat_map
      (fun n => if falsy (n_name n) || isGeneric (n_name n) then [] else [nm n])
      (w_nodes w) in
  let '(nodes', st) :=
    renameGeneric (w_nodes w) (mkRenameState (w_connections w) usedNames []) in
  (mkWorkflow (w_name w) nodes' (rs_connections st), rs_fixes st).

(** ** Fix 7: target index 0 on every [ai_tool] edge *)

(** [if ('index' in conn) { if (conn.index !== 0) conn.index = 0 }]: a
    record without an index is left without one. *)
Definition zeroIndex (c : Conn) : Conn :=
  match c_index c with
  | Some _ => mkEdge (c_node c) (c_type c) (Some 0%Z)
  | None => c
  end.

Definition indexFixes (sourceName : string) (outs : Outputs) : list string :=
  flat_map
    (fun c =>
       match c_index c with
       | Some index =>
           if (index =? 0)%Z then []
           else [ "Fixed ai_tool connection from " +:+ Str.quoted sourceName +:+ " to "
                  +:+ Str.quoted (c_node c) +:+ ": index " +:+ pretty index +:+ " -> 0" ]
       | None => []
       end)
    (concat outs).

Definition normalizePorts (kv : string * Ports) : (string * Ports) * list string :=
  match Dict.get "ai_tool" (snd kv) with
  | None => (kv, [])
  | Some outs =>
      ((fst kv, Dict.set "ai_tool" (map (map zeroIndex) outs) (snd kv)),
       indexFixes (fst kv) outs)
  end.

Definition normalizeAIToolIndexes (w : Workflow) : Workflow * (nat * list string) :=
  match w_connections w with
  | None => (w, (0%nat, []))
  | Some cs =>
      let rs := map normalizePorts cs in
      let fixes := concat (map snd rs) in
      (set_connections (map fst rs) w, (length fixes, fixes))
  end.

(** ** Fix 8: replace deprecated step kinds *)

Definition DEPRECATED_NODES : list (string * string) :=
  [ ("@n8n/n8n-nodes-langchain.openAi", "@n8n/n8n-nodes-langchain.lmChatOpenAi");
    ("@n8n/n8n-nodes-langchain.chatOpenAi", "@n8n/n8n-nodes-langchain.lmChatOpenAi") ].

Definition replaceDeprecated (node : Node) : Node * list string :=
  if falsy (n_type node) then (node, [])
  else
    match Dict.get (ty node) DEPRECATED_NODES with
    | None => (node, [])
    | Some newType =>
        let newName := getSuggestedNodeName (Some newType) in
        (set_name newName (set_type newType node),
         [ "Replaced deprecated node " +:+ Str.quoted (ty node) +:+ " with "
           +:+ Str.quoted newType +:+ " (name: " +:+ Str.quoted newName +:+ ")" ])
    end.

Definition replaceDeprecatedNodes (w : Workflow) : Workflow * list string :=
  let rs := map replaceDeprecated (w_nodes w) in
  (set_nodes (map fst rs) w, concat (map snd rs)).

(** ** Agent requirements (reported as warnings by the repair pipeline) *)

Definition REQUIRED_MODEL_TYPES : list string :=
  [ "@n8n/n8n-nodes-langchain.lmChatOpenAi";
    "@n8n/n8n-nodes-langchain.lmChatAnthropic";
    "@n8n/n8n-nodes-langchain.lmChatGoogleGemini";
    "@n8n/n8n-nodes-langchain.lmChatGroq";
    "@n8n/n8n-nodes-langchain.lmChatOllama" ].

Definition findNode (name : string) (nodes : list Node) : option Node :=
  find (fun n => match n_name n with Some s => String.eqb s name | None => false end) nodes.

(** The first source that reaches [targetName] through [connectionType],
    looked up among the steps; [None] also when that source names no step. *)
Fixpoint findConnectedNodeByType_in (nodes : list Node) (cs : Connections)
    (targetName connectionType : string) : option Node :=
  match cs with
  | [] => None
  | (sourceName, ps) :: rest =>
      match Dict.get connectionType ps with
      | Some outs =>
          if existsb (fun c => String.eqb (c_node c) targetName) (concat outs)
          then findNode sourceName nodes
          else findConnectedNodeByType_in nodes rest targetName connectionType
      | None => findConnectedNodeByType_in nodes rest targetName connectionType
      end
  end.

Definition findConnectedNodeByType (w : Workflow) (targetName connectionType : string)
    : option Node :=
  findConnectedNodeByType_in (w_nodes w) (conns_of w) targetName connectionType.

Definition agentDiagnostics (w : Workflow) (agent : Node) : list string * list string :=
  let a := Str.quoted (show_name (n_name agent)) in
  let modelErrors :=
    match findConnectedNodeByType w (nm agent) "ai_languageModel" with
    | None =>
        [ "Agent " +:+ a +:+
          " missing language model connection (required: lmChatOpenAi/Anthropic/Gemini/Groq/Ollama)" ]
    | Some modelNode =>
        if Str.mem (ty modelNode) REQUIRED_MODEL_TYPES then []
        else [ "Agent " +:+ a +:+ " has invalid model type " +:+ Str.quoted (ty modelNode)
               +:+ " (expected one of: " +:+ Str.join ", " REQUIRED_MODEL_TYPES +:+ ")" ]
    end in
  let memoryErrors :=
    match findConnectedNodeByType w (nm agent) "ai_memory" with
    | None =>
        [ "Agent " +:+ a +:+ " missing memory connection (required: memoryBufferWindow or similar)" ]
    | Some memoryNode =>
        if isMemoryNode (ty memoryNode) then []
        else [ "Agent " +:+ a +:+ " has invalid memory type " +:+ Str.quoted (ty memoryNode) ]
    end in
  let hasTools :=
    existsb
      (fun kv =>
         match Dict.get "ai_tool" (snd kv) with
         | Some outs => existsb (fun c => String.eqb (c_node c) (nm agent)) (concat outs)
         | None => false
         end)
      (conns_of w) in
  (modelErrors ++ memoryErrors,
   if hasTools then []
   else [ "Agent " +:+ a +:+ " has no tools connected - agent may have limited capabilities" ]).

Definition validateAIAgentRequirements (w : Workflow) : list string * list string :=
  let aiAgents := List.filter (fun n => isAIAgentNode (ty n)) (w_nodes w) in
  let rs := map (agentDiagnostics w) aiAgents in
  (concat (map fst rs), concat (map snd rs)).

(** ** Fix 9: prune over-fanout *)

Definition isConditionalNode (nodes : list Node) (sourceNode : string) : bool :=
  match findNode sourceNode nodes with
  | Some n =>
      match n_type n with
      | Some t => String.eqb t "n8n-nodes-base.if" || String.eqb t "n8n-nodes-base.switch"
      | None => false
      end
  | None => false
  end.

Definition overlinkFix (sourceNode : string) (firstConnection conn : Conn) : string :=
  "Removed over-linking: " +:+ Str.quoted sourceNode +:+ " no longer connects to "
  +:+ Str.quoted (c_node conn) +:+ " (keeping linear flow to "
  +:+ Str.quoted (c_node firstConnection) +:+ ")".

Definition pruneSource (nodes : list Node) (kv : string * Ports)
    : (string * Ports) * list string :=
  match Dict.get "main" (snd kv) with
  | Some ((firstConnection :: second :: more) :: rest) =>
      if isConditionalNode nodes (fst kv) then (kv, [])
      else
        ((fst kv, Dict.set "main" ([firstConnection] :: rest) (snd kv)),
         map (overlinkFix (fst kv) firstConnection) (second :: more))
  | _ => (kv, [])
  end.

Definition removeOverlinking (w : Workflow) : Workflow * (nat * list string) :=
  match w_connections w with
  | None => (w, (0%nat, []))
  | Some cs =>
      let rs := map (pruneSource (w_nodes w)) cs in
      let fixes := concat (map snd rs) in
      (set_connections (map fst rs) w, (length fixes, fixes))
  end.

(** ** Fix 10: reconnect orphans *)

(** Append an edge to output slot 0 of [port] under [source], creating the
    entry and the port when absent; a present port without a slot 0 makes
    the [push] throw.  When [connections[source]] is a built-in object, that
    object takes the edge and [connections] stays as it is. *)
Definition pushEdge (source port : string) (c : Conn) (cs : Connections)
    : Exc Connections :=
  if builtin cs source then ret cs
  else
    let cs1 := match Dict.get source cs with None => Dict.set source [] cs | Some _ => cs end in
    let ps := default [] (Dict.get source cs1) in
    let ps1 := match Dict.get port ps with None => Dict.set port [[]] ps | Some _ => ps end in
    match default [] (Dict.get port ps1) with
    | [] => throw "Cannot read properties of undefined (reading 'push')"
    | slot0 :: rest => ret (Dict.set source (Dict.set port ((slot0 ++ [c]) :: rest) ps1) cs1)
    end.

Definition reconnect (nodes : list Node) (incoming : list string)
    (st : Connections * list string) (node : Node) : Exc (Connections * list string) :=
  let '(cs, fixes) := st in
  let name := nm node in
  let hasOutgoing := match Dict.get name cs with Some ps => nonEmpty ps | None => false end in
  let hasIncoming := Str.mem name incoming in
  if hasOutgoing || hasIncoming then ret st
  else if isAIAgentNode (ty node) then ret st
  else
    let agents := List.filter (fun n => isAIAgentNode (ty n)) nodes in
    if toolCapable (ty node) then
      match agents with
      | nearestAgent :: _ =>
          let message :=
            "Rebuilt ai_tool connection: " +:+ Str.quoted name +:+ " → "
            +:+ Str.quoted (nm nearestAgent) in
          if builtin cs name then ret (cs, fixes ++ [ message ])
          else
            let ps := default [] (Dict.get name cs) in
            ret (Dict.set name
                   (Dict.set "ai_tool" [[mkConn (nm nearestAgent) "ai_tool" 0%Z]] ps) cs,
                 fixes ++ [ message ])
      | [] => ret st
      end
    else
      match agents with
      | agent :: _ =>
          do cs' <- pushEdge (nm agent) "main" (mkConn name "main" 0%Z) cs;
          ret (cs', fixes ++ [ "Reconnected orphaned node " +:+ Str.quoted name
                               +:+ " from agent output " +:+ Str.quoted (nm agent) ])
      | [] =>
          match find (fun n => negb (Str.includes (Str.toLowerCase (ty n)) "trigger")
                               && negb (String.eqb (nm n) name)) nodes with
          | Some targetNode =>
              do cs' <- pushEdge (nm targetNode) "main" (mkConn name "main" 0%Z) cs;
              ret (cs', fixes ++ [ "Reconnected orphaned node " +:+ Str.quoted name
                                   +:+ " from " +:+ Str.quoted (nm targetNode) ])
          | None => ret st
          end
      end.

Definition rebuildOrphanedConnections (w : Workflow)
    : Exc (Workflow * (nat * list string)) :=
  let connections := conns_of w in
  let incoming :=
    flat_map (fun e => if Str.is_empty (c_node (snd e)) then [] else [c_node (snd e)])
             (edges connections) in
  do r <- foldExc (reconnect (w_nodes w) incoming) (w_nodes w) (connections, []);
  ret (set_connections (fst r) w, (length (snd r), snd r)).

(** ** Connection checks of the validator *)

Definition hasName (nodes : list Node) (name : string) : bool :=
  existsb (fun n => match n_name n with Some s => String.eqb s name | None => false end) nodes.

Definition pairKey (sourceName target : string) : string :=
  sourceName +:+ "->" +:+ target.

(** [connectionPairs.set(key, (connectionPairs.get(key) || 0) + 1)] *)
Definition countPair (m : Dict.t nat) (key : string) : Dict.t nat :=
  Dict.set key (default 0%nat (Dict.get key m) + 1)%nat m.

Definition hangingError (node : Node) : list string :=
  let nodeType := ty node in
  let nodeName := Str.quoted (show_name (n_name node)) in
  if String.eqb nodeType "n8n-nodes-base.stickyNote" then []
  else if isTriggerNode nodeType then
    [ "❌ HANGING TRIGGER: " +:+ nodeName +:+ " is not connected - workflow can't start. "
      +:+ "Connect this trigger to the first action node." ]
  else if isToolNode nodeType then
    [ "❌ HANGING TOOL: " +:+ nodeName +:+ " is not connected via ai_tool to any agent. "
      +:+ "Connect this tool to an AI agent." ]
  else if isLanguageModelNode nodeType then
    [ "❌ HANGING LLM: " +:+ nodeName +:+ " is not connected via ai_languageModel to any agent. "
      +:+ "Connect this model to an AI agent." ]
  else if isMemoryNode nodeType then
    [ "❌ HANGING MEMORY: " +:+ nodeName +:+ " is not connected via ai_memory to any agent. "
      +:+ "Connect this memory to an AI agent." ]
  else
    [ "❌ HANGING NODE: " +:+ nodeName +:+ " is not connected to workflow. "
      +:+ "Every node must have at least one connection." ].

(** The warning for a pair key counted [count] times; the two names are
    recovered by splitting the key at the arrow. *)
Definition duplicateMessage (key : string) (count : nat) : string :=
  let parts := Str.split_arrow key in
  "Duplicate connection detected: " +:+ Str.quoted (nth 0 parts "undefined")
  +:+ " is linked to " +:+ Str.quoted (nth 1 parts "undefined") +:+ " "
  +:+ pretty count +:+ " times".

Definition duplicateWarning (kc : string * nat) : list string :=
  if (1 <? snd kc)%nat then [ duplicateMessage (fst kc) (snd kc) ] else [].

(** How often [key] occurs in a list of keys. *)
Definition occurrences (key : string) (l : list string) : nat :=
  length (List.filter (String.eqb key) l).

(** The source-to-target pairs the validator counts: both ends name a step. *)
Definition countedPairs (nodes : list Node) (connections : Connections) : list string :=
  flat_map
    (fun kv =>
       if hasName nodes (fst kv) then
         flat_map
           (fun c => if hasName nodes (c_node c) then [pairKey (fst kv) (c_node c)] else [])
           (conns_in (snd kv))
       else [])
    connections.

Definition connectionPairs (nodes : list Node) (connections : Connections) : Dict.t nat :=
  fold_left countPair (countedPairs nodes connections) [].

Definition validateConnections (nodes : list Node) (connections : Connections)
    : list string * list string :=
  let referenceErrors :=
    flat_map
      (fun kv =>
         if hasName nodes (fst kv) then
           flat_map
             (fun c =>
                if hasName nodes (c_node c) then []
                else [ "❌ CRITICAL: Connection target " +:+ Str.quoted (c_node c)
                       +:+ " does not match any node name (from " +:+ Str.quoted (fst kv)
                       +:+ ")" ])
             (conns_in (snd kv))
         else [ "❌ CRITICAL: Connection source " +:+ Str.quoted (fst kv)
                +:+ " does not match any node name" ])
      connections in
  let connectedNodes :=
    flat_map
      (fun kv =>
         if hasName nodes (fst kv) then
           fst kv :: map c_node (List.filter (fun c => hasName nodes (c_node c)) (conns_in (snd kv)))
         else [])
      connections in
  let unconnectedNodes :=
    List.filter
      (fun n => match n_name n with
                | Some s => negb (Str.mem s connectedNodes)
                | None => true
                end)
      nodes in
  (referenceErrors ++ flat_map hangingError unconnectedNodes,
   flat_map duplicateWarning (connectionPairs nodes connections)).

(** ** The repair pipeline *)

(** [uuidv4()] draws a random identifier; the model derives one from the
    step's index, and nothing below depends on its value. *)
Definition uuidv4 (seed : nat) : string := "uuid-" +:+ pretty seed.

Definition credentialMappings : list (string * (string * string)) :=
  [ ("googlesheets", ("googleSheetsOAuth2Api", "Google Sheets account"));
    ("gmail", ("gmailOAuth2", "Gmail account"));
    ("slack", ("slackOAuth2Api", "Slack account"));
    ("discord", ("discordOAuth2Api", "Discord account"));
    ("notion", ("notionOAuth2Api", "Notion account"));
    ("airtable", ("airtableOAuth2Api", "Airtable account"));
    ("github", ("githubOAuth2Api", "GitHub account"));
    ("gitlab", ("gitlabOAuth2Api", "GitLab account"));
    ("shopify", ("shopifyOAuth2Api", "Shopify account"));
    ("stripe", ("stripeApi", "Stripe account"));
    ("hubspot", ("hubspotOAuth2Api", "HubSpot account"));
    ("googledrive", ("googleDriveOAuth2Api", "Google Drive account"));
    ("dropbox", ("dropboxOAuth2Api", "Dropbox account"));
    ("postgres", ("postgres", "PostgreSQL account"));
    ("mysql", ("mySql", "MySQL account"));
    ("mongodb", ("mongoDb", "MongoDB account"));
    ("redis", ("redis", "Redis account"));
    ("ssh", ("sshPassword", "SSH account"));
    ("ftp", ("ftp", "FTP account"));
    ("openai", ("openAiApi", "OpenAI account"));
    ("anthropic", ("anthropicApi", "Anthropic account")) ].

(** How often each name occurs among the steps that have one. *)
Definition nodeNameCounts (nodes : list Node) : Dict.t nat :=
  fold_left
    (fun m n => if falsy (n_name n) then m else countPair m (nm n))
    nodes [].

Definition needsRename (counts : Dict.t nat) (node : Node) : bool :=
  falsy (n_name node)
  || (1 <? default 0%nat (Dict.get (nm node) counts))%nat
  || isGeneric (n_name node).

Definition fixType (node : Node) : Node * list string :=
  let '(n1, f1) :=
    if falsy (n_type node) then
      (set_type "n8n-nodes-base.httpRequest" node,
       [ "✅ Added missing node type for node "
         +:+ Str.quoted (if falsy (n_name node) then "unnamed" else nm node) ])
    else (node, []) in
  if negb (falsy (n_type n1)) && negb (Str.includes (ty n1) ".") then
    let oldType := ty n1 in
    let newType := "n8n-nodes-base." +:+ oldType in
    (set_type newType n1,
     f1 ++ [ "✅ Fixed node type format: " +:+ Str.quoted oldType +:+ " → "
             +:+ Str.quoted newType ])
  else (n1, f1).

Definition fixName (counts : Dict.t nat) (i : nat) (nodeNames : list string)
    (node : Node) : Node * list string :=
  if needsRename counts node then
    let descriptiveName := generateDescriptiveName node i in
    let uniqueName := uniquify descriptiveName nodeNames in
    let oldName := n_name node in
    (set_name uniqueName node,
     [ if falsy oldName then "✅ Added descriptive name: " +:+ Str.quoted uniqueName
       else if isGeneric oldName then
         "✅ Renamed generic " +:+ Str.quoted (nm node) +:+ " → " +:+ Str.quoted uniqueName
       else
         "✅ Resolved duplicate name: " +:+ Str.quoted (nm node) +:+ " → "
         +:+ Str.quoted uniqueName ])
  else (node, []).

Definition fixId (i : nat) (node : Node) : Node * list string :=
  if falsy (n_id node) then
    (set_id (uuidv4 i) node, [ "✅ Added ID to node " +:+ Str.quoted (nm node) ])
  else (node, []).

Definition fixPosition (i : nat) (node : Node) : Node * list string :=
  match n_position node with
  | Some [_; _] => (node, [])
  | _ =>
      (set_position [100 + Z.of_nat i * 200; 250]%Z node,
       [ "✅ Set default position for node " +:+ Str.quoted (nm node) ])
  end.

Definition fixParameters (node : Node) : Node * list string :=
  match n_parameters node with
  | Some (JArr _) | Some (JObj _) => (node, [])
  | _ =>
      (set_parameters (JObj []) node,
       [ "✅ Added empty parameters object for node " +:+ Str.quoted (nm node) ])
  end.

Definition isEmptyString (v : JSON) : bool :=
  match v with
  | JStr s => Str.is_empty s
  | _ => false
  end.

Definition placeholderFix (node : Node) (key : string) : string :=
  "✅ Replaced empty " +:+ Str.quoted key +:+ " parameter with placeholder in "
  +:+ Str.quoted (nm node).

Definition fixPlaceholders (node : Node) : Node * list string :=
  match n_parameters node with
  | Some (JObj ps) =>
      (set_parameters
         (JObj (map (fun kv => if isEmptyString (snd kv)
                               then (fst kv, JStr ("placeholder-" +:+ fst kv)) else kv) ps))
         node,
       flat_map (fun kv => if isEmptyString (snd kv) then [placeholderFix node (fst kv)] else []) ps)
  | Some (JArr l) =>
      (set_parameters
         (JArr (imap (fun i v => if isEmptyString v
                                 then JStr ("placeholder-" +:+ pretty i) else v) l))
         node,
       concat (imap (fun i v => if isEmptyString v then [placeholderFix node (pretty i)] else []) l))
  | _ => (node, [])
  end.

Definition fixCredentials (i : nat) (node : Node) : Node * list string :=
  let nodeTypeSimple :=
    Str.toLowerCase (List.last (Str.split_chr "."%char (ty node)) EmptyString) in
  match find (fun kv => Str.includes nodeTypeSimple (fst kv)) credentialMappings with
  | Some (nodeKeyword, (credType, credName)) =>
      if match n_credentials node with Some c => truthy c | None => false end
      then (node, [])
      else
        (set_credentials
           (JObj [ (credType,
                    JObj [ ("id", JStr ("placeholder-" +:+ nodeKeyword +:+ "-" +:+ pretty i));
                           ("name", JStr credName) ]) ])
           node,
         [ "✅ Added placeholder credentials for node " +:+ Str.quoted (nm node) ])
  | None => (node, [])
  end.

(** One round of the second pass over the steps. *)
Definition fixNode (counts : Dict.t nat) (i : nat) (nodeNames : list string)
    (node : Node) : Node * list string :=
  let '(n1, f1) := fixType node in
  let '(n2, f2) := fixName counts i nodeNames n1 in
  let '(n3, f3) := fixId i n2 in
  let '(n4, f4) := fixPosition i n3 in
  let '(n5, f5) := fixParameters n4 in
  let '(n6, f6) := fixPlaceholders n5 in
  let '(n7, f7) := fixCredentials i n6 in
  (n7, f1 ++ f2 ++ f3 ++ f4 ++ f5 ++ f6 ++ f7).

Fixpoint fixNodes (counts : Dict.t nat) (i : nat) (nodeNames : list string)
    (nodes : list Node) : list Node * list string :=
  match nodes with
  | [] => ([], [])
  | node :: rest =>
      let '(node', f) := fixNode counts i nodeNames node in
      let '(rest', fs) := fixNodes counts (S i) (nodeNames ++ [nm node']) rest in
      (node' :: rest', f ++ fs)
  end.

(** Feature 9: connect the steps of a workflow that has no connections. *)
Definition mainEdge (target : string) : Ports :=
  [ ("main", [[mkConn target "main" 0%Z]]) ].

Definition autoConnect (w : Workflow) : Workflow * list string :=
  if (1 <? length (w_nodes w))%nat && negb (nonEmpty (conns_of w)) then
    let triggerNodes := List.filter (fun n => isTriggerNode (ty n)) (w_nodes w) in
    let actionNodes := List.filter (fun n => negb (isTriggerNode (ty n))) (w_nodes w) in
    match triggerNodes, actionNodes with
    | [t], [a] =>
        (set_connections [ (nm t, mainEdge (nm a)) ] w,
         [ "✅ Connected trigger " +:+ Str.quoted (nm t) +:+ " → " +:+ Str.quoted (nm a) ])
    | t :: _, _ :: _ =>
        let flow := t :: actionNodes in
        let links := combine flow (tl flow) in
        (set_connections
           (fold_left (fun cs st => Dict.set (nm (fst st)) (mainEdge (nm (snd st))) cs) links [])
           w,
         [ "✅ Created sequential connections: " +:+ Str.join " → " (map nm flow) ])
    | _, _ => (w, [])
    end
  else (w, []).

(** Features 10 and 7: drop edges whose ends name no step, and repeated
    edges within one output slot. *)
Definition connectionKey (sourceNode : string) (c : Conn) : string :=
  sourceNode +:+ "->" +:+ c_node c +:+ ":" +:+ c_type c +:+ ":" +:+ show_index c.

Fixpoint cleanSlot (nodes : list Node) (sourceNode : string) (seen : list string)
    (slot : list Conn) : list Conn * list string :=
  match slot with
  | [] => ([], [])
  | c :: rest =>
      if Str.is_empty (c_node c) || negb (hasName nodes (c_node c)) then
        let '(rest', fs) := cleanSlot nodes sourceNode seen rest in
        (rest', ("✅ Removed connection from " +:+ Str.quoted sourceNode
                 +:+ " to non-existent node " +:+ Str.quoted (c_node c)) :: fs)
      else if Str.mem (connectionKey sourceNode c) seen then
        let '(rest', fs) := cleanSlot nodes sourceNode seen rest in
        (rest', ("✅ Removed duplicate connection from " +:+ Str.quoted sourceNode
                 +:+ " to " +:+ Str.quoted (c_node c)) :: fs)
      else
        let '(rest', fs) :=
          cleanSlot nodes sourceNode (seen ++ [connectionKey sourceNode c]) rest in
        (c :: rest', fs)
  end.

Definition cleanPorts (nodes : list Node) (sourceNode : string) (ps : Ports)
    : Ports * list string :=
  let rs :=
    map (fun pk =>
           let slots := map (cleanSlot nodes sourceNode []) (snd pk) in
           ((fst pk, map fst slots), concat (map snd slots)))
        ps in
  (map fst rs, concat (map snd rs)).

Definition cleanConnections (w : Workflow) : Workflow * list string :=
  match w_connections w with
  | None => (w, [])
  | Some cs =>
      let rs :=
        map (fun kv =>
               if hasName (w_nodes w) (fst kv) then
                 let '(ps, fs) := cleanPorts (w_nodes w) (fst kv) (snd kv) in
                 ([(fst kv, ps)], fs)
               else
                 ([], [ "✅ Removed connections from non-existent source "
                        +:+ Str.quoted (fst kv) ]))
            cs in
      (set_connections (concat (map fst rs)) w, concat (map snd rs))
  end.

(** A numbered fix with its details, when the pass changed something. *)
Definition report (changed : bool) (header : string) (details : list string) : list string :=
  if changed then header :: map (fun f => "    → " +:+ f) details else [].

Record FixResult : Type := mkFixResult {
  fr_fixed : bool;
  fr_workflow : Workflow;
  fr_fixes : list string;
  fr_warnings : list string
}.

(** [applyAutoFixes].  The argument is deep-copied first and every pass
    works on the copy; here each pass returns the updated copy.  The flag
    [fixed] is set by exactly the statements that push a fix, so it is
    [true] when the list of fixes is not empty. *)
Definition applyAutoFixes (workflowJson : Workflow) : Exc FixResult :=
  let workflow := workflowJson in
  let '(w1, f1) :=
    if falsy (w_name workflow)
    then (mkWorkflow (Some "My Workflow") (w_nodes workflow) (w_connections workflow),
          [ "✅ Added missing workflow name" ])
    else (workflow, []) in
  let '(w2, f2) :=
    match w_connections w1 with
    | None => (set_connections [] w1, [ "✅ Added missing connections object" ])
    | Some _ => (w1, [])
    end in
  let '(nodes3, f3) := fixNodes (nodeNameCounts (w_nodes w2)) 0 [] (w_nodes w2) in
  let w3 := set_nodes nodes3 w2 in
  let '(w4, f4) := autoConnect w3 in
  let '(w5, f5) := cleanConnections w4 in
  let '(w6, d8) := replaceDeprecatedNodes w5 in
  let f8 := report (nonEmpty d8) "✅ [FIX-8] Replaced deprecated node types" d8 in
  let validationResult := validateAIAgentRequirements w6 in
  let warnings := map (fun e => "⚠️ " +:+ e) (fst validationResult) ++ snd validationResult in
  let '(w7, removed1) := removeInvalidAIToolConnections w6 in
  let fx1 :=
    report (0 <? removed1)%nat
      ("✅ [FIX-1] Removed " +:+ pretty removed1 +:+ " invalid ai_tool connections from regular nodes")
      [] in
  let '(w8, (converted, d2)) := convertRegularNodesToTools w7 in
  let fx2 :=
    report (0 <? converted)%nat
      ("✅ [FIX-2] Converted " +:+ pretty converted +:+ " regular nodes to tool variants") d2 in
  let '(w9, (removed3, d3)) := removeHardcodedModelParameters w8 in
  let fx3 :=
    report (0 <? removed3)%nat
      ("✅ [FIX-3] Removed " +:+ pretty removed3 +:+ " hardcoded model parameters from LLM nodes")
      d3 in
  do r4 <- fixBackwardsToolConnections w9;
  let '(w10, (fixed4, d4)) := r4 in
  let fx4 :=
    report (0 <? fixed4)%nat
      ("✅ [FIX-4] Fixed " +:+ pretty fixed4 +:+ " backwards tool connections") d4 in
  let '(w11, d5) := fixNodePositioning w10 in
  let fx5 :=
    report (nonEmpty d5) "✅ [FIX-5] Fixed node positioning for AI agent support nodes" d5 in
  let '(w12, d6) := ensureDescriptiveNames w11 in
  let fx6 := report (nonEmpty d6) "✅ [FIX-6] Ensured descriptive names for all nodes" d6 in
  let '(w13, (fixed7, d7)) := normalizeAIToolIndexes w12 in
  let fx7 :=
    report (0 <? fixed7)%nat
      ("✅ [FIX-7] Normalized " +:+ pretty fixed7 +:+ " ai_tool connection indexes to 0") d7 in
  let '(w14, (fixed9, d9)) := removeOverlinking w13 in
  let fx9 :=
    report (0 <? fixed9)%nat
      ("✅ [FIX-9] Removed " +:+ pretty fixed9 +:+ " excess connections (over-linking)") d9 in
  do r10 <-
    (if existsb (fun n => isAIAgentNode (ty n)) (w_nodes w14)
     then rebuildOrphanedConnections w14
     else ret (w14, (0%nat, [])));
  let '(w15, (fixed10, d10)) := r10 in
  let fx10 :=
    report (0 <? fixed10)%nat
      ("✅ [FIX-10] Rebuilt " +:+ pretty fixed10 +:+ " orphaned node connections") d10 in
  let fixes :=
    f1 ++ f2 ++ f3 ++ f4 ++ f5 ++ f8 ++ fx1 ++ fx2 ++ fx3 ++ fx4 ++ fx5 ++ fx6 ++ fx7
       ++ fx9 ++ fx10 in
  ret (mkFixResult (nonEmpty fixes) w15 fixes warnings).

(** ** The validator *)

Record ValidationResult : Type := mkResult {
  valid : bool;
  errors : list string;
  warnings : list string;
  fixes : list string;
  autofixed : bool;
  normalized : option RawWorkflow
}.

(** What [validateWorkflow] may be called with: a value that is not an
    object ([null], a number, a string, ...) or an object. *)
Inductive Input : Type :=
| InPrimitive
| InObject (w : RawWorkflow).

(** [node.name || `at index ${i}`] inside quotes. *)
Definition nameOrIndex (node : Node) (i : nat) : string :=
  Str.quoted (if falsy (n_name node) then "at index " +:+ pretty i else nm node).

(** Step 0, the scan for incomplete step structures.  [inl] is the
    immediate exit on a step that is not an object or whose parameters are
    not an object; [inr] carries the errors gathered by a completed scan. *)
Fixpoint scanNodes (i : nat) (nodes : list (option Node)) (errors : list string)
    : list string + list string :=
  match nodes with
  | [] => inr errors
  | None :: _ =>
      inl (errors ++ [ "❌ CRITICAL: Node at index " +:+ pretty i
                       +:+ " is not a valid object - workflow JSON is malformed" ])
  | Some node :: rest =>
      if match n_parameters node with
         | Some p => negb (typeof_object p)
         | None => false
         end
      then inl (errors ++ [ "❌ CRITICAL: Node " +:+ nameOrIndex node i
                            +:+ " has malformed parameters" ])
      else
        scanNodes (S i) rest
          (errors
           ++ (if falsy (n_name node)
               then [ "❌ CRITICAL: Node at index " +:+ pretty i +:+ " is missing 'name' field" ]
               else [])
           ++ (if falsy (n_type node)
               then [ "❌ CRITICAL: Node at index " +:+ pretty i +:+ " is missing 'type' field" ]
               else [])
           ++ (match n_position node with
               | None => [ "❌ CRITICAL: Node " +:+ nameOrIndex node i
                           +:+ " is missing 'position' field" ]
               | Some _ => []
               end))
  end.

(** The issues [WorkflowSchema.safeParse] (zod) reports, for the fields the
    typed model leaves open, as [`❌ ${path}: ${message}`] with zod's
    default messages. *)
Definition schemaIssuesOfNode (i : nat) (node : Node) : list string :=
  let at_ (field message : string) :=
    "❌ nodes." +:+ pretty i +:+ "." +:+ field +:+ ": " +:+ message in
  (match n_name node with None => [at_ "name" "Required"] | Some _ => [] end)
  ++ (match n_type node with
      | None => [at_ "type" "Required"]
      | Some t =>
          if Str.startsWith t "n8n-nodes-base." || Str.startsWith t "@n8n/"
             || Str.startsWith t "n8n-nodes-"
          then [] else [at_ "type" "Invalid"]
      end)
  ++ (match n_typeVersion node with
      | Some v => if (0 <? v)%Z then [] else [at_ "typeVersion" "Number must be greater than 0"]
      | None => []
      end)
  ++ (match n_position node with
      | None => [at_ "position" "Required"]
      | Some [_; _] => []
      | Some _ => [at_ "position" "Array must contain exactly 2 element(s)"]
      end)
  ++ (match n_parameters node with
      | None => [at_ "parameters" "Required"]
      | Some (JObj _) => []
      | Some JNull => [at_ "parameters" "Expected object, received null"]
      | Some (JArr _) => [at_ "parameters" "Expected object, received array"]
      | Some _ => [at_ "parameters" "Expected object"]
      end).

Definition schemaIssues (nodes : list Node) : list string :=
  match nodes with
  | [] => [ "❌ nodes: Array must contain at least 1 element(s)" ]
  | _ => concat (imap schemaIssuesOfNode nodes)
  end.

(** Step 3: the per-step checks. *)
Definition nodeErrors (node : Node) : list string :=
  (if falsy (n_name node) then [ "Node missing name" ] else [])
  ++ (if falsy (n_type node)
      then [ "Node " +:+ Str.quoted (if falsy (n_name node) then "unnamed" else nm node)
             +:+ " missing type" ]
      else [])
  ++ (if negb (falsy (n_type node)) && negb (Str.includes (ty node) ".")
      then [ "Node " +:+ Str.quoted (show_name (n_name node)) +:+ " has invalid type format "
             +:+ Str.quoted (ty node) ]
      else [])
  ++ (match n_position node with
      | Some [_; _] => []
      | _ => [ "Node " +:+ Str.quoted (show_name (n_name node))
               +:+ " missing or invalid position array" ]
      end)
  ++ (match n_parameters node with
      | None => [ "Node " +:+ Str.quoted (show_name (n_name node))
                  +:+ " missing parameters object" ]
      | Some _ => []
      end)
  ++ (if negb (falsy (n_name node)) && isGeneric (n_name node)
      then [ "Node " +:+ Str.quoted (nm node) +:+ " has generic name - use descriptive names" ]
      else []).

(** [new Set(nodes.map(n => n.name)).size !== nodes.length] *)
Definition hasDuplicateNames (nodes : list Node) : bool :=
  negb (length (remove_dups (map n_name nodes)) =? length nodes)%nat.

(** The array elements, once the scan has found them all to be objects. *)
Definition objects (nodes : list (option Node)) : list Node :=
  flat_map (fun o => match o with Some n => [n] | None => [] end) nodes.

Definition fatal (errs : list string) : ValidationResult :=
  mkResult false errs [] [] false None.

Definition malformedHeader : list string :=
  [ "❌ WORKFLOW JSON IS MALFORMED/INCOMPLETE";
    "The workflow contains incomplete node definitions.";
    "This usually means the AI response was cut off or truncated.";
    EmptyString;
    "Specific errors:" ].

(** Steps 1 to 4: the errors and warnings found before any repair. *)
Definition preChecks (workflowJson : Workflow) : list string * list string :=
  let nodes := w_nodes workflowJson in
  let errors1 := schemaIssues nodes in
  let errors2 :=
    if hasDuplicateNames nodes then [ "Workflow contains nodes with duplicate names" ] else [] in
  let errors3 := flat_map nodeErrors nodes in
  let '(errors4, warnings4) :=
    match w_connections workflowJson with
    | Some cs => validateConnections nodes cs
    | None => ([], [])
    end in
  (errors1 ++ errors2 ++ errors3 ++ errors4, warnings4).

(** The end of step 5: re-validation after the fixes, and the report. *)
Definition conclude (raw : RawWorkflow) (errors warnings : list string)
    (fixResult : FixResult) : ValidationResult :=
  let normalizedWorkflow := fr_workflow fixResult in
  let autofixed := fr_fixed fixResult in
  let postFixErrors :=
    if hasDuplicateNames (w_nodes normalizedWorkflow)
    then [ "Workflow still contains nodes with duplicate names after auto-fix" ]
    else [] in
  let errors' :=
    if autofixed && negb (nonEmpty postFixErrors) then []
    else errors ++ postFixErrors in
  mkResult (negb (nonEmpty errors')) errors'
    (warnings ++ fr_warnings fixResult) (fr_fixes fixResult) autofixed
    (Some (if autofixed then raw_of normalizedWorkflow else raw)).

(** The report when no repair is requested. *)
Definition concludeUnfixed (raw : RawWorkflow) (errors warnings : list string)
    : ValidationResult :=
  mkResult (negb (nonEmpty errors)) errors warnings [] false (Some raw).

(** Steps 0 and 2: either an immediate report, or the workflow whose
    [nodes] array holds at least one element and objects only. *)
Definition checkedWorkflow (workflowJson : Input)
    : ValidationResult + RawWorkflow * Workflow :=
  match workflowJson with
  | InPrimitive =>
      inl (fatal [ "❌ CRITICAL: Invalid workflow format - not a valid JSON object" ])
  | InObject raw =>
      match r_nodes raw with
      | None => inl (fatal [ "Workflow must have nodes array" ])
      | Some nodes =>
          match scanNodes 0 nodes [] with
          | inl errs => inl (fatal errs)
          | inr [] =>
              match nodes with
              | [] => inl (fatal [ "Workflow must have at least one node" ])
              | _ => inr (raw, mkWorkflow (r_name raw) (objects nodes) (r_connections raw))
              end
          | inr errs => inl (fatal (malformedHeader ++ errs))
          end
      end
  end.

Definition validateWorkflow (workflowJson : Input) (autofix : bool) : ValidationResult :=
  match checkedWorkflow workflowJson with
  | inl r => r
  | inr (raw, workflow) =>
      let '(errors, warnings) := preChecks workflow in
      if autofix then
        match applyAutoFixes workflow with
        | inl message => fatal [ message ]
        | inr fixResult => conclude raw errors warnings fixResult
        end
      else concludeUnfixed raw errors warnings
  end.

(** ** Depth of a workflow ([analyzer.ts]) *)

Module Analyzer.

(** The variables of [calculateWorkflowDepth]: the map of best-known
    depths, the work-list and the running maximum. *)
Record DepthState : Type := mkDepthState {
  depths : Dict.t Z;
  queue : list string;
  maxDepth : Z
}.

(** [Number.MAX_SAFE_INTEGER], 2^53 - 1. *)
Definition MAX_SAFE_INTEGER : Z := 9007199254740991.

(** [d + 1] on the numbers of JavaScript, for an integer [d] from 0 to
    2^53: up to [MAX_SAFE_INTEGER] the sum is exact, and 2^53 + 1, which
    is no double, rounds to 2^53.  Depths start at 0 and grow by this
    operation only, so they stay in that range. *)
Definition plusOne (d : Z) : Z :=
  if (d <=? MAX_SAFE_INTEGER)%Z then (d + 1)%Z else d.

(** The body of the innermost [forEach]: relax one edge. *)
Definition relax (currentDepth : Z) (st : DepthState) (conn : Conn) : DepthState :=
  let nextDepth := plusOne currentDepth in
  let existingDepth := default 0%Z (Dict.get (c_node conn) (depths st)) in
  if (existingDepth <? nextDepth)%Z then
    mkDepthState
      (Dict.set (c_node conn) nextDepth (depths st))
      (if Str.mem (c_node conn) (queue st) then queue st else queue st ++ [c_node conn])
      (Z.max (maxDepth st) nextDepth)
  else st.

(** One round of the [while] loop, for a work-list [currentNode :: rest]
    and the object [workflow.connections].  A name that [connections] does
    not have as a key of its own yields nothing to visit, also when it is
    the name of a built-in member: [Object.values] of that is empty. *)
Definition step (connections : Connections) (st : DepthState)
    (currentNode : string) (rest : list string) : DepthState :=
  let currentDepth := default 0%Z (Dict.get currentNode (depths st)) in
  let st1 := mkDepthState (depths st) rest (maxDepth st) in
  match Dict.get currentNode connections with
  | None => st1
  | Some ps => fold_left (relax currentDepth) (conns_in ps) st1
  end.

(** The [while (queue.length > 0)] loop, run for at most [fuel] rounds:
    [None] when the work-list is still not empty after [fuel] rounds,
    otherwise what the loop returns or throws.  Reading a key of an absent
    [workflow.connections] throws. *)
Fixpoint depthLoop (fuel : nat) (connections : option Connections) (st : DepthState)
    : option (Exc Z) :=
  match queue st with
  | [] => Some (ret (maxDepth st))
  | currentNode :: rest =>
      match fuel with
      | O => None
      | S fuel' =>
          match connections with
          | None =>
              Some (throw ("Cannot read properties of undefined (reading '"
                           +:+ currentNode +:+ "')"))
          | Some cs => depthLoop fuel' connections (step cs st currentNode rest)
          end
      end
  end.

(** [workflow.nodes.find(n => n.type.includes('Trigger') ||
    n.type.includes('trigger'))]: a step without a kind that comes ahead of
    the first trigger makes [includes] throw. *)
Fixpoint findTrigger (nodes : list Node) : Exc (option Node) :=
  match nodes with
  | [] => ret None
  | n :: rest =>
      match n_type n with
      | None => throw "Cannot read properties of undefined (reading 'includes')"
      | Some nodeType =>
          if Str.includes nodeType "Trigger" || Str.includes nodeType "trigger"
          then ret (Some n)
          else findTrigger rest
      end
  end.

(** The state in front of the loop.  A trigger without a name is recorded
    under the key [undefined], which no edge reaches, and is looked up in
    [workflow.connections] under the name [undefined]. *)
Definition initial (trigger : Node) : DepthState :=
  mkDepthState
    (match n_name trigger with Some name => [(name, 0%Z)] | None => [] end)
    [show_name (n_name trigger)]
    0%Z.

Definition calculateWorkflowDepth (fuel : nat) (w : Workflow) : option (Exc Z) :=
  match findTrigger (w_nodes w) with
  | inl message => Some (throw message)
  | inr None => Some (ret 0%Z)
  | inr (Some trigger) => depthLoop fuel (w_connections w) (initial trigger)
  end.

(** ** The other measures of [analyzePerformance]

    These read [workflow.connections] through [Object.values], which
    throws on an absent object, and [node.type] through [includes], which
    throws on an absent kind. *)

(** [connArray.reduce((sum, conns) => sum + (conns?.length || 0), 0)] *)
Definition pathCount (connArray : Outputs) : nat :=
  fold_left (fun sum conns => (sum + length conns)%nat) connArray 0%nat.

(** The [connectionCount] of [analyzePerformance]. *)
Definition connectionCount (w : Workflow) : Exc nat :=
  match w_connections w with
  | None => throw "Cannot convert undefined or null to object"
  | Some cs =>
      ret (fold_left
             (fun total kv =>
                (total + fold_left (fun sum pk => (sum + pathCount (snd pk))%nat)
                                   (snd kv) 0)%nat)
             cs 0%nat)
  end.

Definition countParallelPaths (w : Workflow) : Exc nat :=
  match w_connections w with
  | None => throw "Cannot convert undefined or null to object"
  | Some cs =>
      ret (fold_left
             (fun maxParallel kv =>
                fold_left (fun m pk => Nat.max m (pathCount (snd pk))) (snd kv) maxParallel)
             cs 0%nat)
  end.

(** The milliseconds [estimateExecutionTime] adds for one step. *)
Definition nodeTime (nodeType : string) : nat :=
  (100
   + (if String.eqb nodeType "n8n-nodes-base.httpRequest" then 500 else 0)
   + (if String.eqb nodeType "n8n-nodes-base.code" then 200 else 0)
   + (if Str.includes nodeType "database" || Str.includes nodeType "postgres"
         || Str.includes nodeType "mysql"
      then 300 else 0)
   + (if Str.includes nodeType "agent" || Str.includes nodeType "langchain"
      then 2000 else 0))%nat.

Definition estimateExecutionTime (w : Workflow) : Exc nat :=
  foldExc
    (fun totalTime node =>
       match n_type node with
       | None => throw "Cannot read properties of undefined (reading 'includes')"
       | Some nodeType => ret (totalTime + nodeTime nodeType)%nat
       end)
    (w_nodes w) 0%nat.

Inductive Complexity : Type := Low | Medium | High | VeryHigh.

Definition calculateComplexity (nodeCount depth parallelPaths : Z) : Complexity :=
  let score := (nodeCount + depth * 2 + parallelPaths * 3)%Z in
  if (score <? 10)%Z then Low
  else if (score <? 25)%Z then Medium
  else if (score <? 50)%Z then High
  else VeryHigh.

End Analyzer.

(** ** The validator over a store of objects

    [validateWorkflow] receives a reference to the caller's object.  The
    store maps a location to the object that lives there; a document
    refers to its array of steps and to its adjacency object.  Every pass
    of the pipeline is called with a reference and reads and writes through
    it.  [JSON.parse(JSON.stringify(x))] builds a graph of new objects that
    shares no object with [x]. *)

Module Heap.

Definition loc : Type := positive.

(** The objects of a workflow document: the document, whose fields
    [nodes] and [connections] refer to further objects; the array of
    steps; the adjacency object. *)
Inductive Obj : Type :=
| ODoc (name : option string) (nodes connections : option loc)
| ONodes (elements : list (option Node))
| OConns (connections : Connections).

Abbreviation heap := (gmap loc Obj).

(** The argument of the call: a primitive value or a reference. *)
Inductive Arg : Type :=
| APrimitive
| ARef (l : loc).

(** The report; [normalized] is a reference. *)
Record Report : Type := mkReport {
  h_valid : bool;
  h_errors : list string;
  h_warnings : list string;
  h_fixes : list string;
  h_autofixed : bool;
  h_normalized : option loc
}.

Definition report_of (r : ValidationResult) (normalized : option loc) : Report :=
  mkReport (valid r) (errors r) (warnings r) (fixes r) (autofixed r) normalized.

(** [workflow.nodes], when the field refers to an array. *)
Definition nodesAt (h : heap) (field : option loc) : option (list (option Node)) :=
  match field with
  | Some l => match h !! l with Some (ONodes elements) => Some elements | _ => None end
  | None => None
  end.

(** [workflow.connections], when the field refers to an adjacency object. *)
Definition connectionsAt (h : heap) (field : option loc) : option Connections :=
  match field with
  | Some l => match h !! l with Some (OConns connections) => Some connections | _ => None end
  | None => None
  end.

(** The document that a reference leads to, read through its fields.  An
    array or an adjacency object taken for a document has none of the three
    fields; a location outside the store holds no object. *)
Definition read (h : heap) (l : loc) : option RawWorkflow :=
  match h !! l with
  | Some (ODoc name nodes connections) =>
      Some (mkRaw name (nodesAt h nodes) (connectionsAt h connections))
  | Some _ => Some (mkRaw None None None)
  | None => None
  end.

Definition deref (h : heap) (a : Arg) : Input :=
  match a with
  | APrimitive => InPrimitive
  | ARef l =>
      match read h l with
      | Some raw => InObject raw
      | None => InPrimitive
      end
  end.

Definition ref_of (a : Arg) : option loc :=
  match a with
  | ARef l => Some l
  | APrimitive => None
  end.

(** A new object. *)
Definition alloc (o : Obj) (h : heap) : heap * loc :=
  let l := fresh (dom h) in
  (<[l := o]> h, l).

(** [JSON.parse(JSON.stringify(workflowJson))]: the document is read
    through the reference and built again from new objects, the array and
    the adjacency object included. *)
Definition clone (workflowJson : loc) (h : heap) : heap * loc :=
  match read h workflowJson with
  | None => (h, workflowJson)
  | Some raw =>
      let '(h1, nodes) :=
        match r_nodes raw with
        | Some elements => let '(h1, l) := alloc (ONodes elements) h in (h1, Some l)
        | None => (h, None)
        end in
      let '(h2, connections) :=
        match r_connections raw with
        | Some cs => let '(h2, l) := alloc (OConns cs) h1 in (h2, Some l)
        | None => (h1, None)
        end in
      alloc (ODoc (r_name raw) nodes connections) h2
  end.

(** The workflow as a pass finds it behind the reference [workflow]. *)
Definition view (h : heap) (workflow : loc) : Workflow :=
  match read h workflow with
  | Some raw =>
      mkWorkflow (r_name raw) (objects (default [] (r_nodes raw))) (r_connections raw)
  | None => mkWorkflow None [] None
  end.

(** What a pass leaves behind the reference [workflow].  The passes assign
    to the fields of the document, of the steps and of the edges, and push
    to and delete from the arrays and the adjacency object: every write
    lands in the objects that the document already refers to.  A field the
    document does not have yet gets a new object. *)
Definition write (workflow : loc) (w : Workflow) (h : heap) : heap :=
  match h !! workflow with
  | Some (ODoc _ nodes connections) =>
      let '(h1, nodes') :=
        match nodes with
        | Some l => (<[l := ONodes (map Some (w_nodes w))]> h, l)
        | None => alloc (ONodes (map Some (w_nodes w))) h
        end in
      let '(h2, connections') :=
        match w_connections w, connections with
        | None, _ => (h1, None)
        | Some cs, Some l => (<[l := OConns cs]> h1, Some l)
        | Some cs, None => let '(h2, l) := alloc (OConns cs) h1 in (h2, Some l)
        end in
      <[workflow := ODoc (w_name w) (Some nodes') connections']> h2
  | _ => h
  end.

(** A pass called with the reference: it reads and writes through it. *)
Definition inPlace {X : Type} (pass : Workflow -> Workflow * X) (workflow : loc) (h : heap)
    : heap * X :=
  let '(w, x) := pass (view h workflow) in
  (write workflow w h, x).

(** A pass that may throw.  What it wrote before it threw is left out: the
    exception ends [applyAutoFixes], and nothing refers to the copy
    afterwards. *)
Definition inPlaceExc {X : Type} (pass : Workflow -> Exc (Workflow * X)) (workflow : loc)
    (h : heap) : heap * Exc X :=
  match pass (view h workflow) with
  | inl message => (h, inl message)
  | inr (w, x) => (write workflow w h, inr x)
  end.

(** The first statements of [applyAutoFixes], on the copy. *)
Definition nameFix (w : Workflow) : Workflow * list string :=
  if falsy (w_name w)
  then (mkWorkflow (Some "My Workflow") (w_nodes w) (w_connections w),
        [ "✅ Added missing workflow name" ])
  else (w, []).

Definition connectionsFix (w : Workflow) : Workflow * list string :=
  match w_connections w with
  | None => (set_connections [] w, [ "✅ Added missing connections object" ])
  | Some _ => (w, [])
  end.

Definition nodeFix (w : Workflow) : Workflow * list string :=
  let '(nodes, f) := fixNodes (nodeNameCounts (w_nodes w)) 0 [] (w_nodes w) in
  (set_nodes nodes w, f).

Definition rebuildIfAgents (w : Workflow) : Exc (Workflow * (nat * list string)) :=
  if existsb (fun n => isAIAgentNode (ty n)) (w_nodes w)
  then rebuildOrphanedConnections w
  else ret (w, (0%nat, [])).

(** What [applyAutoFixes] returns; [workflow] is a reference. *)
Record Fixed : Type := mkFixed {
  f_fixed : bool;
  f_workflow : loc;
  f_fixes : list string;
  f_warnings : list string
}.

(** The passes of [applyAutoFixes] in their order, each called with the
    same reference [workflow]. *)
Definition repair (workflow : loc) (h : heap) : heap * Exc Fixed :=
  let '(h1, f1) := inPlace nameFix workflow h in
  let '(h2, f2) := inPlace connectionsFix workflow h1 in
  let '(h3, f3) := inPlace nodeFix workflow h2 in
  let '(h4, f4) := inPlace autoConnect workflow h3 in
  let '(h5, f5) := inPlace cleanConnections workflow h4 in
  let '(h6, d8) := inPlace replaceDeprecatedNodes workflow h5 in
  let f8 := report (nonEmpty d8) "✅ [FIX-8] Replaced deprecated node types" d8 in
  let validationResult := validateAIAgentRequirements (view h6 workflow) in
  let warnings := map (fun e => "⚠️ " +:+ e) (fst validationResult) ++ snd validationResult in
  let '(h7, removed1) := inPlace removeInvalidAIToolConnections workflow h6 in
  let fx1 :=
    report (0 <? removed1)%nat
      ("✅ [FIX-1] Removed " +:+ pretty removed1 +:+ " invalid ai_tool connections from regular nodes")
      [] in
  let '(h8, (converted, d2)) := inPlace convertRegularNodesToTools workflow h7 in
  let fx2 :=
    report (0 <? converted)%nat
      ("✅ [FIX-2] Converted " +:+ pretty converted +:+ " regular nodes to tool variants") d2 in
  let '(h9, (removed3, d3)) := inPlace removeHardcodedModelParameters workflow h8 in
  let fx3 :=
    report (0 <? removed3)%nat
      ("✅ [FIX-3] Removed " +:+ pretty removed3 +:+ " hardcoded model parameters from LLM nodes")
      d3 in
  match inPlaceExc fixBackwardsToolConnections workflow h9 with
  | (h10, inl message) => (h10, inl message)
  | (h10, inr (fixed4, d4)) =>
      let fx4 :=
        report (0 <? fixed4)%nat
          ("✅ [FIX-4] Fixed " +:+ pretty fixed4 +:+ " backwards tool connections") d4 in
      let '(h11, d5) := inPlace fixNodePositioning workflow h10 in
      let fx5 :=
        report (nonEmpty d5) "✅ [FIX-5] Fixed node positioning for AI agent support nodes" d5 in
      let '(h12, d6) := inPlace ensureDescriptiveNames workflow h11 in
      let fx6 := report (nonEmpty d6) "✅ [FIX-6] Ensured descriptive names for all nodes" d6 in
      let '(h13, (fixed7, d7)) := inPlace normalizeAIToolIndexes workflow h12 in
      let fx7 :=
        report (0 <? fixed7)%nat
          ("✅ [FIX-7] Normalized " +:+ pretty fixed7 +:+ " ai_tool connection indexes to 0") d7 in
      let '(h14, (fixed9, d9)) := inPlace removeOverlinking workflow h13 in
      let fx9 :=
        report (0 <? fixed9)%nat
          ("✅ [FIX-9] Removed " +:+ pretty fixed9 +:+ " excess connections (over-linking)") d9 in
      match inPlaceExc rebuildIfAgents workflow h14 with
      | (h15, inl message) => (h15, inl message)
      | (h15, inr (fixed10, d10)) =>
          let fx10 :=
            report (0 <? fixed10)%nat
              ("✅ [FIX-10] Rebuilt " +:+ pretty fixed10 +:+ " orphaned node connections") d10 in
          let fixes :=
            f1 ++ f2 ++ f3 ++ f4 ++ f5 ++ f8 ++ fx1 ++ fx2 ++ fx3 ++ fx4 ++ fx5 ++ fx6 ++ fx7
               ++ fx9 ++ fx10 in
          (h15, inr (mkFixed (nonEmpty fixes) workflow fixes warnings))
      end
  end.

(** [workflow.nodes], read through the reference, when it is an array. *)
Definition nodesOf (h : heap) (workflow : loc) : option (list (option Node)) :=
  match read h workflow with
  | Some raw => r_nodes raw
  | None => None
  end.

(** [applyAutoFixes] on the store: the copy is made first, and the copy
    is what every pass is called with.  A copy without a [nodes] array is
    returned as it is. *)
Definition applyAutoFixes (workflowJson : loc) (h : heap) : heap * Exc Fixed :=
  let '(h1, workflow) := clone workflowJson h in
  match nodesOf h1 workflow with
  | None => (h1, inr (mkFixed false workflow [] []))
  | Some _ => repair workflow h1
  end.

(** [validateWorkflow] in store-passing style.  The checks only read
    through the argument; the report refers to the copy when a fix was
    made and to the argument itself otherwise. *)
Definition validateWorkflow (workflowJson : Arg) (autofix : bool) (h : heap)
    : heap * Report :=
  match workflowJson with
  | APrimitive => (h, report_of (validateWorkflow InPrimitive autofix) None)
  | ARef l =>
      match checkedWorkflow (deref h workflowJson) with
      | inl r => (h, report_of r None)
      | inr (raw, checked) =>
          let '(errors, warnings) := preChecks checked in
          if autofix then
            match applyAutoFixes l h with
            | (h', inl message) => (h', report_of (fatal [ message ]) None)
            | (h', inr fixResult) =>
                let normalizedWorkflow := f_workflow fixResult in
                (h',
                 report_of
                   (conclude raw errors warnings
                      (mkFixResult (f_fixed fixResult) (view h' normalizedWorkflow)
                         (f_fixes fixResult) (f_warnings fixResult)))
                   (Some (if f_fixed fixResult then normalizedWorkflow else l)))
            end
          else
            (h, report_of (concludeUnfixed raw errors warnings) (Some l))
      end
  end.

(** A copy that is not deep: a new document that refers to the array and
    the adjacency object of the old one. *)
Definition shallowCopy (workflowJson : loc) (h : heap) : heap * loc :=
  match h !! workflowJson with
  | Some o => alloc o h
  | None => (h, workflowJson)
  end.

End Heap.

(** * Scenarios

    Concrete workflows used by the statements below. *)

Module Scenario.

(** A step with every field of the document shape present. *)
Definition step (id name type : string) (x y : Z) (parameters : list (string * JSON)) : Node :=
  mkNode (Some id) (Some name) (Some type) (Some 1%Z) (Some [x; y]) (Some (JObj parameters)) None.

(** A step as a caller writes it before any repair: no [id]. *)
Definition draft (name type : string) (x y : Z) : Node :=
  mkNode None (Some name) (Some type) (Some 1%Z) (Some [x; y]) (Some (JObj [])) None.

Definition mainTo (target : string) : Ports :=
  [ ("main", [[mkConn target "main" 0%Z]]) ].

Definition toolTo (target : string) (index : Z) : Ports :=
  [ ("ai_tool", [[mkConn target "ai_tool" index]]) ].

(** Scenario B: a single step named [Node1], no edges, no agent. *)
Definition singleGeneric : RawWorkflow :=
  mkRaw (Some "Scenario B")
    (Some [ Some (draft "Node1" "n8n-nodes-base.httpRequest" 100 250) ])
    (Some []).

(** A generic name whose descriptive replacement is already taken by a
    later step. *)
Definition collision : Workflow :=
  mkWorkflow (Some "Collision")
    [ step "1" "Start" "n8n-nodes-base.manualTrigger" 100 250 [];
      step "2" "Node1" "n8n-nodes-base.code" 300 250 [];
      step "3" "Code Execute" "n8n-nodes-base.code" 500 250 [] ]
    (Some [ ("Start", mainTo "Node1"); ("Node1", mainTo "Code Execute") ]).

Definition nameCollision : RawWorkflow := raw_of collision.

(** A trigger and an action under generic names, joined by one edge. *)
Definition genericPair : Workflow :=
  mkWorkflow (Some "Pair")
    [ step "1" "Node1" "n8n-nodes-base.manualTrigger" 100 250 [];
      step "2" "Node2" "n8n-nodes-base.httpRequest" 300 250 [] ]
    (Some [ ("Node1", mainTo "Node2") ]).

(** A trigger followed by a loop: [Loop] feeds [Process], which feeds
    [Loop] again. *)
Definition loopConnections : Connections :=
  [ ("Start", mainTo "Loop"); ("Loop", mainTo "Process"); ("Process", mainTo "Loop") ].

Definition loopWorkflow : Workflow :=
  mkWorkflow (Some "Loop")
    [ step "1" "Start" "n8n-nodes-base.manualTrigger" 100 250 [];
      step "2" "Loop" "n8n-nodes-base.splitInBatches" 300 250 [];
      step "3" "Process" "n8n-nodes-base.code" 500 250 [] ]
    (Some loopConnections).



(** Scenario D: ten action steps in a chain; step 3 also feeds step 7. *)
Definition chainNames : list string :=
  [ "Step 1"; "Step 2"; "Step 3"; "Step 4"; "Step 5";
    "Step 6"; "Step 7"; "Step 8"; "Step 9"; "Step 10" ].

Definition chainNodes : list Node :=
  imap (fun i name => step (pretty i) name "n8n-nodes-base.set" (100 + Z.of_nat i * 200) 250 [])
       chainNames.

Definition fanoutChain : Workflow :=
  mkWorkflow (Some "Scenario D") chainNodes
    (Some [ ("Step 1", mainTo "Step 2");
            ("Step 2", mainTo "Step 3");
            ("Step 3", [ ("main", [[ mkConn "Step 4" "main" 0%Z; mkConn "Step 7" "main" 0%Z ]]) ]);
            ("Step 4", mainTo "Step 5");
            ("Step 5", mainTo "Step 6");
            ("Step 6", mainTo "Step 7");
            ("Step 7", mainTo "Step 8");
            ("Step 8", mainTo "Step 9");
            ("Step 9", mainTo "Step 10") ]).

(** A step that is neither IF nor Switch, with two edges on its second
    output slot. *)
Definition secondSlotFanout : Workflow :=
  mkWorkflow (Some "Batches")
    [ step "1" "Start" "n8n-nodes-base.manualTrigger" 100 250 [];
      step "2" "Batch" "n8n-nodes-base.splitInBatches" 300 250 [];
      step "3" "Done" "n8n-nodes-base.set" 500 150 [];
      step "4" "Work" "n8n-nodes-base.set" 500 350 [];
      step "5" "Log" "n8n-nodes-base.set" 500 550 [] ]
    (Some [ ("Start", mainTo "Batch");
            ("Batch", [ ("main", [ [ mkConn "Done" "main" 0%Z ];
                                   [ mkConn "Work" "main" 0%Z; mkConn "Log" "main" 0%Z ] ]) ]) ]).

(** A model step whose model name sits under keys the pass looks at and
    under a key it does not. *)
Definition modelStep : Node :=
  step "1" "OpenAI Chat Model" "@n8n/n8n-nodes-langchain.lmChatOpenAi" 100 250
    [ ("model", JStr "GPT-4o-mini"); ("modelId", JStr "gpt-4"); ("temperature", JNum 1) ].

Definition modelWorkflow : Workflow :=
  mkWorkflow (Some "Model") [ modelStep ] (Some []).

(** Two steps joined twice: once through [main] at index 0 and once
    through [ai_tool] at index 1. *)
Definition twiceLinkedNodes : list Node :=
  [ step "1" "Fetch" "n8n-nodes-base.httpRequest" 100 250 [];
    step "2" "Save" "n8n-nodes-base.set" 300 250 [] ].

Definition twiceLinked : Connections :=
  [ ("Fetch", [ ("main", [[ mkConn "Save" "main" 0%Z ]]);
                ("ai_tool", [[ mkConn "Save" "ai_tool" 1%Z ]]) ]) ].

(** A tool wired to a step that is not an agent, at index 3, and a step of
    a deprecated kind that emits an [ai_tool] edge. *)
Definition misusedTools : Workflow :=
  mkWorkflow (Some "Tools")
    [ step "1" "Start" "n8n-nodes-base.manualTrigger" 100 250 [];
      step "2" "Fetch" "n8n-nodes-base.code" 300 250 [];
      step "3" "Calculator" "@n8n/n8n-nodes-langchain.toolCalculator" 300 450 [];
      step "4" "Legacy" "@n8n/n8n-nodes-langchain.openAi" 500 450 [] ]
    (Some [ ("Start", mainTo "Fetch");
            ("Calculator",
             [ ("ai_tool", [[ mkConn "Fetch" "ai_tool" 3%Z; mkEdge "Start" "ai_tool" None ]]) ]);
            ("Legacy", toolTo "Fetch" 0) ]).

(** An agent with its model and memory, and two steps that nothing is
    connected to. *)
Definition agentWithOrphans : Workflow :=
  mkWorkflow (Some "Agent")
    [ step "1" "Start" "n8n-nodes-base.manualTrigger" 100 250 [];
      step "2" "AI Agent" "@n8n/n8n-nodes-langchain.agent" 300 250 [];
      step "3" "OpenAI Chat Model" "@n8n/n8n-nodes-langchain.lmChatOpenAi" 100 550
        [ ("options", JObj []) ];
      step "4" "Chat Memory" "@n8n/n8n-nodes-langchain.memoryBufferWindow" 500 550 [];
      step "5" "Log A" "n8n-nodes-base.set" 500 250 [];
      step "6" "Log B" "n8n-nodes-base.set" 700 250 [] ]
    (Some [ ("Start", mainTo "AI Agent");
            ("OpenAI Chat Model",
             [ ("ai_languageModel", [[ mkConn "AI Agent" "ai_languageModel" 0%Z ]]) ]);
            ("Chat Memory", [ ("ai_memory", [[ mkConn "AI Agent" "ai_memory" 0%Z ]]) ]) ]).

End Scenario.

(** * Predicates

    The predicates on steps, adjacency structures and inputs that the
    statements of the last part use. *)

(** What the second pass leaves of a step: a name, a kind with a dot, an
    identifier, a position of two coordinates and a parameter bag without
    an empty string at its top level. *)
Definition repaired (n : Node) : Prop :=
  falsy (n_name n) = false
  /\ falsy (n_type n) = false
  /\ Str.includes (ty n) "." = true
  /\ falsy (n_id n) = false
  /\ (exists x y, n_position n = Some [x; y])
  /\ match n_parameters n with
     | Some (JObj ps) => Forall (fun kv => isEmptyString (snd kv) = false) ps
     | Some (JArr l) => Forall (fun v => isEmptyString v = false) l
     | _ => False
     end.

(** An edge from a step of [w] that satisfies [kind] to [target] through [port]. *)
Definition supplied (w : Workflow) (kind : string -> bool) (port target : string) : Prop :=
  exists n sourceName ps outs c,
    In n (w_nodes w) /\ n_name n = Some sourceName /\ kind (ty n) = true
    /\ In (sourceName, ps) (conns_of w)
    /\ Dict.get port ps = Some outs
    /\ In c (concat outs) /\ c_node c = target.

(** Both ends of every edge name a step. *)
Definition wellReferenced (nodes : list Node) (cs : Connections) : Prop :=
  Forall (fun kv => hasName nodes (fst kv) = true
                    /\ Forall (fun c => hasName nodes (c_node c) = true) (conns_in (snd kv)))
         cs.

(** The step is a sticky note, or its name is the source or the target of
    an edge. *)
Definition attached (cs : Connections) (n : Node) : Prop :=
  ty n = "n8n-nodes-base.stickyNote"
  \/ exists s, n_name n = Some s
               /\ (In s (map fst cs)
                   \/ In s (map c_node (flat_map (fun kv => conns_in (snd kv)) cs))).

(** A step that passes step 0 of [validateWorkflow]: an object with a
    name, a kind and a position, whose parameters, when present, are an
    object. *)
Definition complete (o : option Node) : bool :=
  match o with
  | Some node =>
      negb (falsy (n_name node)) && negb (falsy (n_type node))
      && match n_position node with Some _ => true | None => false end
      && match n_parameters node with Some p => typeof_object p | None => true end
  | None => false
  end.

(** The inputs that reach the checks: an object whose [nodes] array is
    not empty and holds complete steps only. *)
Definition acceptable (workflowJson : Input) : bool :=
  match workflowJson with
  | InObject raw =>
      match r_nodes raw with
      | Some (node :: rest) => forallb complete (node :: rest)
      | _ => false
      end
  | InPrimitive => false
  end.

(** Every port of the adjacency structure has at least one output slot. *)
Definition slotted (cs : Connections) : Prop :=
  Forall (fun kv => Forall (fun pk => snd pk <> []) (snd kv)) cs.

(** The shape the passes keep: the number of steps and slotted ports. *)
Definition shaped (name : option string) (n : nat) (w : Workflow) : Prop :=
  w_name w = name /\ length (w_nodes w) = n /\ slotted (conns_of w).

(** [node'] is [node], possibly at another position. *)
Definition moved (node node' : Node) : Prop :=
  node' = node \/ exists x y, node' = set_position [x; y] node.

(** The step is the source of a port or the target of an edge. *)
Definition connected (cs : Connections) (node : Node) : Prop :=
  (exists ps, Dict.get (nm node) cs = Some ps /\ nonEmpty ps = true)
  \/ exists e, In e (edges cs) /\ c_node (snd e) = nm node.

(** Nothing is lost from [cs] to [cs']: no edge and no source with a port. *)
Definition grows (cs cs' : Connections) : Prop :=
  incl (edges cs) (edges cs')
  /\ forall k ps, Dict.get k cs = Some ps -> nonEmpty ps = true ->
                  exists ps', Dict.get k cs' = Some ps' /\ nonEmpty ps' = true.

(** The order of the four grades. *)
Definition grade (c : Analyzer.Complexity) : nat :=
  match c with
  | Analyzer.Low => 0
  | Analyzer.Medium => 1
  | Analyzer.High => 2
  | Analyzer.VeryHigh => 3
  end.

(** Every edge leads to a step of higher rank, and no target is ranked
    above [N]: a ranking of this kind rules out cycles. *)
Definition ranked (rank : string -> nat) (N : nat) (cs : Connections) : bool :=
  forallb
    (fun kv =>
       forallb (fun c => (rank (fst kv) <? rank (c_node c))%nat && (rank (c_node c) <=? N)%nat)
               (conns_in (snd kv)))
    cs.

(** The target of every edge, with repetitions. *)
Definition targets (cs : Connections) : list string :=
  flat_map (fun kv => map c_node (conns_in (snd kv))) cs.

(** How far the depths recorded for [names] are from [N], in total. *)
Definition slack (N : nat) (ds : Dict.t Z) (names : list string) : nat :=
  sum_nat (map (fun v => Z.to_nat (Z.of_nat N - default 0%Z (Dict.get v ds))) names).

(** What bounds the rounds left to [depthLoop]: each round takes a name
    off the work-list, and each name put on it raises a recorded depth. *)
Definition measure (N : nat) (cs : Connections) (st : Analyzer.DepthState) : nat :=
  2 * slack N (Analyzer.depths st) (targets cs) + length (Analyzer.queue st).

(** No recorded depth exceeds the rank of its step, and the running
    maximum stays within [N]. *)
Definition bounded (rank : string -> nat) (N : nat) (st : Analyzer.DepthState) : Prop :=
  (forall v, 0 <= default 0 (Dict.get v (Analyzer.depths st)) <= Z.of_nat (rank v))%Z
  /\ (0 <= Analyzer.maxDepth st <= Z.of_nat N)%Z.

(** An edge that [autoConnect] draws: through [main] at index 0, from a
    step of [nodes] to a step of [nodes] that is not a trigger. *)
Definition drawn (nodes : list Node) (e : string * string * Conn) : Prop :=
  exists a b,
    In a nodes /\ In b nodes /\ isTriggerNode (ty b) = false
    /\ e = (nm a, "main", mkConn (nm b) "main" 0%Z).

(** As in a JavaScript object, no source and no port occurs twice. *)
Definition keyed (cs : Connections) : Prop :=
  List.NoDup (map fst cs) /\ Forall (fun kv => List.NoDup (map fst (snd kv))) cs.

(** [source] has an [ai_tool] edge to [target]. *)
Definition toolEdge (cs : Connections) (source target : string) : Prop :=
  exists ps outs c,
    Dict.get source cs = Some ps /\ Dict.get "ai_tool" ps = Some outs
    /\ In c (concat outs) /\ c_node c = target.

(** The name is that of a step whose kind satisfies [kind]. *)
Definition ofKind (types : Dict.t string) (kind : string -> bool) (name : string) : Prop :=
  exists t, Dict.get name types = Some t /\ kind t = true.

(** An [ai_tool] edge from an agent-kind step to a tool-kind step. *)
Definition backwardsEdge (types : Dict.t string) (cs : Connections) (a t : string) : Prop :=
  toolEdge cs a t /\ ofKind types isAgentNode a /\ ofKind types isToolNode t.

(** Every reference held by a document of the store leads to an object of
    the store. *)
Definition closed (h : Heap.heap) : bool :=
  let present (field : option Heap.loc) :=
    match field with
    | Some l => bool_decide (is_Some (h !! l))
    | None => true
    end in
  forallb
    (fun lo : Heap.loc * Heap.Obj =>
       match snd lo with
       | Heap.ODoc _ nodes connections => present nodes && present connections
       | _ => true
       end)
    (map_to_list h).

(** The objects of the document behind [l] are objects of [h] that [h0]
    does not have, and the document has its array of steps. *)
Definition owns (h0 h : Heap.heap) (l : Heap.loc) : Prop :=
  h0 ⊆ h
  /\ exists name ln cn elements,
       h !! l = Some (Heap.ODoc name (Some ln) cn)
       /\ h !! ln = Some (Heap.ONodes elements)
       /\ h0 !! l = None /\ h0 !! ln = None
       /\ match cn with
          | Some lc => (exists cs, h !! lc = Some (Heap.OConns cs)) /\ h0 !! lc = None
          | None => True
          end.

(** The step has a name, and the name is not one that every JavaScript
    object inherits. *)
Definition plainlyNamed (n : Node) : Prop :=
  n_name n <> None /\ inherited (nm n) = false.

(** Inputs used as instances of the statements below. *)
Module Sample.

(** [Scenario.agentWithOrphans] with a tool step named [constructor] that
    nothing is connected to, in place of the two orphans. *)
Definition inheritedName : Workflow :=
  mkWorkflow (Some "Agent")
    [ Scenario.step "1" "Start" "n8n-nodes-base.manualTrigger" 100 250 [];
      Scenario.step "2" "AI Agent" "@n8n/n8n-nodes-langchain.agent" 300 250 [];
      Scenario.step "3" "constructor" "@n8n/n8n-nodes-langchain.toolCalculator" 300 450 [] ]
    (Some [ ("Start", Scenario.mainTo "AI Agent") ]).

(** The agent step of [Scenario.agentWithOrphans]. *)
Definition agent : Node :=
  Scenario.step "2" "AI Agent" "@n8n/n8n-nodes-langchain.agent" 300 250 [].

(** A document whose only step was cut off after its kind. *)
Definition truncated : RawWorkflow :=
  mkRaw (Some "Draft")
    (Some [ Some (mkNode None (Some "Fetch") (Some "n8n-nodes-base.httpRequest")
                         None None None None) ])
    None.

(** The steps of [Scenario.collision] without any connection. *)
Definition unlinked : Workflow :=
  mkWorkflow (Some "Unlinked") (w_nodes Scenario.collision) (Some []).

(** An agent whose [ai_tool] edge leads to its tool. *)
Definition backwards : Workflow :=
  mkWorkflow (Some "Backwards")
    [ Scenario.step "1" "AI Agent" "@n8n/n8n-nodes-langchain.agent" 300 250 [];
      Scenario.step "2" "Calculator" "@n8n/n8n-nodes-langchain.toolCalculator" 300 550 [] ]
    (Some [ ("AI Agent", Scenario.toolTo "Calculator" 0) ]).

(** The same with the tool named [constructor]. *)
Definition backwardsInherited : Workflow :=
  mkWorkflow (Some "Backwards")
    [ Scenario.step "1" "AI Agent" "@n8n/n8n-nodes-langchain.agent" 300 250 [];
      Scenario.step "2" "constructor" "@n8n/n8n-nodes-langchain.toolCalculator" 300 550 [] ]
    (Some [ ("AI Agent", Scenario.toolTo "constructor" 0) ]).

(** [Scenario.singleGeneric] in a store: the document, its array of steps
    and its adjacency object. *)
Definition store : Heap.heap :=
  <[ 1%positive := Heap.ODoc (Some "Scenario B") (Some 2%positive) (Some 3%positive) ]>
    (<[ 2%positive :=
          Heap.ONodes [ Some (Scenario.draft "Node1" "n8n-nodes-base.httpRequest" 100 250) ] ]>
       {[ 3%positive := Heap.OConns [] ]}).

(** A ranking of the steps of [Scenario.collision] along its chain. *)
Definition collisionRank (name : string) : nat :=
  if String.eqb name "Start" then 0%nat
  else if String.eqb name "Node1" then 1%nat
  else 2%nat.

End Sample.

(** * Properties *)

(** ** Dictionaries *)

Section DictFacts.
Context {V : Type}.
Implicit Types (o : Dict.t V) (k : string) (v : V).

Lemma get_set_eq k v o : Dict.get k (Dict.set k v o) = Some v.
Proof.
  induction o as [|[k' v'] o IH]; simpl.
  - now rewrite String.eqb_refl.
  - destruct (String.eqb k k') eqn:E; simpl; rewrite E; auto.
Qed.

Lemma get_set_ne k k' v o : k <> k' -> Dict.get k (Dict.set k' v o) = Dict.get k o.
Proof.
  intros Hne. induction o as [|[k2 v2] o IH]; simpl.
  - destruct (String.eqb_spec k k'); congruence.
  - destruct (String.eqb_spec k' k2); simpl.
    + subst. destruct (String.eqb_spec k k2); congruence.
    + destruct (String.eqb_spec k k2); auto.
Qed.

Lemma get_remove_eq k o : Dict.get k (Dict.remove k o) = None.
Proof.
  induction o as [|[k' v'] o IH]; simpl; auto.
  destruct (String.eqb k k') eqn:E; simpl; auto. now rewrite E.
Qed.

Lemma get_remove_ne k k' o : k <> k' -> Dict.get k (Dict.remove k' o) = Dict.get k o.
Proof.
  intros Hne. induction o as [|[k2 v2] o IH]; simpl; auto.
  destruct (String.eqb_spec k' k2); simpl.
  - subst. destruct (String.eqb_spec k k2); congruence.
  - destruct (String.eqb_spec k k2); auto.
Qed.

Lemma has_remove k o : Dict.has k (Dict.remove k o) = false.
Proof. unfold Dict.has. now rewrite get_remove_eq. Qed.

Lemma set_same k v o : Dict.get k o = Some v -> Dict.set k v o = o.
Proof.
  induction o as [|[k' v'] o IH]; simpl; [discriminate|].
  destruct (String.eqb k k') eqn:E.
  - now intros [= ->].
  - intros H. now rewrite IH.
Qed.

Lemma set_set k v v' o : Dict.set k v (Dict.set k v' o) = Dict.set k v o.
Proof.
  induction o as [|[k2 v2] o IH]; simpl.
  - now rewrite String.eqb_refl.
  - destruct (String.eqb k k2) eqn:E; simpl; rewrite E; auto. now rewrite IH.
Qed.

Lemma keys_set_present k v o :
  Dict.has k o = true -> Dict.keys (Dict.set k v o) = Dict.keys o.
Proof.
  unfold Dict.has, Dict.keys.
  induction o as [|[k2 v2] o IH]; simpl; [discriminate|].
  destruct (String.eqb k k2) eqn:E; simpl; auto.
  intros H. now rewrite IH.
Qed.
End DictFacts.

(** ** Lists *)

Lemma lookup_map {A B} (f : A -> B) (l : list A) (i : nat) :
  map f l !! i = option_map f (l !! i).
Proof.
  revert i. induction l as [|a l IH]; intros [|i]; simpl; auto.
Qed.

(** ** The validity flag *)

Lemma scanNodes_exit nodes : forall i errs errs',
  scanNodes i nodes errs = inl errs' -> errs' <> [].
Proof.
  induction nodes as [|[node|] nodes IH]; intros i errs errs'; simpl.
  - discriminate.
  - destruct (match n_parameters node with Some p => negb (typeof_object p) | None => false end).
    + intros [= <-]. now destruct errs.
    + apply IH.
  - intros [= <-]. now destruct errs.
Qed.

Lemma checkedWorkflow_exit workflowJson r :
  checkedWorkflow workflowJson = inl r ->
  exists errs, r = fatal errs /\ errs <> [].
Proof.
  unfold checkedWorkflow. destruct workflowJson as [|raw].
  - intros [= <-]. eexists; split; [reflexivity|discriminate].
  - destruct (r_nodes raw) as [nodes|].
    + destruct (scanNodes 0 nodes []) as [errs|errs] eqn:E.
      * intros [= <-]. exists errs. split; [reflexivity|]. eapply scanNodes_exit; eauto.
      * destruct errs as [|e errs].
        -- destruct nodes; [|discriminate].
           intros [= <-]. eexists; split; [reflexivity|discriminate].
        -- intros [= <-]. eexists; split; [reflexivity|discriminate].
    + intros [= <-]. eexists; split; [reflexivity|discriminate].
Qed.

Lemma nonEmpty_false {A} (l : list A) : negb (nonEmpty l) = true <-> l = [].
Proof. destruct l; simpl; split; congruence. Qed.

(** C10.  In every report of [validateWorkflow] the flag [valid] is set
    exactly when the list of errors is empty: on the immediate exits for
    malformed input, on the exit taken when a repair pass throws, without
    repair and after repair. *)
Theorem validateWorkflow_valid_iff_no_errors (workflowJson : Input) (autofix : bool) :
  valid (validateWorkflow workflowJson autofix) = true
  <-> errors (validateWorkflow workflowJson autofix) = [].
Proof.
  unfold validateWorkflow.
  destruct (checkedWorkflow workflowJson) as [r|[raw workflow]] eqn:E.
  - apply checkedWorkflow_exit in E as (errs & -> & Hne). simpl.
    split; [discriminate|contradiction].
  - destruct (preChecks workflow) as [errs warns].
    destruct autofix.
    + destruct (applyAutoFixes workflow) as [message|fixResult].
      * simpl. split; discriminate.
      * unfold conclude. simpl. apply nonEmpty_false.
    + unfold concludeUnfixed. simpl. apply nonEmpty_false.
Qed.


(** ** Residual errors after repair *)

(** C1, as the code has it.  When the repair made at least one fix, the
    only re-validation is the test for duplicate step names.  If the
    repaired workflow still has duplicate names the report is
    [autofixed: true], [valid: false], and its errors are the errors found
    before the repair followed by the duplicate-name error; otherwise every
    earlier error is dropped and the report is [valid: true]. *)
Theorem validateWorkflow_autofixed_report (workflowJson : Input) :
  autofixed (validateWorkflow workflowJson true) = true ->
  exists raw workflow fixResult,
    checkedWorkflow workflowJson = inr (raw, workflow)
    /\ applyAutoFixes workflow = inr fixResult
    /\ normalized (validateWorkflow workflowJson true) = Some (raw_of (fr_workflow fixResult))
    /\ if hasDuplicateNames (w_nodes (fr_workflow fixResult))
       then valid (validateWorkflow workflowJson true) = false
            /\ errors (validateWorkflow workflowJson true)
               = fst (preChecks workflow)
                 ++ [ "Workflow still contains nodes with duplicate names after auto-fix" ]
       else valid (validateWorkflow workflowJson true) = true
            /\ errors (validateWorkflow workflowJson true) = [].
Proof.
  unfold validateWorkflow.
  destruct (checkedWorkflow workflowJson) as [r|[raw workflow]] eqn:E.
  - apply checkedWorkflow_exit in E as (errs & -> & _). discriminate.
  - destruct (preChecks workflow) as [errs warns] eqn:P.
    destruct (applyAutoFixes workflow) as [message|fixResult] eqn:A; [discriminate|].
    unfold conclude. simpl. intros Hfixed. rewrite Hfixed.
    exists raw, workflow, fixResult.
    split; [reflexivity|]. split; [exact A|]. split; [reflexivity|].
    destruct (hasDuplicateNames (w_nodes (fr_workflow fixResult))); simpl.
    + split; [now destruct errs|]. now rewrite P.
    + split; reflexivity.
Qed.

(** The collision scenario: repaired, still invalid, and the residual
    errors are reported. *)
Lemma validateWorkflow_autofixed_report_collision :
  exists raw workflow fixResult,
    checkedWorkflow (InObject Scenario.nameCollision) = inr (raw, workflow)
    /\ applyAutoFixes workflow = inr fixResult
    /\ normalized (validateWorkflow (InObject Scenario.nameCollision) true)
       = Some (raw_of (fr_workflow fixResult))
    /\ if hasDuplicateNames (w_nodes (fr_workflow fixResult))
       then valid (validateWorkflow (InObject Scenario.nameCollision) true) = false
            /\ errors (validateWorkflow (InObject Scenario.nameCollision) true)
               = fst (preChecks workflow)
                 ++ [ "Workflow still contains nodes with duplicate names after auto-fix" ]
       else valid (validateWorkflow (InObject Scenario.nameCollision) true) = true
            /\ errors (validateWorkflow (InObject Scenario.nameCollision) true) = [].
Proof.
  apply (validateWorkflow_autofixed_report (InObject Scenario.nameCollision)).
  vm_compute. reflexivity.
Defined.

(** What the report of the collision scenario holds. *)
Lemma validateWorkflow_collision_values :
  autofixed (validateWorkflow (InObject Scenario.nameCollision) true) = true
  /\ valid (validateWorkflow (InObject Scenario.nameCollision) true) = false
  /\ errors (validateWorkflow (InObject Scenario.nameCollision) true)
     = [ "Node " +:+ Str.quoted "Node1" +:+ " has generic name - use descriptive names";
         "Workflow still contains nodes with duplicate names after auto-fix" ].
Proof. vm_compute. repeat split. Qed.

(** C1 as stated fails on Scenario B.  Without repair the validator reports
    the hanging step; with repair the step is renamed, it still has no
    edge, and the report is [autofixed: true], [valid: true] with no error. *)
Lemma scenarioB_reported_valid :
  errors (validateWorkflow (InObject Scenario.singleGeneric) false)
  = [ "Node " +:+ Str.quoted "Node1" +:+ " has generic name - use descriptive names";
      "❌ HANGING NODE: " +:+ Str.quoted "Node1" +:+ " is not connected to workflow. "
      +:+ "Every node must have at least one connection." ]
  /\ autofixed (validateWorkflow (InObject Scenario.singleGeneric) true) = true
  /\ valid (validateWorkflow (InObject Scenario.singleGeneric) true) = true
  /\ errors (validateWorkflow (InObject Scenario.singleGeneric) true) = []
  /\ option_map r_connections (normalized (validateWorkflow (InObject Scenario.singleGeneric) true))
     = Some (Some []).
Proof. vm_compute. repeat split. Qed.

(** ** Renaming and the edges *)

(** C2 at the failing input.  The second pass of [applyAutoFixes] renames
    both steps and leaves the adjacency structure as it was; the edge,
    still keyed by the old name, is then removed as coming from a source
    that does not exist.  [ensureDescriptiveNames], run on the same
    workflow, rewrites both ends and keeps the edge. *)
Theorem applyAutoFixes_rename_drops_edge :
  edges (conns_of Scenario.genericPair) = [ ("Node1", "main", mkConn "Node2" "main" 0%Z) ]
  /\ (exists r,
        applyAutoFixes Scenario.genericPair = inr r
        /\ map n_name (w_nodes (fr_workflow r)) = [ Some "Manual Trigger"; Some "HTTP Request" ]
        /\ edges (conns_of (fr_workflow r)) = []
        /\ In ("✅ Removed connections from non-existent source " +:+ Str.quoted "Node1")
              (fr_fixes r))
  /\ edges (conns_of (fst (ensureDescriptiveNames Scenario.genericPair)))
     = [ ("Manual Trigger", "main", mkConn "HTTP Request" "main" 0%Z) ].
Proof.
  split; [reflexivity|]. split; [|vm_compute; reflexivity].
  eexists. split; [vm_compute; reflexivity|].
  vm_compute. repeat split. tauto.
Qed.

(** ** Depth of a cyclic workflow *)



(** Depths stay in the range on which [plusOne] is the sum of doubles. *)
Lemma plusOne_range (d : Z) :
  (0 <= d <= Analyzer.MAX_SAFE_INTEGER + 1)%Z ->
  (d <= Analyzer.plusOne d <= Analyzer.MAX_SAFE_INTEGER + 1)%Z.
Proof.
  intros H. unfold Analyzer.plusOne.
  destruct (Z.leb_spec d Analyzer.MAX_SAFE_INTEGER); lia.
Qed.








(** The same computation on the workflow without the edge that closes the
    cycle returns the length of the chain. *)
Lemma calculateWorkflowDepth_chain :
  Analyzer.calculateWorkflowDepth 4
    (mkWorkflow (Some "Chain") (w_nodes Scenario.loopWorkflow)
       (Some [ ("Start", Scenario.mainTo "Loop"); ("Loop", Scenario.mainTo "Process") ]))
  = Some (inr 2%Z).
Proof. reflexivity. Qed.


(** ** Over-fanout *)

Lemma pruneSource_key nodes kv : fst (fst (pruneSource nodes kv)) = fst kv.
Proof.
  unfold pruneSource.
  destruct (Dict.get "main" (snd kv)) as [[|[|c1 [|c2 more]] rest]|]; try reflexivity.
  now destruct (isConditionalNode nodes (fst kv)).
Qed.

Lemma pruneSource_ports nodes src ps :
  let ps' := snd (fst (pruneSource nodes (src, ps))) in
  (forall port, port <> "main" -> Dict.get port ps' = Dict.get port ps)
  /\ match Dict.get "main" ps with
     | Some (slot0 :: rest) =>
         Dict.get "main" ps'
         = Some ((if isConditionalNode nodes src then slot0 else firstn 1 slot0) :: rest)
         /\ (isConditionalNode nodes src = true \/ length slot0 <= 1 -> ps' = ps)
     | _ => ps' = ps
     end.
Proof.
  unfold pruneSource. simpl.
  destruct (Dict.get "main" ps) as [[|[|c1 [|c2 more]] rest]|] eqn:E; simpl;
    try (split; [reflexivity|]); try reflexivity.
  - split; [now destruct (isConditionalNode nodes src)|reflexivity].
  - split; [now destruct (isConditionalNode nodes src)|reflexivity].
  - destruct (isConditionalNode nodes src) eqn:C; simpl.
    + split; [reflexivity|]. rewrite E. split; [reflexivity|]. reflexivity.
    + split; [intros port Hp; now apply get_set_ne|].
      rewrite get_set_eq. split; [reflexivity|].
      intros [H|H]; [discriminate|simpl in H; lia].
Qed.

(** C6, as the code has it.  For every source of the adjacency structure
    the pass looks at output slot 0 of the [main] port only: unless the
    source is an IF or Switch step, slot 0 keeps its first-declared edge
    and loses the others.  Every other slot, every other port and every
    step are left as they were, and sources are neither added nor removed.
    On Scenario D the pass removes the edge from step 3 to step 7 and
    keeps the edge to step 4. *)
Theorem removeOverlinking_prunes_slot_zero (w : Workflow) (cs : Connections) :
  w_connections w = Some cs ->
  exists cs',
    w_connections (fst (removeOverlinking w)) = Some cs'
    /\ w_nodes (fst (removeOverlinking w)) = w_nodes w
    /\ map fst cs' = map fst cs
    /\ (forall i src ps ps',
          cs !! i = Some (src, ps) -> cs' !! i = Some (src, ps') ->
          (forall port, port <> "main" -> Dict.get port ps' = Dict.get port ps)
          /\ match Dict.get "main" ps with
             | Some (slot0 :: rest) =>
                 Dict.get "main" ps'
                 = Some ((if isConditionalNode (w_nodes w) src then slot0 else firstn 1 slot0)
                         :: rest)
                 /\ (isConditionalNode (w_nodes w) src = true \/ length slot0 <= 1 -> ps' = ps)
             | _ => ps' = ps
             end)
    /\ removeOverlinking Scenario.fanoutChain
       = (set_connections
            (Dict.set "Step 3" (Scenario.mainTo "Step 4") (conns_of Scenario.fanoutChain))
            Scenario.fanoutChain,
          (1%nat, [ overlinkFix "Step 3" (mkConn "Step 4" "main" 0%Z) (mkConn "Step 7" "main" 0%Z) ])).
Proof.
  intros Hcs. unfold removeOverlinking. rewrite Hcs. simpl.
  eexists. split; [reflexivity|]. split; [reflexivity|].
  split.
  { rewrite !map_map. apply map_ext. intros kv. apply pruneSource_key. }
  split; [|vm_compute; reflexivity].
  intros i src ps ps' Hi Hi'.
  rewrite map_map in Hi'.
  rewrite lookup_map, Hi in Hi'. simpl in Hi'.
  injection Hi' as Hi'.
  pose proof (pruneSource_ports (w_nodes w) src ps) as H. simpl in H.
  rewrite (surjective_pairing (fst (pruneSource (w_nodes w) (src, ps)))) in Hi'.
  injection Hi' as _ Hps. rewrite Hps in H. exact H.
Qed.

(** Scenario D as an instance: sources and steps stay, and only slot 0 of
    [main] may change. *)
Lemma removeOverlinking_prunes_slot_zero_scenarioD :
  exists cs',
    w_connections (fst (removeOverlinking Scenario.fanoutChain)) = Some cs'
    /\ w_nodes (fst (removeOverlinking Scenario.fanoutChain)) = w_nodes Scenario.fanoutChain
    /\ map fst cs' = map fst (conns_of Scenario.fanoutChain)
    /\ (forall i src ps ps',
          conns_of Scenario.fanoutChain !! i = Some (src, ps) -> cs' !! i = Some (src, ps') ->
          (forall port, port <> "main" -> Dict.get port ps' = Dict.get port ps)
          /\ match Dict.get "main" ps with
             | Some (slot0 :: rest) =>
                 Dict.get "main" ps'
                 = Some ((if isConditionalNode (w_nodes Scenario.fanoutChain) src
                          then slot0 else firstn 1 slot0) :: rest)
                 /\ (isConditionalNode (w_nodes Scenario.fanoutChain) src = true
                     \/ length slot0 <= 1 -> ps' = ps)
             | _ => ps' = ps
             end)
    /\ removeOverlinking Scenario.fanoutChain
       = (set_connections
            (Dict.set "Step 3" (Scenario.mainTo "Step 4") (conns_of Scenario.fanoutChain))
            Scenario.fanoutChain,
          (1%nat, [ overlinkFix "Step 3" (mkConn "Step 4" "main" 0%Z) (mkConn "Step 7" "main" 0%Z) ])).
Proof.
  apply (removeOverlinking_prunes_slot_zero Scenario.fanoutChain (conns_of Scenario.fanoutChain)).
  reflexivity.
Defined.

(** C6 as stated fails on a second output slot: [Batch] is not a router
    kind and its slot 1 holds two edges; the pass changes nothing. *)
Lemma removeOverlinking_keeps_second_slot :
  isConditionalNode (w_nodes Scenario.secondSlotFanout) "Batch" = false
  /\ option_map (Dict.get "main") (Dict.get "Batch" (conns_of Scenario.secondSlotFanout))
     = Some (Some [ [ mkConn "Done" "main" 0%Z ];
                    [ mkConn "Work" "main" 0%Z; mkConn "Log" "main" 0%Z ] ])
  /\ removeOverlinking Scenario.secondSlotFanout = (Scenario.secondSlotFanout, (0%nat, [])).
Proof. vm_compute. repeat split. Qed.


(** ** Hard-coded model names *)

Lemma stripKey_get key ps :
  (forall k, Dict.get k (fst (stripKey key ps))
             = if String.eqb k key && hardcodedAt key ps then None else Dict.get k ps)
  /\ snd (stripKey key ps) = hardcodedAt key ps.
Proof.
  unfold stripKey, hardcodedAt.
  destruct (Dict.get key ps) as [v|] eqn:E; simpl.
  - destruct (isHardcodedModel v); simpl.
    + split; [|reflexivity]. intros k. destruct (String.eqb_spec k key) as [->|Hne]; simpl.
      * apply get_remove_eq.
      * now apply get_remove_ne.
    + split; [|reflexivity]. intros k. now rewrite andb_false_r.
  - split; [|reflexivity]. intros k. now rewrite andb_false_r.
Qed.

Lemma stripKey_same key ps : snd (stripKey key ps) = false -> fst (stripKey key ps) = ps.
Proof.
  unfold stripKey. destruct (Dict.get key ps) as [v|]; [|reflexivity].
  now destruct (isHardcodedModel v).
Qed.

Lemma ensureOptions_get ps :
  (forall k, k <> "options" -> Dict.get k (ensureOptions ps) = Dict.get k ps)
  /\ exists v, Dict.get "options" (ensureOptions ps) = Some v /\ truthy v = true.
Proof.
  unfold ensureOptions.
  destruct (Dict.get "options" ps) as [v|] eqn:E.
  - destruct (truthy v) eqn:T.
    + split; [reflexivity|]. now exists v.
    + split; [intros k Hk; now apply get_set_ne|].
      exists (JObj []). now rewrite get_set_eq.
  - split; [intros k Hk; now apply get_set_ne|].
    exists (JObj []). now rewrite get_set_eq.
Qed.

Lemma set_parameters_same node p :
  n_parameters node = Some p -> set_parameters p node = node.
Proof. destruct node; simpl. now intros ->. Qed.

Lemma stripModelNode_spec (node : Node) :
  match n_parameters node with
  | Some (JObj ps) =>
      if isModelStep node then
        exists ps',
          fst (stripModelNode node) = set_parameters (JObj ps') node
          /\ (forall k, k = "model" \/ k = "modelName" ->
                        Dict.get k ps' = if hardcodedAt k ps then None else Dict.get k ps)
          /\ (forall k, k <> "model" -> k <> "modelName" -> k <> "options" ->
                        Dict.get k ps' = Dict.get k ps)
          /\ (if hardcodedAt "model" ps || hardcodedAt "modelName" ps
              then exists v, Dict.get "options" ps' = Some v /\ truthy v = true
              else ps' = ps)
      else fst (stripModelNode node) = node
  | _ => fst (stripModelNode node) = node
  end.
Proof.
  unfold stripModelNode, isModelStep.
  destruct (falsy (n_type node)); simpl; [now destruct (n_parameters node) as [[]|]|].
  destruct (falsy (n_name node)); simpl; [now destruct (n_parameters node) as [[]|]|].
  destruct (isLanguageModelNode (ty node)); simpl; [|now destruct (n_parameters node) as [[]|]].
  destruct (n_parameters node) as [[| | | | |ps]|] eqn:P; try reflexivity.
  destruct (stripKey_get "model" ps) as [G1 H1].
  destruct (stripKey "model" ps) as [ps1 had1]. simpl in G1, H1.
  destruct (stripKey_get "modelName" ps1) as [G2 H2].
  pose proof (stripKey_same "modelName" ps1) as S2.
  destruct (stripKey "modelName" ps1) as [ps2 had2]. simpl in G2, H2, S2.
  assert (Hname : hardcodedAt "modelName" ps1 = hardcodedAt "modelName" ps).
  { unfold hardcodedAt. now rewrite G1. }
  rewrite Hname in H2.
  assert (Hget : forall k, Dict.get k ps2
                           = if (String.eqb k "model" && hardcodedAt "model" ps)
                                || (String.eqb k "modelName" && hardcodedAt "modelName" ps)
                             then None else Dict.get k ps).
  { intros k. rewrite G2, Hname, G1.
    destruct (String.eqb k "modelName" && hardcodedAt "modelName" ps);
      [now rewrite orb_true_r|now rewrite orb_false_r]. }
  subst had1 had2.
  destruct (hardcodedAt "model" ps || hardcodedAt "modelName" ps) eqn:Had; simpl.
  - destruct (ensureOptions_get ps2) as [Go Ho].
    exists (ensureOptions ps2). split; [reflexivity|]. split; [|split].
    + intros k [->| ->]; rewrite Go by discriminate; rewrite Hget; simpl.
      * now destruct (hardcodedAt "model" ps).
      * now destruct (hardcodedAt "modelName" ps).
    + intros k K1 K2 K3. rewrite Go by exact K3. rewrite Hget.
      destruct (String.eqb_spec k "model"); [contradiction|].
      destruct (String.eqb_spec k "modelName"); [contradiction|]. reflexivity.
    + exact Ho.
  - apply orb_false_elim in Had as [Hm Hn].
    exists ps. split; [symmetry; now apply set_parameters_same|].
    split; [|split; [|reflexivity]].
    + intros k [->| ->]; [rewrite Hm|rewrite Hn]; reflexivity.
    + reflexivity.
Qed.

(** C8, as the code has it.  The pass changes nothing but the parameters of
    the model-kind steps (named, typed, kind containing [lmChat] or
    [ChatModel]) whose parameters are an object.  In such a step it looks
    at the keys [model] and [modelName] only: each of the two is deleted
    when its value is a string that contains a deny-listed model name, case
    ignored; every other key but [options] keeps its value; and after a
    deletion the parameters hold a truthy [options] entry (an empty object
    when there was none). *)
Theorem removeHardcodedModelParameters_strips (w : Workflow) (i : nat) (node : Node) :
  w_nodes w !! i = Some node ->
  exists node',
    w_nodes (fst (removeHardcodedModelParameters w)) !! i = Some node'
    /\ w_connections (fst (removeHardcodedModelParameters w)) = w_connections w
    /\ match n_parameters node with
       | Some (JObj ps) =>
           if isModelStep node then
             exists ps',
               node' = set_parameters (JObj ps') node
               /\ (forall k, k = "model" \/ k = "modelName" ->
                             Dict.get k ps' = if hardcodedAt k ps then None else Dict.get k ps)
               /\ (forall k, k <> "model" -> k <> "modelName" -> k <> "options" ->
                             Dict.get k ps' = Dict.get k ps)
               /\ (if hardcodedAt "model" ps || hardcodedAt "modelName" ps
                   then exists v, Dict.get "options" ps' = Some v /\ truthy v = true
                   else ps' = ps)
           else node' = node
       | _ => node' = node
       end.
Proof.
  intros Hi. unfold removeHardcodedModelParameters. simpl.
  exists (fst (stripModelNode node)).
  split; [|split; [reflexivity|apply stripModelNode_spec]].
  rewrite map_map, lookup_map, Hi. reflexivity.
Qed.

(** The model step of the scenario: [model] goes, [options] appears. *)
Lemma removeHardcodedModelParameters_strips_model :
  exists node',
    w_nodes (fst (removeHardcodedModelParameters Scenario.modelWorkflow)) !! 0%nat = Some node'
    /\ w_connections (fst (removeHardcodedModelParameters Scenario.modelWorkflow))
       = w_connections Scenario.modelWorkflow
    /\ match n_parameters Scenario.modelStep with
       | Some (JObj ps) =>
           if isModelStep Scenario.modelStep then
             exists ps',
               node' = set_parameters (JObj ps') Scenario.modelStep
               /\ (forall k, k = "model" \/ k = "modelName" ->
                             Dict.get k ps' = if hardcodedAt k ps then None else Dict.get k ps)
               /\ (forall k, k <> "model" -> k <> "modelName" -> k <> "options" ->
                             Dict.get k ps' = Dict.get k ps)
               /\ (if hardcodedAt "model" ps || hardcodedAt "modelName" ps
                   then exists v, Dict.get "options" ps' = Some v /\ truthy v = true
                   else ps' = ps)
           else node' = Scenario.modelStep
       | _ => node' = Scenario.modelStep
       end.
Proof.
  apply (removeHardcodedModelParameters_strips Scenario.modelWorkflow 0 Scenario.modelStep).
  reflexivity.
Defined.

(** C8 as stated fails on a key other than [model] and [modelName]: the
    value of [modelId] contains a deny-listed name and the key survives the
    pass, next to the deleted [model]. *)
Lemma removeHardcodedModelParameters_keeps_other_keys :
  isModelStep Scenario.modelStep = true
  /\ isHardcodedModel (JStr "gpt-4") = true
  /\ map n_parameters (w_nodes (fst (removeHardcodedModelParameters Scenario.modelWorkflow)))
     = [ Some (JObj [ ("modelId", JStr "gpt-4"); ("temperature", JNum 1);
                      ("options", JObj []) ]) ].
Proof. vm_compute. repeat split. Qed.


(** ** Duplicate-edge warnings *)

Lemma keys_set_nodup {V} (k : string) (v : V) (o : Dict.t V) :
  List.NoDup (Dict.keys o) -> List.NoDup (Dict.keys (Dict.set k v o)).
Proof.
  unfold Dict.keys. induction o as [|[k' v'] o IH]; simpl; intros H.
  - constructor; [intros []|constructor].
  - inversion H as [|? ? Hnin Hnd]; subst.
    destruct (String.eqb_spec k k') as [->|Hne]; simpl.
    + now constructor.
    + constructor; [|now apply IH].
      intros Hin. apply Hnin.
      clear -Hin Hne. induction o as [|[k2 v2] o IH]; simpl in *.
      * destruct Hin as [->|[]]. contradiction.
      * destruct (String.eqb_spec k k2) as [->|Hne2]; simpl in *; [exact Hin|].
        destruct Hin as [->|Hin]; [now left|right; now apply IH].
Qed.

Lemma in_get_nodup {V} (k : string) (v : V) (o : Dict.t V) :
  List.NoDup (Dict.keys o) -> (In (k, v) o <-> Dict.get k o = Some v).
Proof.
  unfold Dict.keys. induction o as [|[k' v'] o IH]; simpl; intros H.
  - split; [intros []|discriminate].
  - inversion H as [|? ? Hnin Hnd]; subst.
    destruct (String.eqb_spec k k') as [->|Hne].
    + split.
      * intros [[= ->]|Hin]; [reflexivity|].
        exfalso. apply Hnin. apply in_map_iff. now exists (k', v).
      * intros [= ->]. now left.
    + rewrite <- (IH Hnd). split.
      * intros [[= ? ?]|Hin]; [congruence|exact Hin].
      * intros Hin. now right.
Qed.

Lemma connectionPairs_nodup (l : list string) : forall m,
  List.NoDup (Dict.keys m) -> List.NoDup (Dict.keys (fold_left countPair l m)).
Proof.
  induction l as [|a l IH]; intros m H; simpl; [exact H|].
  apply IH. unfold countPair. now apply keys_set_nodup.
Qed.

Lemma occurrences_cons key a l :
  occurrences key (a :: l)
  = ((if String.eqb key a then 1 else 0) + occurrences key l)%nat.
Proof. unfold occurrences. simpl. now destruct (String.eqb key a). Qed.

Lemma connectionPairs_get (l : list string) : forall m key,
  Dict.get key (fold_left countPair l m)
  = if (occurrences key l =? 0)%nat then Dict.get key m
    else Some (default 0%nat (Dict.get key m) + occurrences key l)%nat.
Proof.
  induction l as [|a l IH]; intros m key; [reflexivity|].
  simpl fold_left. rewrite IH, occurrences_cons. unfold countPair.
  destruct (String.eqb_spec key a) as [->|Hne].
  - rewrite get_set_eq. simpl default.
    destruct (occurrences a l) as [|n]; simpl; f_equal; lia.
  - rewrite get_set_ne by exact Hne. reflexivity.
Qed.

Lemma hangingError_prefix node e :
  In e (hangingError node) -> String.prefix "❌" e = true.
Proof.
  unfold hangingError.
  destruct (String.eqb (ty node) "n8n-nodes-base.stickyNote"); [intros []|].
  destruct (isTriggerNode (ty node)); [intros [<-|[]]; reflexivity|].
  destruct (isToolNode (ty node)); [intros [<-|[]]; reflexivity|].
  destruct (isLanguageModelNode (ty node)); [intros [<-|[]]; reflexivity|].
  destruct (isMemoryNode (ty node)); intros [<-|[]]; reflexivity.
Qed.

(** C9, as the code has it.  [validateConnections] counts the edges by
    their source-to-target pair alone, over every port kind, slot and
    index, among the edges whose two ends name a step.  It warns once for
    each pair counted more than once, with the count; these messages go to
    the warnings, and every error of the check is a reference or
    hanging-step error. *)
Theorem validateConnections_warns_per_pair (nodes : list Node) (connections : Connections) :
  (forall msg,
      In msg (snd (validateConnections nodes connections))
      <-> exists key,
            (1 < occurrences key (countedPairs nodes connections))%nat
            /\ msg = duplicateMessage key (occurrences key (countedPairs nodes connections)))
  /\ (forall msg, In msg (snd (validateConnections nodes connections)) ->
                  String.prefix "Duplicate connection detected" msg = true)
  /\ (forall e, In e (fst (validateConnections nodes connections)) ->
                String.prefix "❌" e = true).
Proof.
  unfold validateConnections. simpl.
  assert (Hnd : List.NoDup (Dict.keys (connectionPairs nodes connections))).
  { apply connectionPairs_nodup. constructor. }
  assert (Hget : forall key n,
             In (key, n) (connectionPairs nodes connections)
             <-> (occurrences key (countedPairs nodes connections) <> 0
                  /\ n = occurrences key (countedPairs nodes connections))%nat).
  { intros key n. rewrite (in_get_nodup key n _ Hnd).
    unfold connectionPairs. rewrite connectionPairs_get. simpl.
    destruct (Nat.eqb_spec (occurrences key (countedPairs nodes connections)) 0) as [E|E].
    - split; [discriminate|intros [H _]; contradiction].
    - split; [intros [= <-]; now split|intros [_ ->]; reflexivity]. }
  split; [|split].
  - intros msg. rewrite in_flat_map. split.
    + intros [[key n] [Hin Hmsg]]. unfold duplicateWarning in Hmsg. simpl in Hmsg.
      destruct (Nat.ltb_spec 1 n) as [Hn|Hn]; [|destruct Hmsg].
      destruct Hmsg as [<-|[]]. apply Hget in Hin as [_ ->].
      exists key. now split.
    + intros [key [Hocc ->]].
      exists (key, occurrences key (countedPairs nodes connections)). split.
      * apply Hget. split; [lia|reflexivity].
      * unfold duplicateWarning. simpl.
        destruct (Nat.ltb_spec 1 (occurrences key (countedPairs nodes connections)));
          [now left|lia].
  - intros msg. rewrite in_flat_map. intros [[key n] [_ Hmsg]].
    unfold duplicateWarning in Hmsg.
    destruct (1 <? snd (key, n))%nat; [|destruct Hmsg].
    destruct Hmsg as [<-|[]]. reflexivity.
  - intros e. rewrite in_app_iff, !in_flat_map. intros [[kv [_ He]]|[node [_ He]]].
    + destruct (hasName nodes (fst kv)).
      * apply in_flat_map in He as [c [_ He]].
        destruct (hasName nodes (c_node c)); [destruct He|].
        destruct He as [<-|[]]. reflexivity.
      * destruct He as [<-|[]]. reflexivity.
    + eapply hangingError_prefix; eauto.
Qed.

(** C9 as stated fails on two edges between the same steps that differ in
    port kind and in index: the validator warns, and the duplicate filter
    of the repair pipeline keeps both edges. *)
Lemma validateConnections_warns_across_ports :
  map snd (edges Scenario.twiceLinked)
  = [ mkConn "Save" "main" 0%Z; mkConn "Save" "ai_tool" 1%Z ]
  /\ validateConnections Scenario.twiceLinkedNodes Scenario.twiceLinked
     = ([], [ "Duplicate connection detected: " +:+ Str.quoted "Fetch" +:+ " is linked to "
              +:+ Str.quoted "Save" +:+ " 2 times" ])
  /\ cleanPorts Scenario.twiceLinkedNodes "Fetch"
       (default [] (Dict.get "Fetch" Scenario.twiceLinked))
     = (default [] (Dict.get "Fetch" Scenario.twiceLinked), []).
Proof. vm_compute. repeat split. Qed.


(** ** Tool edges after repair *)

(** The record has index 0 or no index. *)
Definition zeroOrMissing (c : Conn) : Prop :=
  c_index c = Some 0%Z \/ c_index c = None.

(** No edge under the [ai_tool] port has an index other than 0. *)
Definition portsZero (ps : Ports) : Prop :=
  forall outs, Dict.get "ai_tool" ps = Some outs -> Forall zeroOrMissing (concat outs).

Definition connsZero (cs : Connections) : Prop :=
  Forall (fun kv => portsZero (snd kv)) cs.

Lemma get_in {V} (k : string) (v : V) (o : Dict.t V) :
  Dict.get k o = Some v -> In (k, v) o.
Proof.
  induction o as [|[k' v'] o IH]; simpl; [discriminate|].
  destruct (String.eqb_spec k k') as [->|Hne].
  - intros [= ->]. now left.
  - intros H. right. now apply IH.
Qed.

Lemma connsZero_set (k : string) (ps : Ports) (cs : Connections) :
  connsZero cs -> portsZero ps -> connsZero (Dict.set k ps cs).
Proof.
  unfold connsZero. intros Hcs Hps.
  induction cs as [|[k' ps'] cs IH]; simpl.
  - constructor; [exact Hps|constructor].
  - inversion Hcs as [|? ? H1 H2]; subst.
    destruct (String.eqb k k'); constructor; auto.
Qed.

Lemma connsZero_get (k : string) (ps : Ports) (cs : Connections) :
  connsZero cs -> Dict.get k cs = Some ps -> portsZero ps.
Proof.
  unfold connsZero. intros Hcs Hget. apply get_in in Hget.
  rewrite List.Forall_forall in Hcs. exact (Hcs _ Hget).
Qed.

Lemma portsZero_nil : portsZero [].
Proof. intros outs. discriminate. Qed.

Lemma portsZero_set_other (port : string) (outs : Outputs) (ps : Ports) :
  port <> "ai_tool" -> portsZero ps -> portsZero (Dict.set port outs ps).
Proof.
  intros Hne Hps outs'. rewrite get_set_ne by congruence. apply Hps.
Qed.

Lemma portsZero_set_tool (outs : Outputs) (ps : Ports) :
  Forall zeroOrMissing (concat outs) ->
  portsZero (Dict.set "ai_tool" outs ps).
Proof. intros H outs'. rewrite get_set_eq. now intros [= <-]. Qed.

Lemma normalizePorts_zero (kv : string * Ports) :
  portsZero (snd (fst (normalizePorts kv))).
Proof.
  unfold normalizePorts.
  destruct (Dict.get "ai_tool" (snd kv)) as [outs|] eqn:E; simpl.
  - apply portsZero_set_tool.
    apply List.Forall_forall. intros c Hc.
    apply in_concat in Hc as [slot [Hslot Hc]].
    apply in_map_iff in Hslot as [slot0 [<- _]].
    apply in_map_iff in Hc as [c0 [<- _]]. unfold zeroIndex, zeroOrMissing.
    destruct (c_index c0) eqn:I; simpl; auto.
  - intros outs. rewrite E. discriminate.
Qed.

Lemma normalizeAIToolIndexes_zero (w : Workflow) :
  connsZero (conns_of (fst (normalizeAIToolIndexes w))).
Proof.
  unfold normalizeAIToolIndexes, conns_of.
  destruct (w_connections w) as [cs|] eqn:E; simpl.
  - unfold connsZero. rewrite map_map. apply List.Forall_forall.
    intros kv Hin. apply in_map_iff in Hin as [kv0 [<- _]]. apply normalizePorts_zero.
  - rewrite E. constructor.
Qed.

Lemma removeOverlinking_zero (w : Workflow) :
  connsZero (conns_of w) -> connsZero (conns_of (fst (removeOverlinking w))).
Proof.
  unfold removeOverlinking, conns_of.
  destruct (w_connections w) as [cs|] eqn:E; simpl; [|now rewrite E].
  unfold connsZero. rewrite map_map, !List.Forall_forall.
  intros H kv Hin. apply in_map_iff in Hin as [[src ps] [<- Hin]].
  destruct (pruneSource_ports (w_nodes w) src ps) as [Hports _].
  intros outs. rewrite Hports by discriminate. exact (H _ Hin outs).
Qed.

Lemma pushEdge_zero (source : string) (c : Conn) (cs cs' : Connections) :
  connsZero cs -> pushEdge source "main" c cs = inr cs' -> connsZero cs'.
Proof.
  unfold pushEdge. intros Hcs.
  destruct (builtin cs source); [now intros [= <-]|].
  set (cs1 := match Dict.get source cs with None => Dict.set source [] cs | Some _ => cs end).
  assert (H1 : connsZero cs1).
  { unfold cs1. destruct (Dict.get source cs); [exact Hcs|].
    apply connsZero_set; [exact Hcs|apply portsZero_nil]. }
  set (ps := default [] (Dict.get source cs1)).
  assert (Hps : portsZero ps).
  { unfold ps. destruct (Dict.get source cs1) as [ps0|] eqn:E; simpl.
    - eapply connsZero_get; eauto.
    - apply portsZero_nil. }
  set (ps1 := match Dict.get "main" ps with None => Dict.set "main" [[]] ps | Some _ => ps end).
  assert (Hps1 : portsZero ps1).
  { unfold ps1. destruct (Dict.get "main" ps); [exact Hps|].
    apply portsZero_set_other; [discriminate|exact Hps]. }
  destruct (default [] (Dict.get "main" ps1)) as [|slot0 rest]; [discriminate|].
  intros [= <-]. apply connsZero_set; [exact H1|].
  apply portsZero_set_other; [discriminate|exact Hps1].
Qed.

Lemma reconnect_zero nodes incoming st node st' :
  connsZero (fst st) -> reconnect nodes incoming st node = inr st' -> connsZero (fst st').
Proof.
  unfold reconnect. destruct st as [cs fs]. simpl. intros Hcs.
  destruct (_ || _); [now intros [= <-]|].
  destruct (isAIAgentNode (ty node)); [now intros [= <-]|].
  destruct (toolCapable (ty node)).
  - destruct (List.filter _ nodes) as [|nearestAgent agents]; [now intros [= <-]|].
    destruct (builtin cs (nm node)); [now intros [= <-]|].
    intros [= <-]. simpl. apply connsZero_set; [exact Hcs|].
    apply portsZero_set_tool. simpl. constructor; [now left|constructor].
  - destruct (List.filter _ nodes) as [|agent agents].
    + destruct (find _ nodes) as [targetNode|]; [|now intros [= <-]].
      destruct (pushEdge _ _ _ cs) as [e|cs'] eqn:P; [discriminate|].
      intros [= <-]. simpl. eapply pushEdge_zero; eauto.
    + destruct (pushEdge _ _ _ cs) as [e|cs'] eqn:P; [discriminate|].
      intros [= <-]. simpl. eapply pushEdge_zero; eauto.
Qed.

Lemma foldExc_invariant {S B} (P : S -> Prop) (f : S -> B -> Exc S) (l : list B) :
  (forall s b s', P s -> f s b = inr s' -> P s') ->
  forall s s', P s -> foldExc f l s = inr s' -> P s'.
Proof.
  intros Hf. induction l as [|b l IH]; simpl; intros s s' Hs.
  - now intros [= <-].
  - destruct (f s b) as [e|s1] eqn:E; simpl; [discriminate|].
    apply IH. eapply Hf; eauto.
Qed.

Lemma rebuildOrphanedConnections_zero (w w' : Workflow) (out : nat * list string) :
  connsZero (conns_of w) -> rebuildOrphanedConnections w = inr (w', out) ->
  connsZero (conns_of w').
Proof.
  unfold rebuildOrphanedConnections. intros Hcs.
  destruct (foldExc _ (w_nodes w) _) as [e|r] eqn:F; simpl; [discriminate|].
  intros [= <- _]. simpl.
  eapply (foldExc_invariant (fun st => connsZero (fst st))) in F; eauto.
  intros s b s'. apply reconnect_zero.
Qed.

Ltac unwind_lets :=
  repeat match goal with
         | |- context [let '(_, _) := ?x in _] => destruct x as [? ?] eqn:?
         end.

(** The last three passes of the pipeline, run on the workflow that
    [ensureDescriptiveNames] returns. *)
Lemma applyAutoFixes_tail (w : Workflow) (r : FixResult) :
  applyAutoFixes w = inr r ->
  exists w12 out,
    (if existsb (fun n => isAIAgentNode (ty n))
          (w_nodes (fst (removeOverlinking (fst (normalizeAIToolIndexes w12)))))
     then rebuildOrphanedConnections (fst (removeOverlinking (fst (normalizeAIToolIndexes w12))))
     else ret (fst (removeOverlinking (fst (normalizeAIToolIndexes w12))), (0%nat, [])))
    = inr (fr_workflow r, out).
Proof.
  unfold applyAutoFixes. unwind_lets.
  destruct (fixBackwardsToolConnections _) as [e|[w10 [fixed4 d4]]]; simpl; [discriminate|].
  unwind_lets.
  match goal with
  | |- context [bind ?m _] => destruct m as [e|[w15 [fixed10 d10]]] eqn:R
  end; simpl; [discriminate|].
  intros [= <-]. simpl.
  match goal with
  | H1 : normalizeAIToolIndexes ?a = (?b, _), H2 : removeOverlinking ?b = (?c, _) |- _ =>
      exists a, (fixed10, d10); rewrite H1; simpl; rewrite H2; simpl; exact R
  end.
Qed.

(** C4, as the code has it.  When the repair pipeline completes, every
    record kept under an [ai_tool] port that has an index has index 0; a
    record without an index is given none.  (The kind of the target is
    checked by no pass, and the kind of the source only by the pass that
    strips misused tool edges, before steps are retyped and renamed.) *)
Theorem applyAutoFixes_tool_index_zero
    (w : Workflow) (r : FixResult) (src : string) (c : Conn) (index : Z) :
  applyAutoFixes w = inr r ->
  In (src, c) (toolEdges (conns_of (fr_workflow r))) ->
  c_index c = Some index ->
  index = 0%Z.
Proof.
  intros Hr Hin Hindex.
  destruct (applyAutoFixes_tail w r Hr) as (w12 & out & Htail).
  assert (Hzero : connsZero (conns_of (fr_workflow r))).
  { pose proof (removeOverlinking_zero _ (normalizeAIToolIndexes_zero w12)) as H14.
    destruct (existsb _ _).
    - eapply rebuildOrphanedConnections_zero; eauto.
    - injection Htail as <- _. exact H14. }
  unfold toolEdges in Hin. apply in_flat_map in Hin as [kv [Hkv Hin]].
  unfold connsZero in Hzero. rewrite List.Forall_forall in Hzero.
  specialize (Hzero kv Hkv).
  destruct (Dict.get "ai_tool" (snd kv)) as [outs|] eqn:E; [|destruct Hin].
  apply in_map_iff in Hin as [c0 [[= _ ->] Hc]].
  specialize (Hzero outs E). rewrite List.Forall_forall in Hzero.
  destruct (Hzero c Hc) as [H|H]; congruence.
Qed.

(** The tool edge of the scenario, declared at index 3, ends at index 0. *)
Lemma applyAutoFixes_tool_index_zero_calculator :
  exists r,
    applyAutoFixes Scenario.misusedTools = inr r
    /\ In ("Calculator", mkConn "Fetch" "ai_tool" 0%Z) (toolEdges (conns_of (fr_workflow r)))
    /\ c_index (mkConn "Fetch" "ai_tool" 0%Z) = Some 0%Z
    /\ 0%Z = 0%Z.
Proof.
  eexists. split; [vm_compute; reflexivity|].
  split; [vm_compute; left; reflexivity|].
  split; [reflexivity|].
  eapply (applyAutoFixes_tool_index_zero Scenario.misusedTools _ "Calculator"
            (mkConn "Fetch" "ai_tool" 0%Z) 0%Z).
  - vm_compute. reflexivity.
  - vm_compute. left. reflexivity.
  - reflexivity.
Defined.

(** C4 as stated fails on the scenario.  After the pipeline three [ai_tool]
    records remain.  The first and the third reach [Fetch], which is not
    agent-kind.  The second, which reaches the trigger, came without an
    index and still has none.  The source of the third, [Legacy], names no
    step any more (the step of deprecated kind was renamed after the edges
    were checked), and no step but [Calculator] is tool-capable. *)
Lemma applyAutoFixes_keeps_misused_tool_edges :
  exists r,
    applyAutoFixes Scenario.misusedTools = inr r
    /\ toolEdges (conns_of (fr_workflow r))
       = [ ("Calculator", mkConn "Fetch" "ai_tool" 0%Z);
           ("Calculator", mkEdge "Start" "ai_tool" None);
           ("Legacy", mkConn "Fetch" "ai_tool" 0%Z) ]
    /\ option_map (fun n => isAgentNode (ty n)) (findNode "Fetch" (w_nodes (fr_workflow r)))
       = Some false
    /\ option_map (fun n => isAgentNode (ty n)) (findNode "Start" (w_nodes (fr_workflow r)))
       = Some false
    /\ findNode "Legacy" (w_nodes (fr_workflow r)) = None
    /\ map (fun n => (nm n, toolCapable (ty n))) (w_nodes (fr_workflow r))
       = [ ("Start", false); ("Fetch", false); ("Calculator", true);
           ("OpenAI Chat Model", false) ].
Proof.
  eexists. split; [vm_compute; reflexivity|]. vm_compute. repeat split.
Qed.


(** ** Running a pass twice *)

Lemma map_fixed {A B} (f : A -> A * B) (zero : B) (l : list A) :
  (forall a, In a l -> f a = (a, zero)) ->
  map fst (map f l) = l /\ map snd (map f l) = map (fun _ => zero) l.
Proof.
  induction l as [|a l IH]; intros H; simpl; [now split|].
  rewrite (H a) by now left. simpl.
  destruct IH as [IH1 IH2]; [intros b Hb; apply H; now right|].
  now rewrite IH1, IH2.
Qed.

Lemma sum_nat_zero {A} (l : list A) : sum_nat (map (fun _ => 0%nat) l) = 0%nat.
Proof. induction l; simpl; auto. Qed.

Lemma concat_nil {A B} (l : list A) : concat (map (fun _ => @nil B) l) = [].
Proof. induction l; simpl; auto. Qed.

Lemma stripToolPort_again types kv :
  stripToolPort types (fst (stripToolPort types kv)) = (fst (stripToolPort types kv), 0%nat).
Proof.
  unfold stripToolPort at 2 3.
  destruct (Dict.get (fst kv) types) as [sourceType|] eqn:E.
  - destruct (negb (toolCapable sourceType) && Dict.has "ai_tool" (snd kv)) eqn:C; simpl.
    + unfold stripToolPort. simpl. rewrite E, has_remove, andb_false_r. reflexivity.
    + unfold stripToolPort. rewrite E, C. reflexivity.
  - simpl. unfold stripToolPort. now rewrite E.
Qed.

Lemma removeInvalidAIToolConnections_again (w : Workflow) :
  removeInvalidAIToolConnections (fst (removeInvalidAIToolConnections w))
  = (fst (removeInvalidAIToolConnections w), 0%nat).
Proof.
  unfold removeInvalidAIToolConnections at 2 3.
  destruct (w_connections w) as [cs|] eqn:E; simpl.
  - unfold removeInvalidAIToolConnections. simpl.
    destruct (map_fixed (stripToolPort (nodeTypeMap (w_nodes w))) 0%nat
                (map fst (map (stripToolPort (nodeTypeMap (w_nodes w))) cs))) as [H1 H2].
    { intros kv Hin. apply in_map_iff in Hin as [x [<- Hx]].
      apply in_map_iff in Hx as [kv0 [<- _]]. apply stripToolPort_again. }
    rewrite H1, H2, sum_nat_zero. reflexivity.
  - unfold removeInvalidAIToolConnections. now rewrite E.
Qed.

Lemma stripModelNode_noop (node : Node) :
  (forall ps, n_parameters node = Some (JObj ps) -> isModelStep node = true ->
              hardcodedAt "model" ps = false /\ hardcodedAt "modelName" ps = false) ->
  stripModelNode node = (node, (0%nat, [])).
Proof.
  unfold stripModelNode, isModelStep. intros H.
  destruct (falsy (n_type node)); simpl in *; [reflexivity|].
  destruct (falsy (n_name node)); simpl in *; [reflexivity|].
  destruct (isLanguageModelNode (ty node)); simpl in *; [|reflexivity].
  destruct (n_parameters node) as [[| | | | |ps]|]; try reflexivity.
  destruct (H ps eq_refl eq_refl) as [Hm Hn].
  destruct (stripKey_get "model" ps) as [_ H1].
  pose proof (stripKey_same "model" ps) as S1.
  destruct (stripKey "model" ps) as [ps1 had1]. simpl in *.
  rewrite Hm in H1. subst had1. rewrite (S1 eq_refl).
  destruct (stripKey_get "modelName" ps) as [_ H2].
  destruct (stripKey "modelName" ps) as [ps2 had2]. simpl in *.
  rewrite Hn in H2. subst had2. reflexivity.
Qed.

Lemma stripModelNode_again (node : Node) :
  stripModelNode (fst (stripModelNode node)) = (fst (stripModelNode node), (0%nat, [])).
Proof.
  apply stripModelNode_noop. intros ps' P' M'.
  pose proof (stripModelNode_spec node) as H.
  destruct (n_parameters node) as [[| | | | |ps]|] eqn:P;
    try (rewrite H in P', M'; congruence).
  destruct (isModelStep node) eqn:M.
  - destruct H as (ps0 & Heq & Hk & _ & _). rewrite Heq in P'. simpl in P'.
    injection P' as <-.
    split; unfold hardcodedAt.
    + rewrite (Hk "model") by now left. unfold hardcodedAt.
      destruct (Dict.get "model" ps) as [v|]; [|reflexivity].
      destruct (isHardcodedModel v) eqn:Hv; [reflexivity|]. exact Hv.
    + rewrite (Hk "modelName") by now right. unfold hardcodedAt.
      destruct (Dict.get "modelName" ps) as [v|]; [|reflexivity].
      destruct (isHardcodedModel v) eqn:Hv; [reflexivity|]. exact Hv.
  - rewrite H in M'. congruence.
Qed.

Lemma removeHardcodedModelParameters_again (w : Workflow) :
  removeHardcodedModelParameters (fst (removeHardcodedModelParameters w))
  = (fst (removeHardcodedModelParameters w), (0%nat, [])).
Proof.
  unfold removeHardcodedModelParameters, set_nodes. simpl.
  f_equal; [f_equal|f_equal].
  - rewrite !map_map. apply map_ext. intros n. now rewrite stripModelNode_again.
  - rewrite !map_map.
    erewrite map_ext; [apply sum_nat_zero|].
    intros n. simpl. now rewrite stripModelNode_again.
  - rewrite !map_map.
    erewrite map_ext; [apply concat_nil|].
    intros n. simpl. now rewrite stripModelNode_again.
Qed.

Lemma zeroIndex_again c : zeroIndex (zeroIndex c) = zeroIndex c.
Proof. unfold zeroIndex. destruct (c_index c) eqn:I; simpl; [reflexivity|now rewrite I]. Qed.

Lemma indexFixes_zero src outs : indexFixes src (map (map zeroIndex) outs) = [].
Proof.
  unfold indexFixes.
  induction outs as [|slot outs IH]; simpl; [reflexivity|].
  rewrite flat_map_app, IH, app_nil_r.
  induction slot as [|c slot IHs]; simpl; [reflexivity|].
  rewrite IHs, app_nil_r. unfold zeroIndex.
  destruct (c_index c) eqn:I; simpl; [reflexivity|now rewrite I].
Qed.

Lemma normalizePorts_again kv :
  normalizePorts (fst (normalizePorts kv)) = (fst (normalizePorts kv), []).
Proof.
  unfold normalizePorts at 2 3.
  destruct (Dict.get "ai_tool" (snd kv)) as [outs|] eqn:E; simpl.
  - unfold normalizePorts. simpl. rewrite get_set_eq, set_set, indexFixes_zero.
    rewrite map_map. f_equal. f_equal. f_equal.
    apply map_ext. intros slot. rewrite map_map. apply map_ext. intros c.
    apply zeroIndex_again.
  - unfold normalizePorts. now rewrite E.
Qed.

Lemma normalizeAIToolIndexes_again (w : Workflow) :
  normalizeAIToolIndexes (fst (normalizeAIToolIndexes w))
  = (fst (normalizeAIToolIndexes w), (0%nat, [])).
Proof.
  unfold normalizeAIToolIndexes at 2 3.
  destruct (w_connections w) as [cs|] eqn:E; simpl.
  - unfold normalizeAIToolIndexes, set_connections. simpl.
    assert (H : concat (map snd (map normalizePorts (map fst (map normalizePorts cs)))) = []).
    { rewrite !map_map. erewrite map_ext; [apply concat_nil|].
      intros kv. simpl. now rewrite normalizePorts_again. }
    rewrite H. simpl. f_equal. f_equal. f_equal.
    rewrite !map_map. apply map_ext. intros kv. now rewrite normalizePorts_again.
  - unfold normalizeAIToolIndexes. now rewrite E.
Qed.

Lemma pruneSource_again nodes kv :
  pruneSource nodes (fst (pruneSource nodes kv)) = (fst (pruneSource nodes kv), []).
Proof.
  unfold pruneSource at 2 3.
  destruct (Dict.get "main" (snd kv)) as [[|[|c1 [|c2 more]] rest]|] eqn:E; simpl;
    try (unfold pruneSource; rewrite E; reflexivity).
  destruct (isConditionalNode nodes (fst kv)) eqn:C; simpl.
  - unfold pruneSource. now rewrite E, C.
  - unfold pruneSource. simpl. now rewrite get_set_eq.
Qed.

Lemma removeOverlinking_again (w : Workflow) :
  removeOverlinking (fst (removeOverlinking w)) = (fst (removeOverlinking w), (0%nat, [])).
Proof.
  unfold removeOverlinking at 2 3.
  destruct (w_connections w) as [cs|] eqn:E; simpl.
  - unfold removeOverlinking, set_connections. simpl.
    assert (H : concat (map snd (map (pruneSource (w_nodes w))
                                   (map fst (map (pruneSource (w_nodes w)) cs)))) = []).
    { rewrite !map_map. erewrite map_ext; [apply concat_nil|].
      intros kv. simpl. now rewrite pruneSource_again. }
    rewrite H. simpl. f_equal. f_equal. f_equal.
    rewrite !map_map. apply map_ext. intros kv. now rewrite pruneSource_again.
  - unfold removeOverlinking. now rewrite E.
Qed.

Lemma deprecated_target t newType :
  Dict.get t DEPRECATED_NODES = Some newType -> Dict.get newType DEPRECATED_NODES = None.
Proof.
  unfold DEPRECATED_NODES. simpl.
  repeat (destruct (String.eqb t _); [intros [= <-]; reflexivity|]).
  discriminate.
Qed.

Lemma replaceDeprecated_cases node :
  replaceDeprecated node = (node, [])
  \/ exists newType msg,
       Dict.get (ty node) DEPRECATED_NODES = Some newType
       /\ replaceDeprecated node
          = (set_name (getSuggestedNodeName (Some newType)) (set_type newType node), msg).
Proof.
  unfold replaceDeprecated.
  destruct (falsy (n_type node)); [now left|].
  destruct (Dict.get (ty node) DEPRECATED_NODES) as [newType|]; [|now left].
  right. eexists. eexists. split; reflexivity.
Qed.

Lemma deprecated_target_named t newType :
  Dict.get t DEPRECATED_NODES = Some newType -> Str.is_empty newType = false.
Proof.
  unfold DEPRECATED_NODES. simpl.
  repeat (destruct (String.eqb t _); [intros [= <-]; reflexivity|]).
  discriminate.
Qed.

Lemma replaceDeprecated_again node :
  replaceDeprecated (fst (replaceDeprecated node)) = (fst (replaceDeprecated node), []).
Proof.
  destruct (replaceDeprecated_cases node) as [H|(newType & msg & D & H)]; rewrite H.
  - exact H.
  - cbn [fst]. unfold replaceDeprecated.
    change (n_type (set_name (getSuggestedNodeName (Some newType)) (set_type newType node)))
      with (Some newType).
    change (ty (set_name (getSuggestedNodeName (Some newType)) (set_type newType node)))
      with newType.
    cbn [falsy]. rewrite (deprecated_target_named _ _ D), (deprecated_target _ _ D).
    reflexivity.
Qed.

Lemma replaceDeprecatedNodes_again (w : Workflow) :
  replaceDeprecatedNodes (fst (replaceDeprecatedNodes w)) = (fst (replaceDeprecatedNodes w), []).
Proof.
  unfold replaceDeprecatedNodes, set_nodes. simpl. f_equal; [f_equal|].
  - rewrite !map_map. apply map_ext. intros n. now rewrite replaceDeprecated_again.
  - rewrite !map_map. erewrite map_ext; [apply concat_nil|].
    intros n. simpl. now rewrite replaceDeprecated_again.
Qed.

(** C5, as the code has it.  Each of these passes is idempotent on its own:
    run again on the workflow it returned, it returns that workflow and
    reports no change.  They are the replacement of deprecated kinds, the
    removal of misused tool edges, the removal of hard-coded model names,
    the normalisation of tool-edge indexes and the pruning of over-fanout. *)
Theorem repair_passes_idempotent (w : Workflow) :
  replaceDeprecatedNodes (fst (replaceDeprecatedNodes w))
  = (fst (replaceDeprecatedNodes w), [])
  /\ removeInvalidAIToolConnections (fst (removeInvalidAIToolConnections w))
     = (fst (removeInvalidAIToolConnections w), 0%nat)
  /\ removeHardcodedModelParameters (fst (removeHardcodedModelParameters w))
     = (fst (removeHardcodedModelParameters w), (0%nat, []))
  /\ normalizeAIToolIndexes (fst (normalizeAIToolIndexes w))
     = (fst (normalizeAIToolIndexes w), (0%nat, []))
  /\ removeOverlinking (fst (removeOverlinking w))
     = (fst (removeOverlinking w), (0%nat, [])).
Proof.
  split; [apply replaceDeprecatedNodes_again|].
  split; [apply removeInvalidAIToolConnections_again|].
  split; [apply removeHardcodedModelParameters_again|].
  split; [apply normalizeAIToolIndexes_again|apply removeOverlinking_again].
Qed.

(** C5 as stated fails on an agent with two orphans.  The first run hangs
    both orphans on output slot 0 of the agent.  The second run, on the
    workflow the first one returned, prunes the second of these edges as
    over-fanout and then adds it again as the reconnection of an orphan: it
    returns the same workflow and reports four lines of fixes, and so does
    every later run. *)
Lemma applyAutoFixes_second_run_fixes :
  exists r1 r2,
    applyAutoFixes Scenario.agentWithOrphans = inr r1
    /\ applyAutoFixes (fr_workflow r1) = inr r2
    /\ Dict.get "AI Agent" (conns_of (fr_workflow r1))
       = Some [ ("main", [[ mkConn "Log A" "main" 0%Z; mkConn "Log B" "main" 0%Z ]]) ]
    /\ fr_fixes r2
       = [ "✅ [FIX-9] Removed 1 excess connections (over-linking)";
           "    → " +:+ overlinkFix "AI Agent" (mkConn "Log A" "main" 0%Z)
                        (mkConn "Log B" "main" 0%Z);
           "✅ [FIX-10] Rebuilt 1 orphaned node connections";
           "    → Reconnected orphaned node " +:+ Str.quoted "Log B"
           +:+ " from agent output " +:+ Str.quoted "AI Agent" ]
    /\ fr_workflow r2 = fr_workflow r1.
Proof.
  eexists. eexists. split; [vm_compute; reflexivity|]. split; [vm_compute; reflexivity|].
  vm_compute. repeat split.
Qed.


(** ** The caller's object *)

Lemma objects_map_Some (nodes : list Node) : objects (map Some nodes) = nodes.
Proof. induction nodes as [|n nodes IH]; simpl; [reflexivity|now rewrite IH]. Qed.

Lemma write_owns (h0 h : Heap.heap) (l : Heap.loc) (w : Workflow) :
  owns h0 h l ->
  owns h0 (Heap.write l w h) l
  /\ Heap.read (Heap.write l w h) l = Some (raw_of w).
Proof.
  intros (Hsub & name & ln & cn & elements & Hl & Hln & H0l & H0ln & Hcn).
  assert (Nlln : l <> ln) by (intros ->; congruence).
  unfold Heap.write. rewrite Hl.
  destruct (w_connections w) as [cs|] eqn:W.
  - destruct cn as [lc|].
    + destruct Hcn as [[cs0 Hlc] H0lc].
      assert (Nllc : l <> lc) by (intros ->; congruence).
      assert (Nlnlc : ln <> lc) by (intros ->; congruence).
      split.
      * split; [repeat apply insert_subseteq_r; assumption|].
        exists (w_name w), ln, (Some lc), (map Some (w_nodes w)).
        rewrite lookup_insert_eq.
        rewrite (lookup_insert_ne _ l ln) by exact Nlln.
        rewrite (lookup_insert_ne _ lc ln) by congruence.
        rewrite lookup_insert_eq.
        repeat split; try assumption.
        exists cs. rewrite (lookup_insert_ne _ l lc) by exact Nllc.
        apply lookup_insert_eq.
      * unfold Heap.read, Heap.nodesAt, Heap.connectionsAt.
        rewrite lookup_insert_eq.
        rewrite (lookup_insert_ne _ l ln) by exact Nlln.
        rewrite (lookup_insert_ne _ lc ln) by congruence.
        rewrite lookup_insert_eq.
        rewrite (lookup_insert_ne _ l lc) by exact Nllc.
        rewrite lookup_insert_eq. unfold raw_of. now rewrite W.
    + unfold Heap.alloc. cbv zeta.
      set (h1 := <[ln := Heap.ONodes (map Some (w_nodes w))]> h).
      set (lc := fresh (dom h1)).
      assert (Hsub1 : h0 ⊆ h1) by (apply insert_subseteq_r; assumption).
      assert (Hf : h1 !! lc = None) by (apply not_elem_of_dom; apply is_fresh).
      assert (H0lc : h0 !! lc = None) by (eapply lookup_weaken_None; eauto).
      assert (Nlnlc : ln <> lc).
      { intros E. unfold h1 in Hf. rewrite <- E, lookup_insert_eq in Hf. discriminate. }
      assert (Nllc : l <> lc).
      { intros E. unfold h1 in Hf. rewrite <- E, lookup_insert_ne, Hl in Hf by congruence.
        discriminate. }
      split.
      * split; [repeat apply insert_subseteq_r; assumption|].
        exists (w_name w), ln, (Some lc), (map Some (w_nodes w)).
        rewrite lookup_insert_eq.
        rewrite (lookup_insert_ne _ l ln) by exact Nlln.
        rewrite (lookup_insert_ne _ lc ln) by congruence.
        unfold h1. rewrite lookup_insert_eq.
        repeat split; try assumption.
        exists cs. rewrite (lookup_insert_ne _ l lc) by exact Nllc.
        apply lookup_insert_eq.
      * unfold Heap.read, Heap.nodesAt, Heap.connectionsAt.
        rewrite lookup_insert_eq.
        rewrite (lookup_insert_ne _ l ln) by exact Nlln.
        rewrite (lookup_insert_ne _ lc ln) by congruence.
        unfold h1 at 1. rewrite lookup_insert_eq.
        rewrite (lookup_insert_ne _ l lc) by exact Nllc.
        rewrite lookup_insert_eq. unfold raw_of. now rewrite W.
  - cbv zeta.
    replace (match cn with Some _ | _ => (<[ln := Heap.ONodes (map Some (w_nodes w))]> h, None) end)
      with (<[ln := Heap.ONodes (map Some (w_nodes w))]> h, @None Heap.loc) by now destruct cn.
    split.
    + split; [repeat apply insert_subseteq_r; assumption|].
      exists (w_name w), ln, None, (map Some (w_nodes w)).
      rewrite lookup_insert_eq.
      rewrite (lookup_insert_ne _ l ln) by exact Nlln.
      rewrite lookup_insert_eq. repeat split; assumption.
    + unfold Heap.read, Heap.nodesAt, Heap.connectionsAt.
      rewrite lookup_insert_eq.
      rewrite (lookup_insert_ne _ l ln) by exact Nlln.
      rewrite lookup_insert_eq. unfold raw_of. now rewrite W.
Qed.

Lemma view_read (h : Heap.heap) (l : Heap.loc) (w : Workflow) :
  Heap.read h l = Some (raw_of w) -> Heap.view h l = w.
Proof.
  unfold Heap.view. intros ->. simpl. rewrite objects_map_Some. now destruct w.
Qed.

Lemma inPlace_owns {X} (pass : Workflow -> Workflow * X) (h0 h : Heap.heap) (l : Heap.loc) :
  owns h0 h l ->
  exists h',
    Heap.inPlace pass l h = (h', snd (pass (Heap.view h l)))
    /\ owns h0 h' l
    /\ Heap.read h' l = Some (raw_of (fst (pass (Heap.view h l)))).
Proof.
  intros Ho. unfold Heap.inPlace. destruct (pass (Heap.view h l)) as [w x]. simpl.
  eexists. split; [reflexivity|]. now apply write_owns.
Qed.

Lemma inPlaceExc_owns {X} (pass : Workflow -> Exc (Workflow * X)) (h0 h : Heap.heap)
    (l : Heap.loc) :
  owns h0 h l ->
  exists h',
    owns h0 h' l
    /\ match pass (Heap.view h l) with
       | inl message => Heap.inPlaceExc pass l h = (h', inl message)
       | inr (w, x) =>
           Heap.inPlaceExc pass l h = (h', inr x) /\ Heap.read h' l = Some (raw_of w)
       end.
Proof.
  intros Ho. unfold Heap.inPlaceExc. destruct (pass (Heap.view h l)) as [message|[w x]].
  - exists h. now split.
  - destruct (write_owns h0 h l w Ho) as [A B].
    eexists. split; [exact A|]. split; [reflexivity|exact B].
Qed.

Ltac in_place Ho Hv :=
  match goal with
  | |- context [Heap.inPlace ?pass ?l ?h] =>
      let h' := fresh "h" in
      let E := fresh "E" in
      let Ho' := fresh "Ho" in
      let Hr := fresh "Hr" in
      destruct (inPlace_owns pass _ h l Ho) as (h' & E & Ho' & Hr);
      rewrite E; clear E; apply view_read in Hr; rewrite Hv in Hr; rewrite ?Hv;
      clear Ho Hv; rename Ho' into Ho; rename Hr into Hv
  end.

(** The passes called with a reference do what the passes of
    [applyAutoFixes] do to the workflow behind it, and write to the objects
    of that workflow only. *)
Lemma repair_refines (h0 h : Heap.heap) (l : Heap.loc) (w : Workflow) :
  owns h0 h l -> Heap.view h l = w ->
  exists h',
    owns h0 h' l
    /\ match applyAutoFixes w with
       | inl message => Heap.repair l h = (h', inl message)
       | inr r =>
           Heap.repair l h
           = (h', inr (Heap.mkFixed (fr_fixed r) l (fr_fixes r) (fr_warnings r)))
           /\ Heap.read h' l = Some (raw_of (fr_workflow r))
       end.
Proof.
  intros Ho Hv. unfold Heap.repair, applyAutoFixes. cbv zeta.
  in_place Ho Hv. unfold Heap.nameFix in *.
  destruct (if falsy (w_name w) then _ else _) as [w1 f1]; cbn [fst snd] in *.
  in_place Ho Hv. unfold Heap.connectionsFix in *.
  destruct (match w_connections w1 with Some _ => _ | None => _ end) as [w2 f2];
    cbn [fst snd] in *.
  in_place Ho Hv. unfold Heap.nodeFix in *.
  destruct (fixNodes _ _ _ _) as [nodes3 f3]; cbn [fst snd] in *.
  in_place Ho Hv. destruct (autoConnect _) as [w4 f4]; cbn [fst snd] in *.
  in_place Ho Hv. destruct (cleanConnections _) as [w5 f5]; cbn [fst snd] in *.
  in_place Ho Hv. destruct (replaceDeprecatedNodes _) as [w6 d8]; cbn [fst snd] in *.
  rewrite Hv.
  in_place Ho Hv. destruct (removeInvalidAIToolConnections _) as [w7 removed1];
    cbn [fst snd] in *.
  in_place Ho Hv. destruct (convertRegularNodesToTools _) as [w8 [converted d2]];
    cbn [fst snd] in *.
  in_place Ho Hv. destruct (removeHardcodedModelParameters _) as [w9 [removed3 d3]];
    cbn [fst snd] in *.
  destruct (inPlaceExc_owns fixBackwardsToolConnections h0 h9 l Ho) as (h10 & Ho10 & H10).
  rewrite Hv in H10. clear Ho Hv.
  destruct (fixBackwardsToolConnections w9) as [message|[w10 [fixed4 d4]]]; cbn [bind].
  { rewrite H10. exists h10. now split. }
  destruct H10 as [E10 Hv]. rewrite E10. clear E10. apply view_read in Hv.
  rename Ho10 into Ho.
  in_place Ho Hv. destruct (fixNodePositioning _) as [w11 d5]; cbn [fst snd] in *.
  in_place Ho Hv. destruct (ensureDescriptiveNames _) as [w12 d6]; cbn [fst snd] in *.
  in_place Ho Hv. destruct (normalizeAIToolIndexes _) as [w13 [fixed7 d7]]; cbn [fst snd] in *.
  in_place Ho Hv. destruct (removeOverlinking _) as [w14 [fixed9 d9]]; cbn [fst snd] in *.
  destruct (inPlaceExc_owns Heap.rebuildIfAgents h0 _ l Ho) as (h15 & Ho15 & H15).
  rewrite Hv in H15. clear Ho Hv. unfold Heap.rebuildIfAgents in H15 at 1.
  destruct (if existsb _ (w_nodes w14) then _ else _) as [message|[w15 [fixed10 d10]]];
    cbn [bind].
  { rewrite H15. exists h15. now split. }
  destruct H15 as [E15 Hv]. rewrite E15. exists h15. split; [exact Ho15|].
  split; [reflexivity|exact Hv].
Qed.

Lemma closed_fields (h : Heap.heap) (l : Heap.loc) name nodes connections :
  closed h = true -> h !! l = Some (Heap.ODoc name nodes connections) ->
  (forall ln, nodes = Some ln -> is_Some (h !! ln))
  /\ (forall lc, connections = Some lc -> is_Some (h !! lc)).
Proof.
  unfold closed. rewrite forallb_forall. intros Hc Hl.
  specialize (Hc (l, Heap.ODoc name nodes connections)). simpl in Hc.
  apply andb_prop in Hc as [Hn Hcs].
  - split; intros l' ->; [now apply bool_decide_eq_true in Hn|now apply bool_decide_eq_true in Hcs].
  - apply list_elem_of_In. now apply elem_of_map_to_list.
Qed.

Lemma read_weaken (h h' : Heap.heap) (l : Heap.loc) (raw : RawWorkflow) :
  closed h = true -> h ⊆ h' -> Heap.read h l = Some raw -> Heap.read h' l = Some raw.
Proof.
  intros Hc Hsub. unfold Heap.read.
  destruct (h !! l) as [o|] eqn:Hl; [|discriminate].
  rewrite (lookup_weaken _ _ _ _ Hl Hsub).
  destruct o as [name nodes connections|elements|cs]; try (intros H; exact H).
  destruct (closed_fields h l name nodes connections Hc Hl) as [Hn Hcs].
  intros [= <-]. f_equal. f_equal.
  - unfold Heap.nodesAt. destruct nodes as [ln|]; [|reflexivity].
    destruct (Hn ln eq_refl) as [o Ho]. now rewrite Ho, (lookup_weaken _ _ _ _ Ho Hsub).
  - unfold Heap.connectionsAt. destruct connections as [lc|]; [|reflexivity].
    destruct (Hcs lc eq_refl) as [o Ho]. now rewrite Ho, (lookup_weaken _ _ _ _ Ho Hsub).
Qed.

Lemma clone_owns (h : Heap.heap) (l : Heap.loc) (raw : RawWorkflow)
    (elements : list (option Node)) :
  Heap.read h l = Some raw -> r_nodes raw = Some elements ->
  exists h1 l',
    Heap.clone l h = (h1, l') /\ owns h h1 l' /\ Heap.read h1 l' = Some raw.
Proof.
  intros Hr Hn. unfold Heap.clone, Heap.alloc. rewrite Hr, Hn. cbv zeta.
  set (ln := fresh (dom h)).
  assert (Fn : h !! ln = None) by (apply not_elem_of_dom; apply is_fresh).
  set (h1 := <[ln := Heap.ONodes elements]> h).
  assert (S1 : h ⊆ h1) by now apply insert_subseteq.
  destruct (r_connections raw) as [cs|] eqn:C.
  - set (lc := fresh (dom h1)).
    assert (Fc : h1 !! lc = None) by (apply not_elem_of_dom; apply is_fresh).
    set (h2 := <[lc := Heap.OConns cs]> h1).
    assert (S2 : h1 ⊆ h2) by now apply insert_subseteq.
    set (l' := fresh (dom h2)).
    assert (Fl : h2 !! l' = None) by (apply not_elem_of_dom; apply is_fresh).
    assert (Nnc : ln <> lc).
    { intros E. unfold h1 in Fc. rewrite <- E, lookup_insert_eq in Fc. discriminate. }
    assert (Ncl : lc <> l').
    { intros E. unfold h2 in Fl. rewrite <- E, lookup_insert_eq in Fl. discriminate. }
    assert (Nnl : ln <> l').
    { intros E. unfold h2, h1 in Fl.
      rewrite <- E, lookup_insert_ne, lookup_insert_eq in Fl by congruence. discriminate. }
    eexists. eexists. split; [reflexivity|].
    assert (Gn : (<[l' := Heap.ODoc (r_name raw) (Some ln) (Some lc)]> h2) !! ln
                 = Some (Heap.ONodes elements)).
    { unfold h2, h1. rewrite !lookup_insert_ne by congruence. apply lookup_insert_eq. }
    assert (Gc : (<[l' := Heap.ODoc (r_name raw) (Some ln) (Some lc)]> h2) !! lc
                 = Some (Heap.OConns cs)).
    { unfold h2. rewrite lookup_insert_ne by congruence. apply lookup_insert_eq. }
    split.
    + split.
      * etrans; [exact S1|]. etrans; [exact S2|]. now apply insert_subseteq.
      * exists (r_name raw), ln, (Some lc), elements. rewrite lookup_insert_eq.
        split; [reflexivity|]. split; [exact Gn|].
        split; [eapply lookup_weaken_None; [exact Fl|etrans; eauto]|].
        split; [exact Fn|]. split; [eauto|eapply lookup_weaken_None; eauto].
    + unfold Heap.read. rewrite lookup_insert_eq.
      unfold Heap.nodesAt, Heap.connectionsAt. rewrite Gn, Gc.
      destruct raw. simpl in *. now subst.
  - set (l' := fresh (dom h1)).
    assert (Fl : h1 !! l' = None) by (apply not_elem_of_dom; apply is_fresh).
    assert (Nnl : ln <> l').
    { intros E. unfold h1 in Fl. rewrite <- E, lookup_insert_eq in Fl. discriminate. }
    eexists. eexists. split; [reflexivity|].
    assert (Gn : (<[l' := Heap.ODoc (r_name raw) (Some ln) None]> h1) !! ln
                 = Some (Heap.ONodes elements)).
    { unfold h1. rewrite lookup_insert_ne by congruence. apply lookup_insert_eq. }
    split.
    + split.
      * etrans; [exact S1|]. now apply insert_subseteq.
      * exists (r_name raw), ln, None, elements. rewrite lookup_insert_eq.
        split; [reflexivity|]. split; [exact Gn|].
        split; [eapply lookup_weaken_None; eauto|]. split; [exact Fn|exact I].
    + unfold Heap.read. rewrite lookup_insert_eq.
      unfold Heap.nodesAt, Heap.connectionsAt. rewrite Gn.
      destruct raw. simpl in *. now subst.
Qed.

Lemma checkedWorkflow_object input raw checked :
  checkedWorkflow input = inr (raw, checked) ->
  input = InObject raw
  /\ exists elements,
       r_nodes raw = Some elements
       /\ checked = mkWorkflow (r_name raw) (objects elements) (r_connections raw).
Proof.
  unfold checkedWorkflow. destruct input as [|raw0]; [discriminate|].
  destruct (r_nodes raw0) as [nodes|] eqn:N; [|discriminate].
  destruct (scanNodes 0 nodes []) as [errs|[|e errs]]; try discriminate.
  destruct nodes as [|n nodes]; [discriminate|]. intros [= <- <-].
  split; [reflexivity|]. eexists. split; [exact N|reflexivity].
Qed.

(** [applyAutoFixes] called with a reference to a checked document:
    whatever was in the store stays, and the outcome is that of the passes
    run on the document, left behind a reference that is new. *)
Lemma applyAutoFixes_refines (h : Heap.heap) (l : Heap.loc) (raw : RawWorkflow)
    (checked : Workflow) :
  Heap.read h l = Some raw ->
  checkedWorkflow (InObject raw) = inr (raw, checked) ->
  exists h',
    h ⊆ h'
    /\ match applyAutoFixes checked with
       | inl message => Heap.applyAutoFixes l h = (h', inl message)
       | inr r =>
           exists workflow,
             Heap.applyAutoFixes l h
             = (h', inr (Heap.mkFixed (fr_fixed r) workflow (fr_fixes r) (fr_warnings r)))
             /\ h !! workflow = None
             /\ Heap.read h' workflow = Some (raw_of (fr_workflow r))
       end.
Proof.
  intros Hr Hc. apply checkedWorkflow_object in Hc as (_ & elements & Hn & ->).
  destruct (clone_owns h l raw elements Hr Hn) as (h1 & workflow & Hclone & Ho & Hr1).
  unfold Heap.applyAutoFixes, Heap.nodesOf. rewrite Hclone, Hr1, Hn.
  assert (Hv : Heap.view h1 workflow
               = mkWorkflow (r_name raw) (objects elements) (r_connections raw)).
  { unfold Heap.view. now rewrite Hr1, Hn. }
  destruct (repair_refines h h1 workflow _ Ho Hv) as (h' & Ho' & H).
  exists h'. split; [apply Ho'|].
  destruct (applyAutoFixes _) as [message|r]; [exact H|].
  destruct H as [E Hread]. exists workflow. split; [exact E|]. split; [|exact Hread].
  destruct Ho as (_ & name & ln & cn & els & _ & _ & H0 & _). exact H0.
Qed.

Lemma deref_weaken (h h' : Heap.heap) (workflowJson : Heap.Arg) (raw : RawWorkflow) :
  closed h = true -> h ⊆ h' ->
  Heap.deref h workflowJson = InObject raw ->
  Heap.deref h' workflowJson = InObject raw.
Proof.
  intros Hc Hsub. destruct workflowJson as [|l]; simpl; [discriminate|].
  destruct (Heap.read h l) as [raw0|] eqn:R; [|discriminate].
  intros [= ->]. now rewrite (read_weaken h h' l raw Hc Hsub R).
Qed.

(** C7.  [validateWorkflow] never writes through the reference it is
    given.  In a store without dangling references, every object that was
    in the store before the call, the document of the argument with its
    array of steps and its adjacency object included, is the same object
    with the same content after the call, with and without repair, and the
    argument reads as before.  The passes of the repair are called with a
    reference to the copy and write to the objects of the copy only.  The
    report is the one computed from the document the argument points to;
    its [normalized] field refers to the copy, a location that did not
    exist before the call, when a fix was made, and to the argument itself
    otherwise. *)
Theorem validateWorkflow_leaves_argument
    (h h' : Heap.heap) (workflowJson : Heap.Arg) (autofix : bool) (result : Heap.Report) :
  closed h = true ->
  Heap.validateWorkflow workflowJson autofix h = (h', result) ->
  (forall l o, h !! l = Some o -> h' !! l = Some o)
  /\ Heap.deref h' workflowJson = Heap.deref h workflowJson
  /\ result
     = Heap.report_of (validateWorkflow (Heap.deref h workflowJson) autofix)
         (Heap.h_normalized result)
  /\ match Heap.h_normalized result with
     | Some l =>
         Heap.read h' l = normalized (validateWorkflow (Heap.deref h workflowJson) autofix)
         /\ (if Heap.h_autofixed result then h !! l = None else workflowJson = Heap.ARef l)
     | None => True
     end.
Proof.
  intros Hc Hv. unfold Heap.validateWorkflow in Hv.
  destruct workflowJson as [|l].
  { injection Hv as <- <-. repeat split; auto. }
  unfold validateWorkflow.
  destruct (checkedWorkflow (Heap.deref h (Heap.ARef l))) as [r|[raw checked]] eqn:C.
  { injection Hv as <- <-. repeat split; auto. }
  destruct (checkedWorkflow_object _ _ _ C) as (D & _).
  assert (Hr : Heap.read h l = Some raw).
  { simpl in D. destruct (Heap.read h l); [congruence|discriminate]. }
  rewrite D in C.
  destruct (preChecks checked) as [errs warns].
  destruct autofix.
  - destruct (applyAutoFixes_refines h l raw checked Hr C) as (h1 & Hsub & H).
    assert (Hd : Heap.deref h1 (Heap.ARef l) = Heap.deref h (Heap.ARef l)).
    { rewrite D. now apply (deref_weaken h h1 _ raw Hc Hsub). }
    destruct (applyAutoFixes checked) as [message|r].
    + rewrite H in Hv. injection Hv as <- <-.
      split; [intros l0 o Hl0; eapply lookup_weaken; eauto|].
      split; [exact Hd|]. split; [reflexivity|exact I].
    + destruct H as (workflow & E & Hfresh & Hread). rewrite E in Hv. cbn in Hv.
      rewrite (view_read _ _ _ Hread) in Hv.
      assert (Er : mkFixResult (fr_fixed r) (fr_workflow r) (fr_fixes r) (fr_warnings r) = r)
        by now destruct r.
      rewrite Er in Hv. injection Hv as <- <-.
      split; [intros l0 o Hl0; eapply lookup_weaken; eauto|].
      split; [exact Hd|]. split; [reflexivity|]. cbn.
      destruct (fr_fixed r).
      * split; [exact Hread|exact Hfresh].
      * split; [|reflexivity]. now apply (read_weaken h h1 l raw Hc Hsub).
  - injection Hv as <- <-.
    split; [auto|]. split; [reflexivity|]. split; [reflexivity|]. cbn. now split.
Qed.

(** [Scenario.singleGeneric] in a store: after the call the three objects
    of the caller are as before. *)
Lemma validateWorkflow_leaves_argument_store :
  closed Sample.store = true
  /\ (forall l o,
        Sample.store !! l = Some o ->
        fst (Heap.validateWorkflow (Heap.ARef 1%positive) true Sample.store) !! l = Some o)
  /\ Heap.deref (fst (Heap.validateWorkflow (Heap.ARef 1%positive) true Sample.store))
        (Heap.ARef 1%positive)
     = Heap.deref Sample.store (Heap.ARef 1%positive).
Proof.
  split; [vm_compute; reflexivity|].
  destruct (validateWorkflow_leaves_argument Sample.store
              (fst (Heap.validateWorkflow (Heap.ARef 1%positive) true Sample.store))
              (Heap.ARef 1%positive) true
              (snd (Heap.validateWorkflow (Heap.ARef 1%positive) true Sample.store)))
    as (H1 & H2 & _).
  - vm_compute. reflexivity.
  - apply surjective_pairing.
  - split; [exact H1|exact H2].
Defined.

(** The same call in detail: the argument still reads as
    [Scenario.singleGeneric], and the repaired copy is behind a new
    reference. *)
Lemma validateWorkflow_store_example :
  Heap.read (fst (Heap.validateWorkflow (Heap.ARef 1%positive) true Sample.store)) 1%positive
  = Some Scenario.singleGeneric
  /\ Sample.store
       !! default 1%positive
            (Heap.h_normalized
               (snd (Heap.validateWorkflow (Heap.ARef 1%positive) true Sample.store)))
     = None
  /\ option_map r_nodes
       (Heap.read (fst (Heap.validateWorkflow (Heap.ARef 1%positive) true Sample.store))
          (default 1%positive
             (Heap.h_normalized
                (snd (Heap.validateWorkflow (Heap.ARef 1%positive) true Sample.store)))))
     = Some (Some [ Some (set_id (uuidv4 0)
                             (Scenario.draft "HTTP Request" "n8n-nodes-base.httpRequest" 100 250)) ]).
Proof. vm_compute. repeat split. Qed.

(** Without the copy the caller's document changes: the passes called
    with the reference of the argument rename its step and give it an id. *)
Lemma repair_writes_through :
  option_map r_nodes (Heap.read (fst (Heap.repair 1%positive Sample.store)) 1%positive)
  = Some (Some [ Some (set_id (uuidv4 0)
                          (Scenario.draft "HTTP Request" "n8n-nodes-base.httpRequest" 100 250)) ])
  /\ option_map r_nodes (Heap.read Sample.store 1%positive)
     = Some (Some [ Some (Scenario.draft "Node1" "n8n-nodes-base.httpRequest" 100 250) ]).
Proof. vm_compute. split; reflexivity. Qed.

(** Nor is a copy of the document alone enough: the passes called with a
    reference to a new document that shares the array of steps change the
    steps of the caller. *)
Lemma shallowCopy_shares :
  option_map r_nodes
    (Heap.read
       (fst (Heap.repair (snd (Heap.shallowCopy 1%positive Sample.store))
               (fst (Heap.shallowCopy 1%positive Sample.store))))
       1%positive)
  = Some (Some [ Some (set_id (uuidv4 0)
                          (Scenario.draft "HTTP Request" "n8n-nodes-base.httpRequest" 100 250)) ])
  /\ Sample.store !! snd (Heap.shallowCopy 1%positive Sample.store) = None.
Proof. vm_compute. split; reflexivity. Qed.

(** * Further properties of the passes, the validator and the analyzer *)

(** ** Fresh names *)

Lemma mem_In (s : string) (l : list string) : Str.mem s l = true <-> In s l.
Proof.
  unfold Str.mem. rewrite existsb_exists. split.
  - intros [x [Hx E]]. apply String.eqb_eq in E. now subst.
  - intros H. exists s. split; [exact H|apply String.eqb_refl].
Qed.

Lemma append_inj_r (a x y : string) : a +:+ x = a +:+ y -> x = y.
Proof. induction a as [|c a IH]; simpl; [auto|]. intros [= H]. auto. Qed.

Lemma length_append (a b : string) :
  String.length (a +:+ b) = (String.length a + String.length b)%nat.
Proof. induction a as [|c a IH]; simpl; auto. Qed.

Lemma candidate_inj (base : string) (j k : nat) :
  base +:+ " " +:+ pretty j = base +:+ " " +:+ pretty k -> j = k.
Proof.
  intros H. apply append_inj_r in H. apply (append_inj_r " ") in H.
  exact (pretty_nat_inj _ _ H).
Qed.

Lemma candidate_ne_base (base : string) (k : nat) : base <> base +:+ " " +:+ pretty k.
Proof.
  intros H. apply (f_equal String.length) in H. rewrite length_append in H.
  simpl in H. lia.
Qed.

Lemma uniquify_from_fresh (base : string) (used : list string) :
  forall fuel seen counter cur,
    List.NoDup seen -> incl seen used -> ~ In cur seen ->
    (forall k, (counter < k)%nat -> ~ In (base +:+ " " +:+ pretty k) seen) ->
    (forall k, (counter < k)%nat -> cur <> base +:+ " " +:+ pretty k) ->
    (length used <= fuel + length seen)%nat ->
    Str.mem (uniquify_from fuel base used counter cur) used = false.
Proof.
  induction fuel as [|fuel IH]; intros seen counter cur Hnd Hincl Hcur Hseen Hne Hlen;
    simpl; destruct (Str.mem cur used) eqn:M; try exact M.
  - exfalso. apply mem_In in M.
    assert (H : (length (cur :: seen) <= length used)%nat).
    { apply List.NoDup_incl_length; [now constructor|].
      intros x [<-|Hx]; [exact M|now apply Hincl]. }
    simpl in H. lia.
  - apply mem_In in M.
    apply (IH (cur :: seen)).
    + now constructor.
    + intros x [<-|Hx]; [exact M|now apply Hincl].
    + intros [H|H]; [apply (Hne (S counter)); [lia|exact H]|apply (Hseen (S counter)); [lia|exact H]].
    + intros k Hk [H|H]; [apply (Hne k); [lia|exact H]|apply (Hseen k); [lia|exact H]].
    + intros k Hk H. apply candidate_inj in H. lia.
    + simpl. lia.
Qed.

(** X1.  The loop that makes a name unique, as [applyAutoFixes] and
    [ensureDescriptiveNames] run it, returns a name that is not among the
    names in use, and returns the base name itself when that one is free. *)
Theorem uniquify_fresh (base : string) (used : list string) :
  Str.mem (uniquify base used) used = false
  /\ (Str.mem base used = false -> uniquify base used = base).
Proof.
  split.
  - unfold uniquify. apply (uniquify_from_fresh base used _ []).
    + constructor.
    + intros x [].
    + intros [].
    + intros k _ [].
    + intros k _. apply candidate_ne_base.
    + simpl. lia.
  - intros H. unfold uniquify. simpl. now rewrite H.
Qed.

(** ** Pair keys *)

Lemma prefix_arrow (a b : ascii) (rest : string) :
  String.prefix "->" (String a (String b rest))
  = Ascii.eqb a "-"%char && Ascii.eqb b ">"%char.
Proof.
  cbn -[ascii_dec Ascii.eqb].
  destruct (ascii_dec "-" a) as [<-|Ha].
  - rewrite Ascii.eqb_refl. cbn -[ascii_dec Ascii.eqb].
    destruct (ascii_dec ">" b) as [<-|Hb].
    + rewrite Ascii.eqb_refl. now destruct rest.
    + symmetry. apply Ascii.eqb_neq. congruence.
  - assert (E : Ascii.eqb a "-"%char = false) by (apply Ascii.eqb_neq; congruence).
    now rewrite E.
Qed.

Lemma split_arrow_whole (t : string) :
  Str.includes t "->" = false -> Str.split_arrow t = [t].
Proof.
  induction t as [|a t IH]; [reflexivity|].
  intros H. cbn [Str.includes] in H. apply orb_false_elim in H as [Hp Hi].
  destruct t as [|b rest]; [reflexivity|].
  rewrite prefix_arrow in Hp.
  change (Str.split_arrow (String a (String b rest)))
    with (if Ascii.eqb a "-"%char && Ascii.eqb b ">"%char
          then EmptyString :: Str.split_arrow rest
          else Str.cons_head a (Str.split_arrow (String b rest))).
  rewrite Hp, (IH Hi). reflexivity.
Qed.

Lemma split_arrow_pairKey (s t : string) :
  Str.includes s "->" = false -> Str.includes t "->" = false ->
  Str.split_arrow (pairKey s t) = [s; t].
Proof.
  unfold pairKey. intros Hs Ht. induction s as [|a s IH].
  - change (Str.split_arrow (EmptyString +:+ "->" +:+ t))
      with (EmptyString :: Str.split_arrow t).
    now rewrite (split_arrow_whole t Ht).
  - cbn [Str.includes] in Hs. apply orb_false_elim in Hs as [Hp Hi].
    destruct s as [|b s'].
    + change (Str.split_arrow (String a EmptyString +:+ "->" +:+ t))
        with (if Ascii.eqb a "-"%char && Ascii.eqb "-"%char ">"%char
              then EmptyString :: Str.split_arrow (String ">"%char t)
              else Str.cons_head a (EmptyString :: Str.split_arrow t)).
      rewrite andb_false_r, (split_arrow_whole t Ht). reflexivity.
    + rewrite prefix_arrow in Hp.
      change (Str.split_arrow (String a (String b s') +:+ "->" +:+ t))
        with (if Ascii.eqb a "-"%char && Ascii.eqb b ">"%char
              then EmptyString :: Str.split_arrow (s' +:+ "->" +:+ t)
              else Str.cons_head a (Str.split_arrow (String b s' +:+ "->" +:+ t))).
      rewrite Hp, (IH Hi). reflexivity.
Qed.

(** X2.  The duplicate warning of [validateConnections] recovers the two
    names from the pair key by splitting it at the arrow: when neither name
    contains an arrow, the message quotes the source, the target and the
    count. *)
Theorem duplicateMessage_names (s t : string) (count : nat) :
  Str.includes s "->" = false -> Str.includes t "->" = false ->
  duplicateMessage (pairKey s t) count
  = "Duplicate connection detected: " +:+ Str.quoted s +:+ " is linked to "
    +:+ Str.quoted t +:+ " " +:+ pretty count +:+ " times".
Proof.
  intros Hs Ht. unfold duplicateMessage. now rewrite (split_arrow_pairKey s t Hs Ht).
Qed.

(** The pair [Fetch], [Save], counted twice. *)
Lemma duplicateMessage_names_fetch_save :
  duplicateMessage (pairKey "Fetch" "Save") 2
  = "Duplicate connection detected: " +:+ Str.quoted "Fetch" +:+ " is linked to "
    +:+ Str.quoted "Save" +:+ " " +:+ pretty 2%nat +:+ " times".
Proof. apply (duplicateMessage_names "Fetch" "Save" 2); reflexivity. Defined.
(** ** Misused tool edges *)

Lemma stripToolPort_spec (types : Dict.t string) (kv : string * Ports) :
  fst (fst (stripToolPort types kv)) = fst kv
  /\ (forall port, port <> "ai_tool" ->
        Dict.get port (snd (fst (stripToolPort types kv))) = Dict.get port (snd kv))
  /\ match Dict.get (fst kv) types with
     | Some sourceType =>
         if toolCapable sourceType
         then fst (stripToolPort types kv) = kv
         else Dict.get "ai_tool" (snd (fst (stripToolPort types kv))) = None
     | None => fst (stripToolPort types kv) = kv
     end.
Proof.
  unfold stripToolPort.
  destruct (Dict.get (fst kv) types) as [sourceType|]; [|now repeat split].
  destruct (toolCapable sourceType); simpl; [now repeat split|].
  unfold Dict.has.
  destruct (Dict.get "ai_tool" (snd kv)) eqn:E; simpl.
  - split; [reflexivity|]. split; [|apply get_remove_eq].
    intros port Hp. now apply get_remove_ne.
  - now repeat split.
Qed.

(** X3.  [removeInvalidAIToolConnections] keeps the steps and the sources
    of the adjacency structure, leaves every port other than [ai_tool] as it
    is, and afterwards every [ai_tool] edge leaves a source whose kind, when
    the source names a step, is a tool kind. *)
Theorem removeInvalidAIToolConnections_sources (w : Workflow) :
  w_nodes (fst (removeInvalidAIToolConnections w)) = w_nodes w
  /\ map fst (conns_of (fst (removeInvalidAIToolConnections w))) = map fst (conns_of w)
  /\ Forall (fun e => match Dict.get (fst e) (nodeTypeMap (w_nodes w)) with
                      | Some sourceType => toolCapable sourceType = true
                      | None => True
                      end)
            (toolEdges (conns_of (fst (removeInvalidAIToolConnections w))))
  /\ Forall2 (fun kv kv' =>
                forall port, port <> "ai_tool" ->
                             Dict.get port (snd kv') = Dict.get port (snd kv))
             (conns_of w) (conns_of (fst (removeInvalidAIToolConnections w))).
Proof.
  unfold removeInvalidAIToolConnections, conns_of.
  destruct (w_connections w) as [cs|] eqn:E; simpl.
  - split; [reflexivity|]. split; [|split].
    + rewrite !map_map. apply map_ext. intros kv. apply stripToolPort_spec.
    + apply List.Forall_forall. intros [src c] Hin.
      unfold toolEdges in Hin. apply in_flat_map in Hin as [kv' [Hkv' Hin]].
      rewrite map_map in Hkv'. apply in_map_iff in Hkv' as [kv [<- _]].
      destruct (stripToolPort_spec (nodeTypeMap (w_nodes w)) kv) as (Hk & _ & Hs).
      destruct (Dict.get "ai_tool" _) as [outs|] eqn:G; [|destruct Hin].
      apply in_map_iff in Hin as [c0 [[= <- <-] _]]. simpl. rewrite Hk.
      destruct (Dict.get (fst kv) (nodeTypeMap (w_nodes w))) as [t|]; [|exact I].
      destruct (toolCapable t); [reflexivity|congruence].
    + rewrite map_map. clear E. induction cs as [|kv cs IH]; simpl; constructor; auto.
      intros port Hp. now apply stripToolPort_spec.
  - rewrite E. repeat split; constructor.
Qed.

(** ** Conversion to tool variants *)

Lemma getToolVariant_capable (t v : string) :
  getToolVariant t = Some v -> toolCapable v = true /\ isToolNode t = false.
Proof.
  intros H. apply get_in in H.
  assert (A : forallb (fun kv => toolCapable (snd kv) && negb (isToolNode (fst kv)))
                toolMappings = true) by reflexivity.
  rewrite forallb_forall in A. specialize (A _ H). simpl in A.
  apply andb_prop in A as [A B]. split; [exact A|]. now destruct (isToolNode t).
Qed.

Lemma connectedOnlyToAI_main (name : string) (cs : Connections) (src : string) (ps : Ports)
    (c : Conn) :
  In (src, ps) cs -> In c (conns_in ps) -> isAIPort (c_type c) = false ->
  src = name \/ c_node c = name ->
  isConnectedOnlyToAIInfrastructure name (Some cs) = false.
Proof.
  intros Hin Hc Hport Htouch. unfold isConnectedOnlyToAIInfrastructure. cbv zeta.
  set (touching := _ ++ _).
  assert (Hl : In c touching).
  { apply in_app_iff. destruct Htouch as [->|Hn].
    - left. apply in_flat_map. exists (name, ps). split; [exact Hin|].
      simpl. now rewrite String.eqb_refl.
    - right. apply filter_In. split.
      + apply in_flat_map. now exists (src, ps).
      + rewrite Hn. apply String.eqb_refl. }
  assert (Hf : forallb (fun c => isAIPort (c_type c)) touching = false).
  { destruct (forallb _ touching) eqn:F; [|reflexivity].
    rewrite forallb_forall in F. specialize (F c Hl). simpl in F. congruence. }
  rewrite Hf. destruct touching; [destruct Hl|reflexivity].
Qed.

(** X4.  [convertRegularNodesToTools] leaves the connections alone and
    changes a step in its kind only: a changed step gets the tool variant of
    its kind, which is a tool kind; this happens only in a workflow with an
    agent, to a step that is not a tool yet, and every edge that touches the
    step is of an AI port kind. *)
Theorem convertRegularNodesToTools_converts (w : Workflow) :
  w_connections (fst (convertRegularNodesToTools w)) = w_connections w
  /\ Forall2
       (fun node node' =>
          node' = node
          \/ (exists toolVariant,
                getToolVariant (ty node) = Some toolVariant
                /\ node' = set_type toolVariant node
                /\ toolCapable toolVariant = true
                /\ hasAIAgents w = true
                /\ isToolNode (ty node) = false
                /\ forall cs src ps c,
                     w_connections w = Some cs ->
                     In (src, ps) cs -> In c (conns_in ps) ->
                     src = nm node \/ c_node c = nm node ->
                     isAIPort (c_type c) = true))
       (w_nodes w) (w_nodes (fst (convertRegularNodesToTools w))).
Proof.
  unfold convertRegularNodesToTools.
  destruct (hasAIAgents w) eqn:A; simpl.
  - split; [reflexivity|]. rewrite map_map.
    induction (w_nodes w) as [|node nodes IH]; simpl; constructor; [|exact IH].
    unfold convertNode.
    destruct (falsy (n_type node) || falsy (n_name node)); [now left|].
    destruct (isToolNode (ty node)) eqn:T; [now left|].
    destruct (getToolVariant (ty node)) as [toolVariant|] eqn:V; [|now left].
    destruct (isConnectedOnlyToAIInfrastructure (nm node) (w_connections w)) eqn:C;
      [|now left].
    right. exists toolVariant. simpl. repeat split; auto.
    + now apply getToolVariant_capable in V.
    + intros cs src ps c Hcs Hin Hc Htouch.
      destruct (isAIPort (c_type c)) eqn:P; [reflexivity|].
      rewrite Hcs in C.
      rewrite (connectedOnlyToAI_main (nm node) cs src ps c Hin Hc P Htouch) in C.
      discriminate.
  - split; [reflexivity|]. induction (w_nodes w); constructor; auto.
Qed.

(** ** Removal of dangling and repeated edges *)

Lemma cleanSlot_spec (nodes : list Node) (src : string) (slot : list Conn) :
  forall seen,
    (forall c, In c (fst (cleanSlot nodes src seen slot)) ->
               In c slot /\ Str.is_empty (c_node c) = false
               /\ hasName nodes (c_node c) = true
               /\ ~ In (connectionKey src c) seen)
    /\ List.NoDup (map (connectionKey src) (fst (cleanSlot nodes src seen slot))).
Proof.
  induction slot as [|c rest IH]; intros seen; simpl.
  - split; [intros c []|constructor].
  - destruct (Str.is_empty (c_node c)) eqn:E; simpl.
    { destruct (cleanSlot nodes src seen rest) as [rest' fs] eqn:R.
      specialize (IH seen). rewrite R in IH. simpl in *.
      split; [|apply IH]. intros c0 H0. destruct IH as [IH _].
      specialize (IH c0 H0). tauto. }
    destruct (hasName nodes (c_node c)) eqn:N; simpl.
    2:{ destruct (cleanSlot nodes src seen rest) as [rest' fs] eqn:R.
        specialize (IH seen). rewrite R in IH. simpl in *.
        split; [|apply IH]. intros c0 H0. destruct IH as [IH _].
        specialize (IH c0 H0). tauto. }
    destruct (Str.mem (connectionKey src c) seen) eqn:M.
    { destruct (cleanSlot nodes src seen rest) as [rest' fs] eqn:R.
      specialize (IH seen). rewrite R in IH. simpl in *.
      split; [|apply IH]. intros c0 H0. destruct IH as [IH _].
      specialize (IH c0 H0). tauto. }
    destruct (cleanSlot nodes src (seen ++ [connectionKey src c]) rest)
      as [rest' fs] eqn:R.
    specialize (IH (seen ++ [connectionKey src c])). rewrite R in IH. simpl in *.
    destruct IH as [IH ND]. split.
    + intros c0 [<-|H0].
      * split; [now left|]. split; [exact E|]. split; [exact N|].
        intros Hin. apply mem_In in Hin. congruence.
      * destruct (IH c0 H0) as (A & B & C & D).
        split; [now right|]. split; [exact B|]. split; [exact C|].
        intros Hin. apply D. apply in_or_app. now left.
    + constructor; [|exact ND]. intros Hin. apply in_map_iff in Hin as [c0 [K H0]].
      destruct (IH c0 H0) as (_ & _ & _ & D). apply D. rewrite K.
      apply in_or_app. right. now left.
Qed.

Lemma cleanConnections_entries (w : Workflow) :
  w_nodes (fst (cleanConnections w)) = w_nodes w
  /\ Forall (fun kv =>
               hasName (w_nodes w) (fst kv) = true
               /\ Forall (fun pk =>
                            Forall (fun slot =>
                                      List.NoDup (map (connectionKey (fst kv)) slot)
                                      /\ Forall (fun c => hasName (w_nodes w) (c_node c) = true)
                                                slot)
                                   (snd pk))
                         (snd kv))
            (conns_of (fst (cleanConnections w))).
Proof.
  unfold cleanConnections, conns_of.
  destruct (w_connections w) as [cs|] eqn:E; simpl.
  2:{ rewrite E. simpl. split; [reflexivity|constructor]. }
  split; [reflexivity|]. clear E.
  induction cs as [|[src ps] cs IH]; simpl; [constructor|].
  destruct (hasName (w_nodes w) src) eqn:N; simpl; [|exact IH].
  constructor; [|exact IH]. simpl. split; [exact N|].
  apply List.Forall_forall. intros pk Hpk.
  apply in_map_iff in Hpk as [x [<- Hx]]. apply in_map_iff in Hx as [pk [<- Hpk]].
  simpl. apply List.Forall_forall. intros slot Hslot.
  apply in_map_iff in Hslot as [x [<- Hx]]. apply in_map_iff in Hx as [slot [<- Hslot]].
  destruct (cleanSlot_spec (w_nodes w) src slot []) as [A B].
  split; [exact B|]. apply List.Forall_forall. intros c Hc. now apply A.
Qed.

(** X5.  After the removal of invalid and duplicate connections in
    [applyAutoFixes], every source and every target names a step, no output
    slot holds two edges with the same connection key, the steps are as
    before and every edge left was an edge before. *)
Theorem cleanConnections_sound (w : Workflow) :
  w_nodes (fst (cleanConnections w)) = w_nodes w
  /\ Forall (fun kv =>
               hasName (w_nodes w) (fst kv) = true
               /\ Forall (fun pk =>
                            Forall (fun slot =>
                                      List.NoDup (map (connectionKey (fst kv)) slot)
                                      /\ Forall (fun c => hasName (w_nodes w) (c_node c) = true)
                                                slot)
                                   (snd pk))
                         (snd kv))
            (conns_of (fst (cleanConnections w)))
  /\ incl (edges (conns_of (fst (cleanConnections w)))) (edges (conns_of w)).
Proof.
  destruct (cleanConnections_entries w) as [Hnodes Hentries].
  split; [exact Hnodes|]. split; [exact Hentries|]. clear Hnodes Hentries.
  unfold cleanConnections, conns_of.
  destruct (w_connections w) as [cs|] eqn:E; simpl.
  2:{ rewrite E. simpl. intros e []. }
  clear E. induction cs as [|[src ps] cs IH]; simpl; [intros e []|].
  destruct (hasName (w_nodes w) src) eqn:N; simpl.
  - intros e He. unfold edges in *. simpl in *. apply in_app_iff in He as [He|He].
    + apply in_or_app. left. unfold edges_of_ports in *.
      apply in_flat_map in He as [pk' [Hpk' He]].
      apply in_map_iff in Hpk' as [x [<- Hx]]. apply in_map_iff in Hx as [pk [<- Hpk]].
      simpl in He. apply in_map_iff in He as [c [<- Hc]].
      apply in_flat_map. exists pk. split; [exact Hpk|].
      apply in_map_iff. exists c. split; [reflexivity|].
      apply in_concat in Hc as [slot' [Hslot' Hc]].
      apply in_map_iff in Hslot' as [x [<- Hx]].
      apply in_map_iff in Hx as [slot [<- Hslot]].
      apply in_concat. exists slot. split; [exact Hslot|].
      now apply (cleanSlot_spec (w_nodes w) src slot []).
    + apply in_or_app. right. now apply IH.
  - intros e He. unfold edges in *. simpl. apply in_or_app. right. now apply IH.
Qed.

(** ** The second pass over the steps *)

Lemma tableName_nonempty (t s : string) : tableName t = Some s -> Str.is_empty s = false.
Proof.
  unfold tableName. destruct (find _ nameTable) as [kv|] eqn:F; [|discriminate].
  intros [= <-]. apply find_some in F as [F _].
  assert (A : forallb (fun kv => negb (Str.is_empty (snd kv))) nameTable = true)
    by reflexivity.
  rewrite forallb_forall in A. specialize (A _ F). now destruct (Str.is_empty (snd kv)).
Qed.

Lemma generateDescriptiveName_nonempty (node : Node) (index : nat) :
  Str.is_empty (generateDescriptiveName node index) = false.
Proof.
  unfold generateDescriptiveName.
  destruct (tableName (ty node)) as [s|] eqn:T; [now apply tableName_nonempty in T|].
  cbv zeta. now destruct (Str.is_empty (titleOfType (ty node))) eqn:E.
Qed.

Lemma is_empty_append (a b : string) :
  Str.is_empty a = false -> Str.is_empty (a +:+ b) = false.
Proof. now destruct a. Qed.

Lemma uniquify_from_nonempty (base : string) (used : list string) :
  Str.is_empty base = false ->
  forall fuel counter cur,
    Str.is_empty cur = false ->
    Str.is_empty (uniquify_from fuel base used counter cur) = false.
Proof.
  intros Hb. induction fuel as [|fuel IH]; intros counter cur Hc; simpl.
  - now destruct (Str.mem cur used).
  - destruct (Str.mem cur used); [|exact Hc]. apply IH. now apply is_empty_append.
Qed.

Lemma uniquify_nonempty (base : string) (used : list string) :
  Str.is_empty base = false -> Str.is_empty (uniquify base used) = false.
Proof. intros H. now apply uniquify_from_nonempty. Qed.

Lemma fixType_spec (node : Node) :
  let n := fst (fixType node) in
  falsy (n_type n) = false /\ Str.includes (ty n) "." = true
  /\ n_name n = n_name node /\ n_id n = n_id node /\ n_position n = n_position node
  /\ n_parameters n = n_parameters node /\ n_credentials n = n_credentials node.
Proof.
  unfold fixType. destruct (falsy (n_type node)) eqn:F; simpl.
  - now repeat split.
  - rewrite F. simpl. destruct (Str.includes (ty node) ".") eqn:I; simpl.
    + now repeat split.
    + split; [reflexivity|]. split; [|now repeat split].
      now destruct (EmptyString +:+ ty node).
Qed.

Lemma fixName_spec (counts : Dict.t nat) (i : nat) (nodeNames : list string) (node : Node) :
  let n := fst (fixName counts i nodeNames node) in
  falsy (n_name n) = false
  /\ n_type n = n_type node /\ n_id n = n_id node /\ n_position n = n_position node
  /\ n_parameters n = n_parameters node /\ n_credentials n = n_credentials node.
Proof.
  unfold fixName, needsRename. destruct (falsy (n_name node)) eqn:F; simpl.
  - split; [|now repeat split]. apply uniquify_nonempty, generateDescriptiveName_nonempty.
  - destruct (_ || _); simpl; [|now repeat split].
    split; [|now repeat split]. apply uniquify_nonempty, generateDescriptiveName_nonempty.
Qed.

Lemma fixId_spec (i : nat) (node : Node) :
  let n := fst (fixId i node) in
  falsy (n_id n) = false
  /\ n_name n = n_name node /\ n_type n = n_type node /\ n_position n = n_position node
  /\ n_parameters n = n_parameters node /\ n_credentials n = n_credentials node.
Proof.
  unfold fixId. destruct (falsy (n_id node)) eqn:F; simpl; now repeat split.
Qed.

Lemma fixPosition_spec (i : nat) (node : Node) :
  let n := fst (fixPosition i node) in
  (exists x y, n_position n = Some [x; y])
  /\ n_name n = n_name node /\ n_type n = n_type node /\ n_id n = n_id node
  /\ n_parameters n = n_parameters node /\ n_credentials n = n_credentials node.
Proof.
  unfold fixPosition.
  destruct (n_position node) as [[|x [|y [|z p]]]|] eqn:P; simpl;
    (split; [eauto|now repeat split]).
Qed.

Lemma fixParameters_spec (node : Node) :
  let n := fst (fixParameters node) in
  match n_parameters n with Some (JObj _) | Some (JArr _) => True | _ => False end
  /\ n_name n = n_name node /\ n_type n = n_type node /\ n_id n = n_id node
  /\ n_position n = n_position node /\ n_credentials n = n_credentials node.
Proof.
  unfold fixParameters.
  destruct (n_parameters node) as [[]|] eqn:P; simpl; rewrite ?P; now repeat split.
Qed.

Lemma fixPlaceholders_spec (node : Node) :
  let n := fst (fixPlaceholders node) in
  match n_parameters node with Some (JObj _) | Some (JArr _) => True | _ => False end ->
  match n_parameters n with
  | Some (JObj ps) => Forall (fun kv => isEmptyString (snd kv) = false) ps
  | Some (JArr l) => Forall (fun v => isEmptyString v = false) l
  | _ => False
  end
  /\ n_name n = n_name node /\ n_type n = n_type node /\ n_id n = n_id node
  /\ n_position n = n_position node /\ n_credentials n = n_credentials node.
Proof.
  unfold fixPlaceholders.
  destruct (n_parameters node) as [[| | | |l|ps]|] eqn:P; simpl; try tauto; intros _.
  - split; [|now repeat split]. apply List.Forall_forall. intros v Hv.
    apply list_elem_of_In, elem_of_lookup_imap in Hv as (k & v0 & -> & _).
    now destruct (isEmptyString v0) eqn:E.
  - split; [|now repeat split]. apply List.Forall_forall. intros kv Hkv.
    apply in_map_iff in Hkv as [kv0 [<- _]].
    now destruct (isEmptyString (snd kv0)) eqn:E.
Qed.

Lemma fixCredentials_spec (i : nat) (node : Node) :
  let n := fst (fixCredentials i node) in
  n_name n = n_name node /\ n_type n = n_type node /\ n_id n = n_id node
  /\ n_position n = n_position node /\ n_parameters n = n_parameters node.
Proof.
  unfold fixCredentials. cbv zeta.
  destruct (find _ credentialMappings) as [[k [t c]]|]; [|now repeat split].
  destruct (match n_credentials node with Some c0 => truthy c0 | None => false end);
    now repeat split.
Qed.

Lemma fixNode_repaired (counts : Dict.t nat) (i : nat) (nodeNames : list string)
    (node : Node) :
  repaired (fst (fixNode counts i nodeNames node)).
Proof.
  unfold fixNode.
  pose proof (fixType_spec node) as H1. destruct (fixType node) as [n1 f1].
  pose proof (fixName_spec counts i nodeNames n1) as H2.
  destruct (fixName counts i nodeNames n1) as [n2 f2].
  pose proof (fixId_spec i n2) as H3. destruct (fixId i n2) as [n3 f3].
  pose proof (fixPosition_spec i n3) as H4. destruct (fixPosition i n3) as [n4 f4].
  pose proof (fixParameters_spec n4) as H5. destruct (fixParameters n4) as [n5 f5].
  pose proof (fixPlaceholders_spec n5) as H6. destruct (fixPlaceholders n5) as [n6 f6].
  pose proof (fixCredentials_spec i n6) as H7. destruct (fixCredentials i n6) as [n7 f7].
  simpl in *.
  destruct H1 as (T1 & T2 & _), H2 as (N2 & E2 & _), H3 as (I3 & A3 & B3 & _),
    H4 as (P4 & A4 & B4 & C4 & _), H5 as (Q5 & A5 & B5 & C5 & D5 & _).
  destruct (H6 Q5) as (Q6 & A6 & B6 & C6 & D6 & _).
  destruct H7 as (A7 & B7 & C7 & D7 & E7).
  unfold repaired, ty in *.
  rewrite A7, B7, C7, D7, E7, A6, B6, C6, D6, A5, B5, C5, D5, A4, B4, C4, A3, B3, E2.
  now repeat split.
Qed.

(** X6.  The second pass of [applyAutoFixes] keeps the number of steps
    and leaves every step with a name, a kind that contains a dot, an
    identifier, a position of two coordinates and a parameter bag without an
    empty string at its top level. *)
Theorem fixNodes_repaired (counts : Dict.t nat) (nodes : list Node) :
  forall (i : nat) (nodeNames : list string),
    length (fst (fixNodes counts i nodeNames nodes)) = length nodes
    /\ Forall repaired (fst (fixNodes counts i nodeNames nodes)).
Proof.
  induction nodes as [|node rest IH]; intros i nodeNames; simpl.
  - split; [reflexivity|constructor].
  - pose proof (fixNode_repaired counts i nodeNames node) as H.
    destruct (fixNode counts i nodeNames node) as [node' f].
    specialize (IH (S i) (nodeNames ++ [nm node'])).
    destruct (fixNodes counts (S i) (nodeNames ++ [nm node']) rest) as [rest' fs].
    simpl in *. destruct IH as [L F]. split; [now rewrite L|now constructor].
Qed.

(** ** Deprecated kinds *)

Lemma falsy_ty (node : Node) :
  falsy (n_type node) = true -> ty node = EmptyString.
Proof. unfold falsy, ty. destruct (n_type node) as [[|c s]|]; simpl; congruence. Qed.

Lemma deprecated_name (t newType : string) :
  Dict.get t DEPRECATED_NODES = Some newType ->
  getSuggestedNodeName (Some newType) = "OpenAI Chat Model".
Proof.
  intros H. apply get_in in H.
  assert (A : forallb (fun kv => String.eqb (getSuggestedNodeName (Some (snd kv)))
                                   "OpenAI Chat Model") DEPRECATED_NODES = true)
    by reflexivity.
  rewrite forallb_forall in A. specialize (A _ H). now apply String.eqb_eq in A.
Qed.

(** X7.  [replaceDeprecatedNodes] rewrites a step of a deprecated kind
    to the replacement kind and names it [OpenAI Chat Model], leaves every
    other step and the connections as they are, and afterwards no step is of
    a deprecated kind. *)
Theorem replaceDeprecatedNodes_result (w : Workflow) :
  w_connections (fst (replaceDeprecatedNodes w)) = w_connections w
  /\ Forall2
       (fun node node' =>
          match Dict.get (ty node) DEPRECATED_NODES with
          | Some newType =>
              node' = set_name "OpenAI Chat Model" (set_type newType node)
          | None => node' = node
          end)
       (w_nodes w) (w_nodes (fst (replaceDeprecatedNodes w)))
  /\ Forall (fun node' => Dict.get (ty node') DEPRECATED_NODES = None)
            (w_nodes (fst (replaceDeprecatedNodes w))).
Proof.
  unfold replaceDeprecatedNodes. simpl. split; [reflexivity|].
  rewrite map_map.
  assert (H : forall node,
             match Dict.get (ty node) DEPRECATED_NODES with
             | Some newType =>
                 fst (replaceDeprecated node)
                 = set_name "OpenAI Chat Model" (set_type newType node)
             | None => fst (replaceDeprecated node) = node
             end
             /\ Dict.get (ty (fst (replaceDeprecated node))) DEPRECATED_NODES = None).
  { intros node. unfold replaceDeprecated.
    destruct (falsy (n_type node)) eqn:F.
    - cbn [fst]. rewrite (falsy_ty node F). simpl. split; reflexivity.
    - destruct (Dict.get (ty node) DEPRECATED_NODES) as [newType|] eqn:D; simpl.
      + rewrite (deprecated_name _ _ D). split; [reflexivity|].
        exact (deprecated_target _ _ D).
      + split; [reflexivity|exact D]. }
  split.
  - induction (w_nodes w) as [|node nodes IH]; cbn [map]; constructor; [|exact IH].
    apply H.
  - apply List.Forall_forall. intros node' Hin.
    apply in_map_iff in Hin as [node [<- _]]. apply H.
Qed.

(** ** Requirements of an agent *)

Lemma findNode_sound (name : string) (nodes : list Node) (n : Node) :
  findNode name nodes = Some n -> In n nodes /\ n_name n = Some name.
Proof.
  unfold findNode. intros H. apply find_some in H as [Hin Hn]. split; [exact Hin|].
  destruct (n_name n) as [s|]; [|discriminate]. apply String.eqb_eq in Hn. now subst.
Qed.

Lemma findConnectedNodeByType_sound (w : Workflow) (targetName connectionType : string)
    (n : Node) :
  findConnectedNodeByType w targetName connectionType = Some n ->
  In n (w_nodes w)
  /\ exists sourceName ps outs c,
       n_name n = Some sourceName
       /\ In (sourceName, ps) (conns_of w)
       /\ Dict.get connectionType ps = Some outs
       /\ In c (concat outs) /\ c_node c = targetName.
Proof.
  unfold findConnectedNodeByType.
  induction (conns_of w) as [|[sourceName ps] cs IH]; simpl; [discriminate|].
  destruct (Dict.get connectionType ps) as [outs|] eqn:G.
  - destruct (existsb _ (concat outs)) eqn:E.
    + intros H. apply findNode_sound in H as [Hin Hn]. split; [exact Hin|].
      apply existsb_exists in E as [c [Hc Ec]]. apply String.eqb_eq in Ec.
      exists sourceName, ps, outs, c. repeat split; auto.
    + intros H. destruct (IH H) as [Hin (s & p & o & c & A & B & C)].
      split; [exact Hin|]. exists s, p, o, c. repeat split; tauto.
  - intros H. destruct (IH H) as [Hin (s & p & o & c & A & B & C)].
    split; [exact Hin|]. exists s, p, o, c. repeat split; tauto.
Qed.

(** X8.  When [validateAIAgentRequirements] reports no error, every AI
    agent step is the target of an [ai_languageModel] edge from a step of one
    of the required model kinds and of an [ai_memory] edge from a step of a
    memory kind. *)
Theorem validateAIAgentRequirements_no_errors (w : Workflow) (agent : Node) :
  fst (validateAIAgentRequirements w) = [] ->
  In agent (w_nodes w) -> isAIAgentNode (ty agent) = true ->
  supplied w (fun t => Str.mem t REQUIRED_MODEL_TYPES) "ai_languageModel" (nm agent)
  /\ supplied w isMemoryNode "ai_memory" (nm agent).
Proof.
  unfold validateAIAgentRequirements. simpl. intros H Hin Hagent.
  assert (Hd : fst (agentDiagnostics w agent) = []).
  { destruct (fst (agentDiagnostics w agent)) as [|e l] eqn:D; [reflexivity|].
    assert (He : In e (concat (map fst (map (agentDiagnostics w)
                  (List.filter (fun n => isAIAgentNode (ty n)) (w_nodes w)))))).
    { apply in_concat. exists (e :: l). split; [|now left].
      rewrite map_map. apply in_map_iff. exists agent. split; [exact D|].
      apply filter_In. now split. }
    rewrite H in He. destruct He. }
  unfold agentDiagnostics in Hd. cbv zeta in Hd. cbn [fst] in Hd.
  apply app_eq_nil in Hd as [Hm Hy]. split.
  - destruct (findConnectedNodeByType w (nm agent) "ai_languageModel") as [modelNode|] eqn:F;
      [|discriminate].
    destruct (Str.mem (ty modelNode) REQUIRED_MODEL_TYPES) eqn:M; [|discriminate].
    apply findConnectedNodeByType_sound in F as [Hn (s & ps & outs & c & A & B & C & D & E)].
    exists modelNode, s, ps, outs, c. repeat split; auto.
  - destruct (findConnectedNodeByType w (nm agent) "ai_memory") as [memoryNode|] eqn:F;
      [|discriminate].
    destruct (isMemoryNode (ty memoryNode)) eqn:M; [|discriminate].
    apply findConnectedNodeByType_sound in F as [Hn (s & ps & outs & c & A & B & C & D & E)].
    exists memoryNode, s, ps, outs, c. repeat split; auto.
Qed.

(** The agent of [Scenario.agentWithOrphans] has its model and its memory. *)
Lemma validateAIAgentRequirements_no_errors_agent :
  supplied Scenario.agentWithOrphans (fun t => Str.mem t REQUIRED_MODEL_TYPES)
           "ai_languageModel" (nm Sample.agent)
  /\ supplied Scenario.agentWithOrphans isMemoryNode "ai_memory" (nm Sample.agent).
Proof.
  apply (validateAIAgentRequirements_no_errors Scenario.agentWithOrphans Sample.agent).
  - reflexivity.
  - right. now left.
  - reflexivity.
Defined.

(** ** Connection checks *)

Lemma flat_map_nil {A B} (f : A -> list B) (l : list A) :
  flat_map f l = [] <-> Forall (fun x => f x = []) l.
Proof.
  induction l as [|a l IH]; simpl.
  - split; [constructor|reflexivity].
  - split.
    + intros H. apply app_eq_nil in H as [Ha Hl]. constructor; [exact Ha|now apply IH].
    + intros H. inversion H as [|? ? Ha Hl]; subst. rewrite Ha. now apply IH.
Qed.

Lemma hangingError_nil (node : Node) :
  hangingError node = [] <-> ty node = "n8n-nodes-base.stickyNote".
Proof.
  unfold hangingError. cbv zeta.
  destruct (String.eqb_spec (ty node) "n8n-nodes-base.stickyNote") as [E|E].
  - split; auto.
  - destruct (isTriggerNode (ty node)); [split; [discriminate|contradiction]|].
    destruct (isToolNode (ty node)); [split; [discriminate|contradiction]|].
    destruct (isLanguageModelNode (ty node)); [split; [discriminate|contradiction]|].
    destruct (isMemoryNode (ty node)); split; (discriminate || contradiction).
Qed.

Lemma referenceErrors_nil (nodes : list Node) (cs : Connections) :
  flat_map
    (fun kv =>
       if hasName nodes (fst kv) then
         flat_map
           (fun c =>
              if hasName nodes (c_node c) then []
              else [ "❌ CRITICAL: Connection target " +:+ Str.quoted (c_node c)
                     +:+ " does not match any node name (from " +:+ Str.quoted (fst kv)
                     +:+ ")" ])
           (conns_in (snd kv))
       else [ "❌ CRITICAL: Connection source " +:+ Str.quoted (fst kv)
              +:+ " does not match any node name" ])
    cs = []
  <-> wellReferenced nodes cs.
Proof.
  rewrite flat_map_nil. unfold wellReferenced. split; intros H.
  - eapply List.Forall_impl; [|exact H]. intros kv Hkv. simpl in Hkv.
    destruct (hasName nodes (fst kv)); [|discriminate]. split; [reflexivity|].
    apply flat_map_nil in Hkv. eapply List.Forall_impl; [|exact Hkv].
    intros c Hc. simpl in Hc. now destruct (hasName nodes (c_node c)).
  - eapply List.Forall_impl; [|exact H]. intros kv [Hk Hc]. simpl. rewrite Hk.
    apply flat_map_nil. eapply List.Forall_impl; [|exact Hc].
    intros c Hn. simpl in Hn. now rewrite Hn.
Qed.

Lemma connectedNodes_In (nodes : list Node) (cs : Connections) (s : string) :
  wellReferenced nodes cs ->
  In s (flat_map
          (fun kv =>
             if hasName nodes (fst kv) then
               fst kv :: map c_node (List.filter (fun c => hasName nodes (c_node c))
                                                 (conns_in (snd kv)))
             else [])
          cs)
  <-> In s (map fst cs) \/ In s (map c_node (flat_map (fun kv => conns_in (snd kv)) cs)).
Proof.
  intros H. induction H as [|kv cs [Hk Hc] Hcs IH]; simpl; [tauto|].
  rewrite Hk. simpl. rewrite map_app, !in_app_iff, IH.
  assert (E : List.filter (fun c => hasName nodes (c_node c)) (conns_in (snd kv))
              = conns_in (snd kv)).
  { clear -Hc. induction Hc as [|c l Hx Hl IHl]; simpl; [reflexivity|].
    now rewrite Hx, IHl. }
  rewrite E. tauto.
Qed.

(** X9.  [validateConnections] reports no error exactly when both ends of
    every edge name a step and every step is a sticky note or is named as the
    source or the target of an edge. *)
Theorem validateConnections_no_errors (nodes : list Node) (cs : Connections) :
  fst (validateConnections nodes cs) = []
  <-> wellReferenced nodes cs /\ Forall (attached cs) nodes.
Proof.
  unfold validateConnections. cbv zeta. cbn [fst]. split.
  - intros H. apply app_eq_nil in H as [Hr Hh].
    apply referenceErrors_nil in Hr. split; [exact Hr|].
    rewrite flat_map_nil in Hh. apply List.Forall_forall. intros n Hn.
    rewrite List.Forall_forall in Hh. unfold attached.
    destruct (String.eqb_spec (ty n) "n8n-nodes-base.stickyNote") as [E|E]; [now left|].
    right. destruct (n_name n) as [s|] eqn:N.
    + exists s. split; [reflexivity|]. apply (connectedNodes_In nodes cs s Hr).
      apply mem_In. match goal with |- ?m = true => destruct m eqn:M end; [reflexivity|].
      exfalso. apply E. apply hangingError_nil. apply Hh.
      apply filter_In. split; [exact Hn|]. rewrite N. unfold Str.mem in *. now rewrite M.
    + exfalso. apply E. apply hangingError_nil. apply Hh.
      apply filter_In. split; [exact Hn|]. now rewrite N.
  - intros [Hr Ha]. apply referenceErrors_nil in Hr as Hr'. rewrite Hr'. simpl.
    apply flat_map_nil. apply List.Forall_forall. intros n Hn.
    apply filter_In in Hn as [Hn Hf]. rewrite List.Forall_forall in Ha.
    destruct (Ha n Hn) as [E|[s [N Hs]]]; [now apply hangingError_nil|].
    rewrite N in Hf. apply (connectedNodes_In nodes cs s Hr) in Hs.
    apply mem_In in Hs. unfold Str.mem in *. rewrite Hs in Hf. discriminate.
Qed.

Lemma cleanConnections_wellReferenced (w : Workflow) :
  wellReferenced (w_nodes (fst (cleanConnections w))) (conns_of (fst (cleanConnections w))).
Proof.
  destruct (cleanConnections_entries w) as (Hn & Hf). rewrite Hn.
  unfold wellReferenced. eapply List.Forall_impl; [|exact Hf].
  intros kv [Hk Hp]. split; [exact Hk|].
  apply List.Forall_forall. intros c Hc. unfold conns_in in Hc.
  apply in_flat_map in Hc as [pk [Hpk Hc]]. apply in_concat in Hc as [slot [Hslot Hc]].
  rewrite List.Forall_forall in Hp. specialize (Hp pk Hpk).
  rewrite List.Forall_forall in Hp. destruct (Hp slot Hslot) as [_ Hs].
  rewrite List.Forall_forall in Hs. now apply Hs.
Qed.

(** X10.  On the connections that the removal pass of [applyAutoFixes]
    leaves, [validateConnections] reports no dangling reference: each of its
    errors is the hanging-step error of a step. *)
Theorem cleanConnections_only_hanging (w : Workflow) :
  Forall (fun e => exists n, In n (w_nodes w) /\ In e (hangingError n))
         (fst (validateConnections (w_nodes (fst (cleanConnections w)))
                                   (conns_of (fst (cleanConnections w))))).
Proof.
  pose proof (cleanConnections_wellReferenced w) as H.
  assert (Hn : w_nodes (fst (cleanConnections w)) = w_nodes w)
    by apply cleanConnections_entries.
  rewrite Hn in *. unfold validateConnections. cbv zeta. cbn [fst].
  apply referenceErrors_nil in H. rewrite H. simpl.
  apply List.Forall_forall. intros e He. apply in_flat_map in He as [n [Hin He]].
  apply filter_In in Hin as [Hin _]. now exists n.
Qed.

(** ** The first step of the validator *)

Lemma scanNodes_grows (nodes : list (option Node)) :
  forall i errs errs', scanNodes i nodes errs = inr errs' -> exists l, errs' = errs ++ l.
Proof.
  induction nodes as [|[node|] nodes IH]; intros i errs errs'; simpl.
  - intros [= <-]. exists []. now rewrite app_nil_r.
  - destruct (match n_parameters node with Some p => negb (typeof_object p) | None => false end);
      [discriminate|].
    intros H. apply IH in H as [l ->]. rewrite <- app_assoc. eauto.
  - discriminate.
Qed.

Lemma scanNodes_complete (nodes : list (option Node)) :
  forall i, scanNodes i nodes [] = inr [] <-> forallb complete nodes = true.
Proof.
  induction nodes as [|[node|] nodes IH]; intros i; simpl.
  - tauto.
  - destruct (n_parameters node) as [p|]; simpl.
    + destruct (typeof_object p); simpl.
      * destruct (falsy (n_name node)); simpl.
        { split; [|discriminate]. intros H. apply scanNodes_grows in H as [l H].
          discriminate. }
        destruct (falsy (n_type node)); simpl.
        { split; [|discriminate]. intros H. apply scanNodes_grows in H as [l H].
          discriminate. }
        destruct (n_position node); simpl.
        { apply IH. }
        split; [|discriminate]. intros H. apply scanNodes_grows in H as [l H].
        discriminate.
      * rewrite !andb_false_r. split; discriminate.
    + destruct (falsy (n_name node)); simpl.
      { split; [|discriminate]. intros H. apply scanNodes_grows in H as [l H].
        discriminate. }
      destruct (falsy (n_type node)); simpl.
      { split; [|discriminate]. intros H. apply scanNodes_grows in H as [l H].
        discriminate. }
      destruct (n_position node); simpl.
      { rewrite ?andb_true_r. apply IH. }
      split; [|discriminate]. intros H. apply scanNodes_grows in H as [l H].
      discriminate.
  - split; discriminate.
Qed.

Lemma objects_complete (nodes : list (option Node)) :
  forallb complete nodes = true -> map Some (objects nodes) = nodes.
Proof.
  induction nodes as [|[node|] nodes IH]; simpl; [reflexivity| |discriminate].
  intros H. apply andb_prop in H as [_ H]. now rewrite IH.
Qed.

Lemma checkedWorkflow_acceptable (workflowJson : Input) :
  match checkedWorkflow workflowJson with
  | inr (raw, workflow) =>
      acceptable workflowJson = true /\ workflowJson = InObject raw
      /\ r_nodes raw = Some (map Some (w_nodes workflow))
      /\ w_name workflow = r_name raw /\ w_connections workflow = r_connections raw
  | inl r => acceptable workflowJson = false /\ exists errs, errs <> [] /\ r = fatal errs
  end.
Proof.
  pose proof (checkedWorkflow_exit workflowJson) as Hexit.
  unfold checkedWorkflow, acceptable in *. destruct workflowJson as [|raw].
  - split; [reflexivity|]. eexists; split; [|reflexivity]. discriminate.
  - destruct (r_nodes raw) as [nodes|] eqn:N.
    2:{ split; [reflexivity|]. eexists; split; [|reflexivity]. discriminate. }
    pose proof (scanNodes_complete nodes 0) as Hc.
    destruct (scanNodes 0 nodes []) as [errs|[|e errs]] eqn:S.
    + split; [|destruct (Hexit _ eq_refl) as (x & -> & Hx); eauto].
      destruct nodes as [|node rest]; [reflexivity|].
      destruct (forallb complete (node :: rest)); [|reflexivity].
      destruct Hc as [_ Hc]. now specialize (Hc eq_refl).
    + destruct nodes as [|node rest].
      * split; [reflexivity|]. eexists; split; [|reflexivity]. discriminate.
      * destruct Hc as [Hc _]. specialize (Hc eq_refl). cbn [w_nodes w_name w_connections].
        rewrite (objects_complete _ Hc). now repeat split.
    + split; [|eexists; split; [|reflexivity]; discriminate].
      destruct nodes as [|node rest]; [reflexivity|].
      destruct (forallb complete (node :: rest)); [|reflexivity].
      destruct Hc as [_ Hc]. now specialize (Hc eq_refl).
Qed.

(** X11.  [validateWorkflow] rejects an input that is not an object,
    that has no [nodes] array or an empty one, or that has a step which is
    not an object, lacks a name, a kind or a position, or carries parameters
    that are not an object: the report is invalid with errors, without
    warnings, fixes or normalized workflow, whatever [autofix] is. *)
Theorem validateWorkflow_rejects_incomplete (workflowJson : Input) :
  acceptable workflowJson = false ->
  exists errs, errs <> []
               /\ forall autofix, validateWorkflow workflowJson autofix = fatal errs.
Proof.
  intros H. pose proof (checkedWorkflow_acceptable workflowJson) as C.
  unfold validateWorkflow.
  destruct (checkedWorkflow workflowJson) as [r|[raw workflow]].
  - destruct C as [_ (errs & Hne & ->)]. exists errs. split; [exact Hne|reflexivity].
  - destruct C as [C _]. congruence.
Qed.

(** A step cut off before its position. *)
Lemma validateWorkflow_rejects_incomplete_truncated :
  exists errs, errs <> []
               /\ forall autofix,
                   validateWorkflow (InObject Sample.truncated) autofix = fatal errs.
Proof.
  apply (validateWorkflow_rejects_incomplete (InObject Sample.truncated)). reflexivity.
Defined.

(** X12.  For every other input, [validateWorkflow] without [autofix]
    returns the input itself as the normalized workflow, with no fix; with
    [autofix] it returns no normalized workflow only when a repair pass has
    thrown, and then the report holds the message of the exception as its
    only error. *)
Theorem validateWorkflow_accepts_complete (raw : RawWorkflow) :
  acceptable (InObject raw) = true ->
  (normalized (validateWorkflow (InObject raw) false) = Some raw
   /\ fixes (validateWorkflow (InObject raw) false) = []
   /\ autofixed (validateWorkflow (InObject raw) false) = false)
  /\ (normalized (validateWorkflow (InObject raw) true) = None ->
      exists workflow message,
        r_nodes raw = Some (map Some (w_nodes workflow))
        /\ applyAutoFixes workflow = inl message
        /\ validateWorkflow (InObject raw) true = fatal [message]).
Proof.
  intros H. pose proof (checkedWorkflow_acceptable (InObject raw)) as C.
  unfold validateWorkflow.
  destruct (checkedWorkflow (InObject raw)) as [r|[raw' workflow]].
  - destruct C as [C _]. congruence.
  - destruct C as (_ & [= <-] & Hn & _). destruct (preChecks workflow) as [errs warns].
    split; [now repeat split|].
    destruct (applyAutoFixes workflow) as [message|fixResult] eqn:A.
    + intros _. now exists workflow, message.
    + discriminate.
Qed.

(** Scenario B is accepted. *)
Lemma validateWorkflow_accepts_complete_single :
  (normalized (validateWorkflow (InObject Scenario.singleGeneric) false)
   = Some Scenario.singleGeneric
   /\ fixes (validateWorkflow (InObject Scenario.singleGeneric) false) = []
   /\ autofixed (validateWorkflow (InObject Scenario.singleGeneric) false) = false)
  /\ (normalized (validateWorkflow (InObject Scenario.singleGeneric) true) = None ->
      exists workflow message,
        r_nodes Scenario.singleGeneric = Some (map Some (w_nodes workflow))
        /\ applyAutoFixes workflow = inl message
        /\ validateWorkflow (InObject Scenario.singleGeneric) true = fatal [message]).
Proof.
  apply (validateWorkflow_accepts_complete Scenario.singleGeneric). reflexivity.
Defined.

(** ** When the repair pipeline returns *)

Lemma Forall_set {V} (P : V -> Prop) (k : string) (v : V) (o : Dict.t V) :
  Forall (fun kv => P (snd kv)) o -> P v -> Forall (fun kv => P (snd kv)) (Dict.set k v o).
Proof.
  intros Ho Hv. induction o as [|[k' v'] o IH]; simpl.
  - constructor; [exact Hv|constructor].
  - inversion Ho as [|? ? H1 H2]; subst.
    destruct (String.eqb k k'); constructor; auto.
Qed.

Lemma Forall_remove {V} (P : V -> Prop) (k : string) (o : Dict.t V) :
  Forall (fun kv => P (snd kv)) o -> Forall (fun kv => P (snd kv)) (Dict.remove k o).
Proof.
  intros Ho. unfold Dict.remove. apply List.Forall_forall. intros kv Hin.
  apply filter_In in Hin as [Hin _]. rewrite List.Forall_forall in Ho. now apply Ho.
Qed.

Lemma Forall_get {V} (P : V -> Prop) (k : string) (v : V) (o : Dict.t V) :
  Forall (fun kv => P (snd kv)) o -> Dict.get k o = Some v -> P v.
Proof.
  intros Ho Hget. apply get_in in Hget. rewrite List.Forall_forall in Ho.
  exact (Ho _ Hget).
Qed.

Lemma slotted_default (k : string) (cs : Connections) :
  slotted cs -> Forall (fun pk : string * Outputs => snd pk <> []) (default [] (Dict.get k cs)).
Proof.
  intros H. destruct (Dict.get k cs) as [ps|] eqn:E; simpl; [|constructor].
  exact (Forall_get (fun ps => Forall (fun pk : string * Outputs => snd pk <> []) ps) k ps cs H E).
Qed.

Lemma autoConnect_shaped (name : option string) (n : nat) (w : Workflow) :
  shaped name n w -> shaped name n (fst (autoConnect w)).
Proof.
  unfold autoConnect, shaped. intros (Hname & Hn & Hs).
  destruct ((1 <? length (w_nodes w))%nat && negb (nonEmpty (conns_of w))); [|now repeat split].
  destruct (List.filter (fun n0 => isTriggerNode (ty n0)) (w_nodes w)) as [|t ts];
    [now repeat split|].
  assert (Hchain : forall links cs,
             slotted cs ->
             slotted (fold_left (fun cs (st : Node * Node) =>
                                   Dict.set (nm (fst st)) (mainEdge (nm (snd st))) cs)
                                links cs)).
  { induction links as [|st links IH]; intros cs Hcs; simpl; [exact Hcs|].
    apply IH. apply (Forall_set (fun ps => Forall (fun pk : string * Outputs => snd pk <> []) ps));
      [exact Hcs|].
    constructor; [discriminate|constructor]. }
  destruct (List.filter (fun n0 => negb (isTriggerNode (ty n0))) (w_nodes w)) as [|a acts];
    [destruct ts; now repeat split|].
  destruct ts as [|t2 ts]; [destruct acts as [|a2 acts]|]; cbn [fst];
    (split; [exact Hname|]; split; [exact Hn|]);
    change (conns_of (set_connections ?c w)) with c.
  - constructor; [|constructor]. constructor; [discriminate|constructor].
  - apply Hchain. constructor.
  - apply Hchain. constructor.
Qed.

Lemma cleanConnections_shaped (name : option string) (n : nat) (w : Workflow) :
  shaped name n w -> shaped name n (fst (cleanConnections w)).
Proof.
  unfold cleanConnections, shaped, conns_of. intros (Hname & Hn & Hs).
  destruct (w_connections w) as [cs|] eqn:E; simpl; [|rewrite E; now repeat split].
  split; [exact Hname|]. split; [exact Hn|]. simpl in Hs. unfold slotted in *. clear E.
  induction cs as [|[src ps] cs IH]; simpl; [constructor|].
  apply List.Forall_cons_iff in Hs as [H1 H2]. simpl in H1.
  destruct (hasName (w_nodes w) src); simpl; [|now apply IH].
  constructor; [|now apply IH]. simpl.
  apply List.Forall_forall. intros pk' Hpk'.
  apply in_map_iff in Hpk' as [x [<- Hx]]. apply in_map_iff in Hx as [pk [<- Hpk]].
  simpl. rewrite List.Forall_forall in H1. specialize (H1 pk Hpk).
  destruct (snd pk); [contradiction|discriminate].
Qed.

Lemma replaceDeprecatedNodes_shaped (name : option string) (n : nat) (w : Workflow) :
  shaped name n w -> shaped name n (fst (replaceDeprecatedNodes w)).
Proof.
  unfold replaceDeprecatedNodes, shaped, conns_of. simpl. intros (Hname & Hn & Hs).
  rewrite !length_map. now repeat split.
Qed.

Lemma removeInvalidAIToolConnections_shaped (name : option string) (n : nat) (w : Workflow) :
  shaped name n w -> shaped name n (fst (removeInvalidAIToolConnections w)).
Proof.
  unfold removeInvalidAIToolConnections, shaped, conns_of. intros (Hname & Hn & Hs).
  destruct (w_connections w) as [cs|] eqn:E; simpl; [|rewrite E; now repeat split].
  split; [exact Hname|]. split; [exact Hn|]. simpl in Hs. unfold slotted in *. rewrite map_map.
  apply List.Forall_forall. intros kv' Hin. apply in_map_iff in Hin as [kv [<- Hin]].
  rewrite List.Forall_forall in Hs. specialize (Hs kv Hin). unfold stripToolPort.
  destruct (Dict.get (fst kv) _) as [t|]; [|exact Hs].
  destruct (negb (toolCapable t) && Dict.has "ai_tool" (snd kv)); [|exact Hs].
  simpl. exact (Forall_remove (fun outs : Outputs => outs <> []) "ai_tool" (snd kv) Hs).
Qed.

Lemma convertRegularNodesToTools_shaped (name : option string) (n : nat) (w : Workflow) :
  shaped name n w -> shaped name n (fst (convertRegularNodesToTools w)).
Proof.
  unfold convertRegularNodesToTools, shaped, conns_of. intros (Hname & Hn & Hs).
  destruct (negb (hasAIAgents w)); simpl; [now repeat split|].
  rewrite !length_map. now repeat split.
Qed.

Lemma removeHardcodedModelParameters_shaped (name : option string) (n : nat) (w : Workflow) :
  shaped name n w -> shaped name n (fst (removeHardcodedModelParameters w)).
Proof.
  unfold removeHardcodedModelParameters, shaped, conns_of. simpl. intros (Hname & Hn & Hs).
  rewrite !length_map. now repeat split.
Qed.

Lemma dropBackwards_slotted (agent tool : string) (cs : Connections) :
  slotted cs -> slotted (dropBackwards agent tool cs).
Proof.
  unfold dropBackwards. intros Hs.
  destruct (Dict.get agent cs) as [ps|] eqn:A; [|exact Hs].
  destruct (Dict.get "ai_tool" ps) as [outs|] eqn:T; [|exact Hs].
  pose proof (Forall_get (fun ps => Forall (fun pk : string * Outputs => snd pk <> []) ps)
                agent ps cs Hs A) as Hps.
  destruct (List.filter _ _) as [|slot outs'] eqn:F.
  - apply (Forall_set (fun ps => Forall (fun pk : string * Outputs => snd pk <> []) ps));
      [exact Hs|].
    exact (Forall_remove (fun outs : Outputs => outs <> []) "ai_tool" ps Hps).
  - apply (Forall_set (fun ps => Forall (fun pk : string * Outputs => snd pk <> []) ps));
      [exact Hs|].
    apply (Forall_set (fun outs : Outputs => outs <> [])); [exact Hps|discriminate].
Qed.

Lemma reverseOne_slotted (st : Connections * list string) (b : Backwards) :
  slotted (fst st) -> exists st', reverseOne st b = inr st' /\ slotted (fst st').
Proof.
  unfold reverseOne. destruct st as [cs fixes]. simpl. intros Hs.
  set (cs1 := dropBackwards (agentName b) (toolName b) cs).
  assert (H1 : slotted cs1) by now apply dropBackwards_slotted.
  destruct (builtin cs1 (toolName b)); [eexists; split; [reflexivity|exact H1]|].
  set (cs2 := match Dict.get (toolName b) cs1 with
              | None => Dict.set (toolName b) [] cs1
              | Some _ => cs1
              end).
  assert (H2 : slotted cs2).
  { unfold cs2. destruct (Dict.get (toolName b) cs1); [exact H1|].
    apply (Forall_set (fun ps => Forall (fun pk : string * Outputs => snd pk <> []) ps));
      [exact H1|constructor]. }
  set (ps := default [] (Dict.get (toolName b) cs2)).
  assert (Hps : Forall (fun pk : string * Outputs => snd pk <> []) ps)
    by apply (slotted_default _ _ H2).
  set (ps1 := match Dict.get "ai_tool" ps with
              | None => Dict.set "ai_tool" [[]] ps
              | Some _ => ps
              end).
  assert (Hps1 : Forall (fun pk : string * Outputs => snd pk <> []) ps1).
  { unfold ps1. destruct (Dict.get "ai_tool" ps); [exact Hps|].
    apply (Forall_set (fun outs : Outputs => outs <> [])); [exact Hps|discriminate]. }
  assert (Hget : exists slot0 rest, Dict.get "ai_tool" ps1 = Some (slot0 :: rest)).
  { unfold ps1. destruct (Dict.get "ai_tool" ps) as [outs|] eqn:G.
    - pose proof (Forall_get (fun outs : Outputs => outs <> []) _ _ _ Hps G) as Hne.
      rewrite G. destruct outs as [|slot0 rest]; [contradiction|eauto].
    - rewrite get_set_eq. eauto. }
  destruct Hget as (slot0 & rest & ->). simpl.
  destruct (existsb _ slot0); eexists; (split; [reflexivity|]); simpl.
  - apply (Forall_set (fun ps => Forall (fun pk : string * Outputs => snd pk <> []) ps));
      assumption.
  - apply (Forall_set (fun ps => Forall (fun pk : string * Outputs => snd pk <> []) ps));
      [exact H2|].
    apply (Forall_set (fun outs : Outputs => outs <> [])); [exact Hps1|discriminate].
Qed.

Lemma foldExc_total {S B} (P : S -> Prop) (f : S -> B -> Exc S) (l : list B) :
  (forall s b, P s -> exists s', f s b = inr s' /\ P s') ->
  forall s, P s -> exists s', foldExc f l s = inr s' /\ P s'.
Proof.
  intros Hf. induction l as [|b l IH]; simpl; intros s Hs; [eauto|].
  destruct (Hf s b Hs) as (s1 & -> & H1). simpl. now apply IH.
Qed.

Lemma fixBackwardsToolConnections_shaped (name : option string) (n : nat) (w : Workflow) :
  shaped name n w ->
  exists r, fixBackwardsToolConnections w = inr r /\ shaped name n (fst r).
Proof.
  unfold fixBackwardsToolConnections, shaped, conns_of. intros (Hname & Hn & Hs).
  destruct (w_connections w) as [cs|] eqn:E; simpl in *.
  - destruct (foldExc_total (fun st => slotted (fst st)) reverseOne
                (findBackwards (nodeTypeMap (w_nodes w)) cs)
                reverseOne_slotted (cs, []) Hs) as (st' & -> & H').
    simpl. eexists. split; [reflexivity|]. now repeat split.
  - eexists. split; [reflexivity|]. simpl. rewrite E. now repeat split.
Qed.

Lemma reposition_length (label : string) (x y : Z) (st : list Node * list string) (i : nat) :
  length (fst (reposition label x y st i)) = length (fst st).
Proof.
  unfold reposition. destruct (fst st !! i) as [node|]; [|reflexivity].
  destruct (_ || _); [|reflexivity]. simpl. apply length_insert.
Qed.

Lemma fold_reposition_length {A} (f : list Node * list string -> A -> list Node * list string)
    (l : list A) :
  (forall st a, length (fst (f st a)) = length (fst st)) ->
  forall st, length (fst (fold_left f l st)) = length (fst st).
Proof.
  intros Hf. induction l as [|a l IH]; intros st; simpl; [reflexivity|].
  now rewrite IH, Hf.
Qed.

Lemma positionAround_length (connections : option Connections)
    (st : list Node * list string) (a : nat) :
  length (fst (positionAround connections st a)) = length (fst st).
Proof.
  unfold positionAround. destruct (fst st !! a) as [agent|]; [|reflexivity]. cbv zeta.
  rewrite !fold_reposition_length; [reflexivity| | |];
    intros; apply reposition_length.
Qed.

Lemma fixNodePositioning_shaped (name : option string) (n : nat) (w : Workflow) :
  shaped name n w -> shaped name n (fst (fixNodePositioning w)).
Proof.
  unfold fixNodePositioning, shaped, conns_of. simpl. intros (Hname & Hn & Hs).
  split; [exact Hname|]. split; [|exact Hs].
  rewrite fold_reposition_length; [exact Hn|]. intros. apply positionAround_length.
Qed.

Lemma renameInConnections_slotted (oldName newName : string) (cs : Connections) :
  slotted cs -> slotted (renameInConnections oldName newName cs).
Proof.
  unfold renameInConnections, mapConns, slotted. intros Hs.
  set (cs1 := match Dict.get oldName cs with
              | Some ps => Dict.remove oldName (Dict.set newName ps cs)
              | None => cs
              end).
  assert (H1 : slotted cs1).
  { unfold cs1. destruct (Dict.get oldName cs) as [ps|] eqn:G; [|exact Hs].
    apply (Forall_remove (fun ps => Forall (fun pk : string * Outputs => snd pk <> []) ps)).
    apply (Forall_set (fun ps => Forall (fun pk : string * Outputs => snd pk <> []) ps));
      [exact Hs|].
    exact (Forall_get (fun ps => Forall (fun pk : string * Outputs => snd pk <> []) ps)
             _ _ _ Hs G). }
  apply List.Forall_forall. intros kv' Hin. apply in_map_iff in Hin as [kv [<- Hin]].
  simpl. apply List.Forall_forall. intros pk' Hpk'.
  apply in_map_iff in Hpk' as [pk [<- Hpk]]. simpl.
  unfold slotted in H1. rewrite List.Forall_forall in H1. specialize (H1 kv Hin).
  rewrite List.Forall_forall in H1. specialize (H1 pk Hpk).
  destruct (snd pk); [contradiction|discriminate].
Qed.

Lemma renameGeneric_shaped (nodes : list Node) :
  forall st,
    slotted (default [] (rs_connections st)) ->
    length (fst (renameGeneric nodes st)) = length nodes
    /\ slotted (default [] (rs_connections (snd (renameGeneric nodes st)))).
Proof.
  induction nodes as [|node rest IH]; intros st Hs; simpl; [now repeat split|].
  destruct (falsy (n_name node) || isGeneric (n_name node)).
  - match goal with
    | |- context [renameGeneric rest ?st'] =>
        specialize (IH st'); destruct (renameGeneric rest st') as [rest' st'']
    end.
    simpl in *. destruct IH as [IH1 IH2]; [|split; [now rewrite IH1|exact IH2]].
    destruct (rs_connections st) as [cs|]; simpl in *; [|constructor].
    destruct (falsy (n_name node)); simpl; [exact Hs|].
    now apply renameInConnections_slotted.
  - specialize (IH st Hs). destruct (renameGeneric rest st) as [rest' st'].
    simpl in *. destruct IH as [IH1 IH2]. split; [now rewrite IH1|exact IH2].
Qed.

Lemma ensureDescriptiveNames_shaped (name : option string) (n : nat) (w : Workflow) :
  shaped name n w -> shaped name n (fst (ensureDescriptiveNames w)).
Proof.
  unfold ensureDescriptiveNames, shaped, conns_of. intros (Hname & Hn & Hs). cbv zeta.
  match goal with
  | |- context [renameGeneric (w_nodes w) ?st] =>
      destruct (renameGeneric_shaped (w_nodes w) st Hs) as [H1 H2];
      destruct (renameGeneric (w_nodes w) st) as [nodes' st']
  end.
  simpl in *. split; [exact Hname|]. split; [congruence|exact H2].
Qed.

Lemma normalizeAIToolIndexes_shaped (name : option string) (n : nat) (w : Workflow) :
  shaped name n w -> shaped name n (fst (normalizeAIToolIndexes w)).
Proof.
  unfold normalizeAIToolIndexes, shaped, conns_of. intros (Hname & Hn & Hs).
  destruct (w_connections w) as [cs|] eqn:E; simpl; [|rewrite E; now repeat split].
  split; [exact Hname|]. split; [exact Hn|]. simpl in Hs. unfold slotted in *. rewrite map_map.
  apply List.Forall_forall. intros kv' Hin. apply in_map_iff in Hin as [kv [<- Hin]].
  rewrite List.Forall_forall in Hs. specialize (Hs kv Hin). unfold normalizePorts.
  destruct (Dict.get "ai_tool" (snd kv)) as [outs|] eqn:G; [|exact Hs]. simpl.
  apply (Forall_set (fun outs : Outputs => outs <> [])); [exact Hs|].
  pose proof (Forall_get (fun outs : Outputs => outs <> []) _ _ _ Hs G) as Hne.
  destruct outs; [contradiction|discriminate].
Qed.

Lemma removeOverlinking_shaped (name : option string) (n : nat) (w : Workflow) :
  shaped name n w -> shaped name n (fst (removeOverlinking w)).
Proof.
  unfold removeOverlinking, shaped, conns_of. intros (Hname & Hn & Hs).
  destruct (w_connections w) as [cs|] eqn:E; simpl; [|rewrite E; now repeat split].
  split; [exact Hname|]. split; [exact Hn|]. simpl in Hs. unfold slotted in *. rewrite map_map.
  apply List.Forall_forall. intros kv' Hin. apply in_map_iff in Hin as [kv [<- Hin]].
  rewrite List.Forall_forall in Hs. specialize (Hs kv Hin). unfold pruneSource.
  destruct (Dict.get "main" (snd kv)) as [[|[|c1 [|c2 more]] rest]|]; try exact Hs.
  destruct (isConditionalNode (w_nodes w) (fst kv)); [exact Hs|]. simpl.
  apply (Forall_set (fun outs : Outputs => outs <> [])); [exact Hs|discriminate].
Qed.

Lemma pushEdge_slotted (source port : string) (c : Conn) (cs : Connections) :
  slotted cs -> exists cs', pushEdge source port c cs = inr cs' /\ slotted cs'.
Proof.
  unfold pushEdge. intros Hs.
  destruct (builtin cs source); [eexists; split; [reflexivity|exact Hs]|].
  set (cs1 := match Dict.get source cs with None => Dict.set source [] cs | Some _ => cs end).
  assert (H1 : slotted cs1).
  { unfold cs1. destruct (Dict.get source cs); [exact Hs|].
    apply (Forall_set (fun ps => Forall (fun pk : string * Outputs => snd pk <> []) ps));
      [exact Hs|constructor]. }
  set (ps := default [] (Dict.get source cs1)).
  assert (Hps : Forall (fun pk : string * Outputs => snd pk <> []) ps)
    by apply (slotted_default _ _ H1).
  set (ps1 := match Dict.get port ps with None => Dict.set port [[]] ps | Some _ => ps end).
  assert (Hps1 : Forall (fun pk : string * Outputs => snd pk <> []) ps1).
  { unfold ps1. destruct (Dict.get port ps); [exact Hps|].
    apply (Forall_set (fun outs : Outputs => outs <> [])); [exact Hps|discriminate]. }
  assert (Hget : exists slot0 rest, Dict.get port ps1 = Some (slot0 :: rest)).
  { unfold ps1. destruct (Dict.get port ps) as [outs|] eqn:G.
    - pose proof (Forall_get (fun outs : Outputs => outs <> []) _ _ _ Hps G) as Hne.
      rewrite G. destruct outs as [|slot0 rest]; [contradiction|eauto].
    - rewrite get_set_eq. eauto. }
  destruct Hget as (slot0 & rest & ->). simpl. eexists. split; [reflexivity|].
  apply (Forall_set (fun ps => Forall (fun pk : string * Outputs => snd pk <> []) ps));
    [exact H1|].
  apply (Forall_set (fun outs : Outputs => outs <> [])); [exact Hps1|discriminate].
Qed.

Lemma reconnect_slotted (nodes : list Node) (incoming : list string)
    (st : Connections * list string) (node : Node) :
  slotted (fst st) ->
  exists st', reconnect nodes incoming st node = inr st' /\ slotted (fst st').
Proof.
  unfold reconnect. destruct st as [cs fs]. simpl. intros Hs.
  destruct (_ || _); [eexists; split; [reflexivity|exact Hs]|].
  destruct (isAIAgentNode (ty node)); [eexists; split; [reflexivity|exact Hs]|].
  destruct (toolCapable (ty node)).
  - destruct (List.filter _ nodes) as [|nearestAgent agents];
      [eexists; split; [reflexivity|exact Hs]|].
    destruct (builtin cs (nm node)); [eexists; split; [reflexivity|exact Hs]|].
    eexists. split; [reflexivity|]. simpl.
    apply (Forall_set (fun ps => Forall (fun pk : string * Outputs => snd pk <> []) ps));
      [exact Hs|].
    apply (Forall_set (fun outs : Outputs => outs <> []));
      [apply (slotted_default _ _ Hs)|discriminate].
  - destruct (List.filter _ nodes) as [|agent agents].
    + destruct (find _ nodes) as [targetNode|]; [|eexists; split; [reflexivity|exact Hs]].
      destruct (pushEdge_slotted (nm targetNode) "main" (mkConn (nm node) "main" 0%Z) cs Hs)
        as (cs' & -> & H'). simpl. eexists. split; [reflexivity|exact H'].
    + destruct (pushEdge_slotted (nm agent) "main" (mkConn (nm node) "main" 0%Z) cs Hs)
        as (cs' & -> & H'). simpl. eexists. split; [reflexivity|exact H'].
Qed.

Lemma rebuildOrphanedConnections_shaped (name : option string) (n : nat) (w : Workflow) :
  shaped name n w ->
  exists r, rebuildOrphanedConnections w = inr r /\ shaped name n (fst r).
Proof.
  unfold rebuildOrphanedConnections, shaped. intros (Hname & Hn & Hs). cbv zeta.
  match goal with
  | |- context [foldExc ?f ?l ?s] =>
      destruct (foldExc_total (fun st => slotted (fst st)) f l
                  (reconnect_slotted _ _) s Hs) as (st' & -> & H')
  end.
  simpl. eexists. split; [reflexivity|]. now repeat split.
Qed.

Lemma fixNodes_length (counts : Dict.t nat) (nodes : list Node) :
  forall i nodeNames, length (fst (fixNodes counts i nodeNames nodes)) = length nodes.
Proof.
  induction nodes as [|node rest IH]; intros i nodeNames; simpl; [reflexivity|].
  destruct (fixNode counts i nodeNames node) as [node' f].
  specialize (IH (S i) (nodeNames ++ [nm node'])).
  destruct (fixNodes counts (S i) (nodeNames ++ [nm node']) rest) as [rest' fs].
  simpl in *. now rewrite IH.
Qed.

Ltac through lemma S S' :=
  match goal with
  | |- context [let '(_, _) := ?x in _] =>
      pose proof (lemma _ _ _ S) as S'; destruct x as [? ?]; cbn [fst] in S';
      repeat match goal with
             | |- context [let '(_, _) := ?y in _] => is_var y; destruct y as [? ?]
             end
  end.

Lemma applyAutoFixes_shaped (w : Workflow) :
  slotted (conns_of w) ->
  exists r, applyAutoFixes w = inr r
            /\ shaped (if falsy (w_name w) then Some "My Workflow" else w_name w)
                      (length (w_nodes w)) (fr_workflow r).
Proof.
  intros Hs. unfold applyAutoFixes. cbv zeta.
  set (name := if falsy (w_name w) then Some "My Workflow" else w_name w).
  match goal with
  | |- context [let '(_, _) := ?x in _] =>
      assert (S1 : shaped name (length (w_nodes w)) (fst x));
      [|destruct x as [w1 f1]; cbn [fst] in S1]
  end.
  { unfold name. destruct (falsy (w_name w)); now repeat split. }
  match goal with
  | |- context [let '(_, _) := ?x in _] =>
      assert (S2 : shaped name (length (w_nodes w)) (fst x));
      [|destruct x as [w2 f2]; cbn [fst] in S2]
  end.
  { destruct S1 as (A & B & C). unfold shaped, conns_of in *.
    destruct (w_connections w1) eqn:E; simpl; rewrite ?E; now repeat split. }
  match goal with
  | |- context [let '(_, _) := ?x in _] =>
      assert (S3 : shaped name (length (w_nodes w)) (set_nodes (fst x) w2));
      [|destruct x as [nodes3 f3]; cbn [fst] in S3]
  end.
  { destruct S2 as (A & B & C). unfold shaped. simpl. rewrite fixNodes_length.
    now repeat split. }
  through autoConnect_shaped S3 S4.
  through cleanConnections_shaped S4 S5.
  through replaceDeprecatedNodes_shaped S5 S6.
  through removeInvalidAIToolConnections_shaped S6 S7.
  through convertRegularNodesToTools_shaped S7 S8.
  through removeHardcodedModelParameters_shaped S8 S9.
  match goal with
  | |- context [bind (fixBackwardsToolConnections ?x) _] =>
      destruct (fixBackwardsToolConnections_shaped _ _ x S9) as (r4 & -> & S10)
  end.
  cbn [bind]. destruct r4 as [w10 [fixed4 d4]]. cbn [fst] in S10.
  through fixNodePositioning_shaped S10 S11.
  through ensureDescriptiveNames_shaped S11 S12.
  through normalizeAIToolIndexes_shaped S12 S13.
  through removeOverlinking_shaped S13 S14.
  match goal with
  | |- context [bind ?m _] =>
      assert (S15 : exists r, m = inr r /\ shaped name (length (w_nodes w)) (fst r))
  end.
  { destruct (existsb _ _).
    - now apply rebuildOrphanedConnections_shaped.
    - eexists. split; [reflexivity|exact S14]. }
  destruct S15 as (r10 & -> & S15). cbn [bind].
  destruct r10 as [w15 [fixed10 d10]]. cbn [fst] in S15.
  eexists. split; [reflexivity|exact S15].
Qed.

(** ** Renaming inside the adjacency structure *)

Lemma remove_keys {V} (k : string) (o : Dict.t V) : ~ In k (map fst (Dict.remove k o)).
Proof.
  unfold Dict.remove. intros H. apply in_map_iff in H as [kv [E H]].
  apply filter_In in H as [_ H]. rewrite E, String.eqb_refl in H. discriminate.
Qed.

Lemma get_none_keys {V} (k : string) (o : Dict.t V) :
  Dict.get k o = None -> ~ In k (map fst o).
Proof.
  induction o as [|[k' v] o IH]; simpl; [tauto|].
  destruct (String.eqb_spec k k') as [->|Hne]; [discriminate|].
  intros H [E|Hin]; [congruence|now apply IH].
Qed.

Lemma mapConns_keys (f : Conn -> Conn) (cs : Connections) :
  map fst (mapConns f cs) = map fst cs.
Proof. unfold mapConns. rewrite map_map. reflexivity. Qed.

Lemma mapConns_edges (f : Conn -> Conn) (cs : Connections) :
  edges (mapConns f cs) = map (fun e => (fst e, f (snd e))) (edges cs).
Proof.
  unfold mapConns, edges. induction cs as [|[src ps] cs IH]; simpl; [reflexivity|].
  rewrite map_app, IH. f_equal. clear IH. unfold edges_of_ports.
  induction ps as [|[port outs] ps IHp]; simpl; [reflexivity|].
  rewrite map_app, IHp. f_equal. clear IHp.
  rewrite <- concat_map, !map_map. reflexivity.
Qed.

(** X15.  The update of the connections in [ensureDescriptiveNames],
    for a new name other than the old one, leaves no source and no target
    under the old name. *)
Theorem renameInConnections_forgets (oldName newName : string) (cs : Connections) :
  oldName <> newName ->
  ~ In oldName (map fst (renameInConnections oldName newName cs))
  /\ Forall (fun e => c_node (snd e) <> oldName)
            (edges (renameInConnections oldName newName cs)).
Proof.
  intros Hne. unfold renameInConnections. cbv zeta.
  rewrite mapConns_keys, mapConns_edges. split.
  - destruct (Dict.get oldName cs) as [ps|] eqn:G.
    + apply remove_keys.
    + now apply get_none_keys.
  - apply List.Forall_forall. intros e He. apply in_map_iff in He as [e0 [<- _]].
    simpl. unfold retarget. destruct (String.eqb_spec (c_node (snd e0)) oldName); simpl; congruence.
Qed.

(** [Node1] renamed in the connections of [Scenario.collision]. *)
Lemma renameInConnections_forgets_collision :
  ~ In "Node1" (map fst (renameInConnections "Node1" "Code Execute 2"
                                             (conns_of Scenario.collision)))
  /\ Forall (fun e => c_node (snd e) <> "Node1")
            (edges (renameInConnections "Node1" "Code Execute 2"
                                        (conns_of Scenario.collision))).
Proof.
  apply (renameInConnections_forgets "Node1" "Code Execute 2" (conns_of Scenario.collision)).
  discriminate.
Defined.

(** ** Layout around an agent *)

Lemma moved_refl (l : list Node) : Forall2 moved l l.
Proof. induction l; constructor; auto. now left. Qed.

Lemma moved_insert (l l' : list Node) (i : nat) (n : Node) (x y : Z) :
  Forall2 moved l l' -> l' !! i = Some n ->
  Forall2 moved l (<[i := set_position [x; y] n]> l').
Proof.
  intros H. revert i. induction H as [|a b l l' Hab H IH]; intros i Hi; [discriminate|].
  destruct i as [|i]; simpl in *.
  - injection Hi as ->. constructor; [|exact H]. right. exists x, y.
    destruct Hab as [->|(x0 & y0 & ->)]; reflexivity.
  - constructor; [exact Hab|]. now apply IH.
Qed.

Lemma reposition_moved (l : list Node) (label : string) (x y : Z)
    (st : list Node * list string) (i : nat) :
  Forall2 moved l (fst st) -> Forall2 moved l (fst (reposition label x y st i)).
Proof.
  unfold reposition. intros H. destruct (fst st !! i) as [n|] eqn:E; [|exact H].
  destruct (_ || _); [|exact H]. simpl. now apply moved_insert.
Qed.

Lemma fold_moved {A} (l : list Node)
    (f : list Node * list string -> A -> list Node * list string) (xs : list A) :
  (forall st a, Forall2 moved l (fst st) -> Forall2 moved l (fst (f st a))) ->
  forall st, Forall2 moved l (fst st) -> Forall2 moved l (fst (fold_left f xs st)).
Proof.
  intros Hf. induction xs as [|a xs IH]; intros st H; simpl; [exact H|].
  apply IH. now apply Hf.
Qed.

Lemma positionAround_moved (l : list Node) (connections : option Connections)
    (st : list Node * list string) (a : nat) :
  Forall2 moved l (fst st) -> Forall2 moved l (fst (positionAround connections st a)).
Proof.
  unfold positionAround. intros H. destruct (fst st !! a) as [agent|]; [|exact H]. cbv zeta.
  repeat (apply fold_moved; [intros; now apply reposition_moved|]). exact H.
Qed.

(** X16.  [fixNodePositioning] changes nothing but positions: name and
    connections of the workflow stay, and every step is as before or differs
    in its position only. *)
Theorem fixNodePositioning_moves_only (w : Workflow) :
  w_name (fst (fixNodePositioning w)) = w_name w
  /\ w_connections (fst (fixNodePositioning w)) = w_connections w
  /\ Forall2 moved (w_nodes w) (w_nodes (fst (fixNodePositioning w))).
Proof.
  unfold fixNodePositioning. cbv zeta. cbn [fst]. split; [reflexivity|].
  split; [reflexivity|]. cbn [w_nodes set_nodes].
  apply fold_moved; [intros; now apply positionAround_moved|]. apply moved_refl.
Qed.

(** ** Reconnecting orphans *)

Lemma edges_of_ports_set (src port : string) (outs : Outputs) (ps : Ports) :
  (forall outs0, Dict.get port ps = Some outs0 -> incl (concat outs0) (concat outs)) ->
  incl (edges_of_ports src ps) (edges_of_ports src (Dict.set port outs ps)).
Proof.
  unfold edges_of_ports. induction ps as [|[port' outs'] ps IH]; intros H e He; simpl in *.
  - destruct He.
  - destruct (String.eqb_spec port port') as [->|Hne]; simpl.
    + apply in_app_iff in He as [He|He]; apply in_or_app; [left|now right].
      apply in_map_iff in He as [c [<- Hc]]. apply in_map_iff. exists c.
      split; [reflexivity|]. now apply (H outs').
    + apply in_app_iff in He as [He|He]; apply in_or_app; [now left|right].
      now apply IH.
Qed.

Lemma edges_set (src : string) (ps : Ports) (cs : Connections) :
  (forall ps0, Dict.get src cs = Some ps0 ->
               incl (edges_of_ports src ps0) (edges_of_ports src ps)) ->
  incl (edges cs) (edges (Dict.set src ps cs)).
Proof.
  unfold edges. induction cs as [|[src' ps'] cs IH]; intros H e He; simpl in *.
  - destruct He.
  - destruct (String.eqb_spec src src') as [->|Hne]; simpl.
    + apply in_app_iff in He as [He|He]; apply in_or_app; [left|now right].
      now apply (H ps').
    + apply in_app_iff in He as [He|He]; apply in_or_app; [now left|right].
      now apply IH.
Qed.

Lemma inherited_builtin (cs : Connections) (name : string) :
  inherited name = false -> builtin cs name = false.
Proof. unfold builtin. intros ->. apply andb_false_r. Qed.

Lemma pushEdge_keeps (source port : string) (c : Conn) (cs cs' : Connections) :
  pushEdge source port c cs = inr cs' ->
  incl (edges cs) (edges cs')
  /\ (builtin cs source = false -> In (source, port, c) (edges cs')).
Proof.
  unfold pushEdge.
  destruct (builtin cs source) eqn:B.
  { intros [= <-]. split; [apply incl_refl|discriminate]. }
  set (cs1 := match Dict.get source cs with None => Dict.set source [] cs | Some _ => cs end).
  assert (H1 : incl (edges cs) (edges cs1)).
  { unfold cs1. destruct (Dict.get source cs) eqn:G; [apply incl_refl|].
    apply edges_set. intros ps0. rewrite G. discriminate. }
  set (ps := default [] (Dict.get source cs1)).
  set (ps1 := match Dict.get port ps with None => Dict.set port [[]] ps | Some _ => ps end).
  assert (Hps1 : incl (edges_of_ports source ps) (edges_of_ports source ps1)).
  { unfold ps1. destruct (Dict.get port ps) eqn:G; [apply incl_refl|].
    apply edges_of_ports_set. intros outs0. rewrite G. discriminate. }
  destruct (default [] (Dict.get port ps1)) as [|slot0 rest] eqn:D; [discriminate|].
  intros [= <-]. split.
  - eapply incl_tran; [exact H1|]. apply edges_set. intros ps0 G.
    assert (ps0 = ps) as -> by (unfold ps; now rewrite G).
    eapply incl_tran; [exact Hps1|]. apply edges_of_ports_set. intros outs0 G0.
    rewrite G0 in D. simpl in D. subst outs0. simpl.
    intros x Hx. apply in_app_iff in Hx as [Hx|Hx]; apply in_or_app; [left|now right].
    apply in_or_app. now left.
  - intros _.
    pose proof (get_in _ _ _ (get_set_eq source (Dict.set port ((slot0 ++ [c]) :: rest) ps1) cs1))
      as Hin.
    unfold edges. apply in_flat_map. eexists. split; [exact Hin|]. simpl.
    unfold edges_of_ports. apply in_flat_map.
    exists (port, (slot0 ++ [c]) :: rest). split.
    + apply get_in. apply get_set_eq.
    + simpl. apply in_map_iff. exists c. split; [reflexivity|].
      apply in_or_app. left. apply in_or_app. right. now left.
Qed.

Lemma grows_refl (cs : Connections) : grows cs cs.
Proof. split; [apply incl_refl|eauto]. Qed.

Lemma grows_trans (a b c : Connections) : grows a b -> grows b c -> grows a c.
Proof.
  intros [A1 A2] [B1 B2]. split; [eapply incl_tran; eauto|].
  intros k ps G N. destruct (A2 k ps G N) as (ps' & G' & N'). eauto.
Qed.

Lemma connected_grows (cs cs' : Connections) (node : Node) :
  grows cs cs' -> connected cs node -> connected cs' node.
Proof.
  intros [G1 G2] [(ps & G & N)|(e & He & Hn)].
  - left. eauto.
  - right. exists e. split; [now apply G1|exact Hn].
Qed.

Lemma set_nonEmpty {V} (k : string) (v : V) (o : Dict.t V) : nonEmpty (Dict.set k v o) = true.
Proof. destruct o as [|[k' v'] o]; simpl; [reflexivity|]. now destruct (String.eqb k k'). Qed.

Lemma grows_set (src : string) (ps : Ports) (cs : Connections) :
  (forall ps0, Dict.get src cs = Some ps0 ->
               incl (edges_of_ports src ps0) (edges_of_ports src ps)) ->
  nonEmpty ps = true -> grows cs (Dict.set src ps cs).
Proof.
  intros H N. split; [now apply edges_set|]. intros k ps0 G N0.
  destruct (String.eqb_spec k src) as [->|Hne].
  - exists ps. split; [apply get_set_eq|exact N].
  - exists ps0. split; [now rewrite get_set_ne|exact N0].
Qed.

Lemma pushEdge_grows (source port : string) (c : Conn) (cs cs' : Connections) :
  pushEdge source port c cs = inr cs' -> grows cs cs'.
Proof.
  intros H. split; [now apply (pushEdge_keeps source port c)|].
  revert H. unfold pushEdge.
  destruct (builtin cs source); [intros [= <-] k ps0 G N; eauto|].
  set (cs1 := match Dict.get source cs with None => Dict.set source [] cs | Some _ => cs end).
  set (ps := default [] (Dict.get source cs1)).
  set (ps1 := match Dict.get port ps with None => Dict.set port [[]] ps | Some _ => ps end).
  destruct (default [] (Dict.get port ps1)) as [|slot0 rest]; [discriminate|].
  intros [= <-] k ps0 G N.
  destruct (String.eqb_spec k source) as [->|Hne].
  - eexists. split; [apply get_set_eq|apply set_nonEmpty].
  - exists ps0. split; [|exact N]. rewrite get_set_ne by exact Hne.
    unfold cs1. destruct (Dict.get source cs); [exact G|]. now rewrite get_set_ne.
Qed.

Lemma reconnect_connects (nodes : list Node) (incoming : list string)
    (st st' : Connections * list string) (node agent : Node) (agents : list Node) :
  List.filter (fun n => isAIAgentNode (ty n)) nodes = agent :: agents ->
  inherited (nm agent) = false ->
  inherited (nm node) = false ->
  (forall name, Str.mem name incoming = true ->
                exists e, In e (edges (fst st)) /\ c_node (snd e) = name) ->
  reconnect nodes incoming st node = inr st' ->
  grows (fst st) (fst st')
  /\ (isAIAgentNode (ty node) = true \/ connected (fst st') node).
Proof.
  unfold reconnect. destruct st as [cs fs]. simpl. intros Ha Hagent Hnode Hinc. rewrite Ha.
  destruct (match Dict.get (nm node) cs with Some ps => nonEmpty ps | None => false end) eqn:O;
    simpl.
  { intros [= <-]. split; [apply grows_refl|]. right. left. simpl.
    destruct (Dict.get (nm node) cs) as [ps|]; [eauto|discriminate]. }
  destruct (Str.mem (nm node) incoming) eqn:I.
  { intros [= <-]. split; [apply grows_refl|]. right. right. now apply Hinc. }
  destruct (isAIAgentNode (ty node)); [intros [= <-]; split; [apply grows_refl|now left]|].
  destruct (toolCapable (ty node)).
  - rewrite (inherited_builtin cs _ Hnode). intros [= <-]. simpl. split.
    + apply grows_set; [|apply set_nonEmpty]. intros ps0 G. rewrite G in O.
      destruct ps0; [intros e []|discriminate].
    + right. left. eexists. split; [apply get_set_eq|apply set_nonEmpty].
  - destruct (pushEdge (nm agent) "main" (mkConn (nm node) "main" 0%Z) cs) as [e|cs'] eqn:P;
      [discriminate|].
    intros [= <-]. simpl. split; [now apply pushEdge_grows in P|].
    right. right. apply pushEdge_keeps in P as [_ P].
    specialize (P (inherited_builtin cs _ Hagent)).
    exists (nm agent, "main", mkConn (nm node) "main" 0%Z). now split.
Qed.

Lemma foldExc_reconnect (nodes : list Node) (incoming : list string) (agent : Node)
    (agents : list Node) (l : list Node) :
  List.filter (fun n => isAIAgentNode (ty n)) nodes = agent :: agents ->
  inherited (nm agent) = false ->
  Forall (fun n => inherited (nm n) = false) l ->
  forall st st',
    (forall name, Str.mem name incoming = true ->
                  exists e, In e (edges (fst st)) /\ c_node (snd e) = name) ->
    foldExc (reconnect nodes incoming) l st = inr st' ->
    grows (fst st) (fst st')
    /\ Forall (fun node => isAIAgentNode (ty node) = true \/ connected (fst st') node) l.
Proof.
  intros Ha Hagent. induction l as [|node l IH]; intros Hl st st' Hinc; simpl.
  - intros [= <-]. split; [apply grows_refl|constructor].
  - apply List.Forall_cons_iff in Hl as [Hnode Hl].
    destruct (reconnect nodes incoming st node) as [e|st1] eqn:R; simpl; [discriminate|].
    intros F. destruct (reconnect_connects _ _ _ _ _ _ _ Ha Hagent Hnode Hinc R) as [G1 C1].
    destruct (IH Hl st1 st') as [G2 C2]; [|exact F|].
    + intros name Hn. destruct (Hinc name Hn) as (e & He & Hc).
      exists e. split; [now apply G1|exact Hc].
    + split; [eapply grows_trans; eauto|]. constructor; [|exact C2].
      destruct C1 as [C1|C1]; [now left|right]. eapply connected_grows; eauto.
Qed.

(** X17.  In a workflow with an AI agent in which every step has a name
    and no name is that of a member of [Object.prototype], when
    [rebuildOrphanedConnections] returns, the steps are as before, no edge
    has been removed, and every step that is not an AI agent is the source of
    a port or the target of an edge. *)
Theorem rebuildOrphanedConnections_connects (w w' : Workflow) (out : nat * list string) :
  existsb (fun n => isAIAgentNode (ty n)) (w_nodes w) = true ->
  Forall plainlyNamed (w_nodes w) ->
  rebuildOrphanedConnections w = inr (w', out) ->
  w_nodes w' = w_nodes w
  /\ incl (edges (conns_of w)) (edges (conns_of w'))
  /\ Forall (fun node => isAIAgentNode (ty node) = true \/ connected (conns_of w') node)
            (w_nodes w).
Proof.
  intros Hex Hplain. unfold rebuildOrphanedConnections. cbv zeta.
  destruct (foldExc _ (w_nodes w) _) as [e|[cs' fs']] eqn:F; simpl; [discriminate|].
  intros [= <- _]. split; [reflexivity|].
  change (conns_of (set_connections cs' w)) with cs'.
  destruct (List.filter (fun n => isAIAgentNode (ty n)) (w_nodes w)) as [|agent agents] eqn:Ha.
  { exfalso. apply existsb_exists in Hex as [n [Hin Hn]].
    assert (H : In n (List.filter (fun n => isAIAgentNode (ty n)) (w_nodes w)))
      by (apply filter_In; now split).
    rewrite Ha in H. destruct H. }
  assert (Hagent : inherited (nm agent) = false).
  { assert (H : In agent (List.filter (fun n => isAIAgentNode (ty n)) (w_nodes w)))
      by (rewrite Ha; now left).
    apply filter_In in H as [H _].
    rewrite List.Forall_forall in Hplain. exact (proj2 (Hplain agent H)). }
  assert (Hnames : Forall (fun n => inherited (nm n) = false) (w_nodes w)).
  { eapply List.Forall_impl; [|exact Hplain]. intros n Hn. exact (proj2 Hn). }
  eapply (foldExc_reconnect _ _ _ _ _ Ha Hagent Hnames) in F.
  - destruct F as [[G _] C]. now split.
  - simpl. intros name Hn. apply mem_In in Hn. apply in_flat_map in Hn as [e [He Hn]].
    exists e. split; [exact He|].
    destruct (Str.is_empty (c_node (snd e))); [destruct Hn|].
    destruct Hn as [<-|[]]. reflexivity.
Qed.

(** The two orphans of [Scenario.agentWithOrphans] get connected. *)
Lemma rebuildOrphanedConnections_connects_agent :
  exists w' out,
    rebuildOrphanedConnections Scenario.agentWithOrphans = inr (w', out)
    /\ w_nodes w' = w_nodes Scenario.agentWithOrphans
    /\ incl (edges (conns_of Scenario.agentWithOrphans)) (edges (conns_of w'))
    /\ Forall (fun node => isAIAgentNode (ty node) = true \/ connected (conns_of w') node)
              (w_nodes Scenario.agentWithOrphans).
Proof.
  eexists. eexists. split; [vm_compute; reflexivity|].
  eapply (rebuildOrphanedConnections_connects Scenario.agentWithOrphans).
  - reflexivity.
  - repeat constructor; discriminate.
  - vm_compute. reflexivity.
Defined.

(** A tool step named [constructor] stays an orphan: the edge that would
    connect it goes to the built-in object of that name. *)
Lemma rebuildOrphanedConnections_inherited_name :
  exists w' out,
    rebuildOrphanedConnections Sample.inheritedName = inr (w', out)
    /\ conns_of w' = conns_of Sample.inheritedName
    /\ Dict.get "constructor" (conns_of w') = None
    /\ Forall (fun e => c_node (snd e) <> "constructor") (edges (conns_of w')).
Proof.
  eexists. eexists. split; [vm_compute; reflexivity|]. vm_compute.
  repeat split. repeat constructor; discriminate.
Qed.

(** ** Measures of the analyzer *)

Lemma pathCount_from (outs : Outputs) : forall sum,
  fold_left (fun sum conns => (sum + length conns)%nat) outs sum
  = (sum + length (concat outs))%nat.
Proof.
  induction outs as [|slot outs IH]; intros sum; simpl; [lia|].
  rewrite IH, length_app. lia.
Qed.

Lemma pathCount_concat (outs : Outputs) : Analyzer.pathCount outs = length (concat outs).
Proof. unfold Analyzer.pathCount. now rewrite pathCount_from. Qed.

Lemma portTotal_from (src : string) (ps : Ports) : forall sum,
  fold_left (fun sum pk => (sum + Analyzer.pathCount (snd pk))%nat) ps sum
  = (sum + length (edges_of_ports src ps))%nat.
Proof.
  unfold edges_of_ports. induction ps as [|pk ps IH]; intros sum; simpl; [lia|].
  rewrite IH, length_app, length_map, pathCount_concat. lia.
Qed.

Lemma connectionTotal_from (cs : Connections) : forall total,
  fold_left
    (fun total kv =>
       (total + fold_left (fun sum pk => (sum + Analyzer.pathCount (snd pk))%nat)
                          (snd kv) 0)%nat)
    cs total
  = (total + length (edges cs))%nat.
Proof.
  unfold edges. induction cs as [|kv cs IH]; intros total; simpl; [lia|].
  rewrite IH, length_app, (portTotal_from (fst kv)). lia.
Qed.

Lemma portMax_from (src : string) (ps : Ports) : forall m,
  let m' := fold_left (fun m pk => Nat.max m (Analyzer.pathCount (snd pk))) ps m in
  m <= m' /\ m' <= Nat.max m (length (edges_of_ports src ps))
  /\ Forall (fun pk => length (concat (snd pk)) <= m') ps.
Proof.
  unfold edges_of_ports. induction ps as [|pk ps IH]; intros m; simpl.
  - split; [lia|]. split; [lia|constructor].
  - destruct (IH (Nat.max m (Analyzer.pathCount (snd pk)))) as (A & B & C).
    rewrite length_app, length_map. rewrite pathCount_concat in *.
    split; [lia|]. split; [lia|]. constructor; [lia|exact C].
Qed.

Lemma parallelMax_from (cs : Connections) : forall m,
  let m' :=
    fold_left
      (fun maxParallel kv =>
         fold_left (fun m pk => Nat.max m (Analyzer.pathCount (snd pk))) (snd kv) maxParallel)
      cs m in
  m <= m' /\ m' <= Nat.max m (length (edges cs))
  /\ Forall (fun kv => Forall (fun pk => length (concat (snd pk)) <= m') (snd kv)) cs.
Proof.
  unfold edges. induction cs as [|kv cs IH]; intros m; simpl.
  - split; [lia|]. split; [lia|constructor].
  - destruct (portMax_from (fst kv) (snd kv) m) as (A & B & C).
    simpl in *.
    destruct (IH (fold_left (fun m pk => Nat.max m (Analyzer.pathCount (snd pk)))
                            (snd kv) m)) as (A' & B' & C').
    rewrite length_app. split; [lia|]. split; [lia|].
    constructor; [|exact C'].
    eapply List.Forall_impl; [|exact C]. intros pk Hpk. simpl in *. lia.
Qed.

(** X18.  [countParallelPaths] and the connection count of
    [analyzePerformance] throw together, and exactly when the workflow has no
    connections object; when it has one, the count is the number of edge
    records, and the parallel paths are at most the count and at least the
    number of edges of any port. *)
Theorem countParallelPaths_bounds (w : Workflow) :
  match Analyzer.countParallelPaths w, Analyzer.connectionCount w with
  | inr parallelPaths, inr count =>
      w_connections w <> None
      /\ count = length (edges (conns_of w))
      /\ parallelPaths <= count
      /\ Forall (fun kv => Forall (fun pk => length (concat (snd pk)) <= parallelPaths)
                                  (snd kv))
                (conns_of w)
  | inl _, inl _ => w_connections w = None
  | _, _ => False
  end.
Proof.
  unfold Analyzer.countParallelPaths, Analyzer.connectionCount, conns_of.
  destruct (w_connections w) as [cs|]; simpl; [|reflexivity].
  rewrite connectionTotal_from. destruct (parallelMax_from cs 0) as (A & B & C).
  simpl in *. split; [discriminate|]. split; [reflexivity|]. split; [lia|exact C].
Qed.

Lemma nodeTime_bounds (nodeType : string) :
  100 <= Analyzer.nodeTime nodeType <= 2400.
Proof.
  unfold Analyzer.nodeTime.
  destruct (String.eqb_spec nodeType "n8n-nodes-base.httpRequest") as [->|H1];
    [vm_compute; lia|].
  destruct (String.eqb_spec nodeType "n8n-nodes-base.code") as [->|H2];
    [vm_compute; lia|].
  destruct (_ || _); destruct (_ || _); lia.
Qed.

Lemma estimate_from (nodes : list Node) : forall totalTime,
  match
    foldExc
      (fun totalTime node =>
         match n_type node with
         | None => throw "Cannot read properties of undefined (reading 'includes')"
         | Some nodeType => ret (totalTime + Analyzer.nodeTime nodeType)%nat
         end)
      nodes totalTime
  with
  | inr t =>
      Forall (fun n => n_type n <> None) nodes
      /\ totalTime + 100 * length nodes <= t <= totalTime + 2400 * length nodes
  | inl _ => Exists (fun n => n_type n = None) nodes
  end.
Proof.
  induction nodes as [|node nodes IH]; intros totalTime; simpl.
  - split; [constructor|lia].
  - destruct (n_type node) as [t|] eqn:T; simpl; [|now left].
    specialize (IH (totalTime + Analyzer.nodeTime t)). pose proof (nodeTime_bounds t).
    destruct (foldExc _ nodes _) as [e|r].
    + now right.
    + destruct IH as [F B]. split; [constructor; [congruence|exact F]|lia].
Qed.

(** X19.  [estimateExecutionTime] throws only when a step has no kind;
    otherwise the estimate lies between 100 and 2400 milliseconds per
    step. *)
Theorem estimateExecutionTime_bounds (w : Workflow) :
  match Analyzer.estimateExecutionTime w with
  | inr t =>
      Forall (fun n => n_type n <> None) (w_nodes w)
      /\ 100 * length (w_nodes w) <= t <= 2400 * length (w_nodes w)
  | inl _ => Exists (fun n => n_type n = None) (w_nodes w)
  end.
Proof.
  unfold Analyzer.estimateExecutionTime.
  pose proof (estimate_from (w_nodes w) 0) as H.
  destruct (foldExc _ (w_nodes w) 0) as [message|t]; [exact H|].
  destruct H as [Htyped Hbounds]. split; [exact Htyped|lia].
Qed.

(** X20.  [calculateComplexity] is monotone: more steps, more depth or
    more parallel paths never give a lower grade. *)
Theorem calculateComplexity_monotone (n d p n' d' p' : Z) :
  (n <= n')%Z -> (d <= d')%Z -> (p <= p')%Z ->
  grade (Analyzer.calculateComplexity n d p) <= grade (Analyzer.calculateComplexity n' d' p').
Proof.
  intros Hn Hd Hp. unfold Analyzer.calculateComplexity. cbv zeta.
  repeat match goal with
         | |- context [(?a <? ?b)%Z] => destruct (Z.ltb_spec a b)
         end; simpl; lia.
Qed.

(** A small workflow against a larger one. *)
Lemma calculateComplexity_monotone_sample :
  grade (Analyzer.calculateComplexity 3 1 1) <= grade (Analyzer.calculateComplexity 30 5 4).
Proof. apply (calculateComplexity_monotone 3 1 1 30 5 4); lia. Defined.

(** ** Depth of a workflow without cycles *)

Section Depth.
Variable rank : string -> nat.
Variable N : nat.
Variable cs : Connections.
Hypothesis Hranked : ranked rank N cs = true.

Lemma ranked_edge (u : string) (ps : Ports) (c : Conn) :
  Dict.get u cs = Some ps -> In c (conns_in ps) ->
  rank u < rank (c_node c) <= N /\ In (c_node c) (targets cs).
Proof.
  intros G Hc. apply get_in in G. unfold ranked in Hranked.
  rewrite forallb_forall in Hranked. specialize (Hranked _ G). simpl in Hranked.
  rewrite forallb_forall in Hranked. specialize (Hranked _ Hc).
  apply andb_prop in Hranked as [A B]. apply Nat.ltb_lt in A. apply Nat.leb_le in B.
  split; [lia|]. unfold targets. apply in_flat_map. exists (u, ps). split; [exact G|].
  simpl. now apply in_map.
Qed.

Lemma slack_set (ds : Dict.t Z) (v : string) (d : Z) (names : list string) :
  (default 0 (Dict.get v ds) < d <= Z.of_nat N)%Z ->
  slack N (Dict.set v d ds) names <= slack N ds names
  /\ (In v names -> slack N (Dict.set v d ds) names + 1 <= slack N ds names).
Proof.
  intros Hd. unfold slack. induction names as [|x names [IH1 IH2]]; simpl.
  - split; [lia|intros []].
  - destruct (String.eqb_spec x v) as [->|Hne].
    + rewrite get_set_eq. simpl. split; [lia|]. intros _. lia.
    + rewrite get_set_ne by exact Hne. split; [lia|].
      intros [E|Hin]; [congruence|]. specialize (IH2 Hin). lia.
Qed.

Lemma relax_measure (currentDepth : Z) (st : Analyzer.DepthState) (c : Conn) :
  bounded rank N st -> (0 <= currentDepth)%Z ->
  (currentDepth + 1 <= Z.of_nat (rank (c_node c)))%Z -> rank (c_node c) <= N ->
  In (c_node c) (targets cs) ->
  bounded rank N (Analyzer.relax currentDepth st c)
  /\ measure N cs (Analyzer.relax currentDepth st c) <= measure N cs st.
Proof.
  intros [Hd Hm] H0 Hr HN Hin. unfold Analyzer.relax. cbv zeta.
  assert (Hnext : (currentDepth <= Analyzer.plusOne currentDepth <= currentDepth + 1)%Z).
  { unfold Analyzer.plusOne. destruct (currentDepth <=? Analyzer.MAX_SAFE_INTEGER)%Z; lia. }
  destruct (Z.ltb_spec (default 0%Z (Dict.get (c_node c) (Analyzer.depths st)))
                       (Analyzer.plusOne currentDepth)) as [Hlt|Hge]; [|split; [now split|lia]].
  split.
  - split; simpl; [|lia]. intros v. destruct (String.eqb_spec v (c_node c)) as [->|Hne].
    + rewrite get_set_eq. simpl. lia.
    + rewrite get_set_ne by exact Hne. apply Hd.
  - unfold measure. simpl.
    destruct (slack_set (Analyzer.depths st) (c_node c) (Analyzer.plusOne currentDepth)
                (targets cs)) as [_ Hs]; [lia|]. specialize (Hs Hin).
    destruct (Str.mem (c_node c) (Analyzer.queue st)); rewrite ?length_app; simpl; lia.
Qed.

Lemma relax_fold (currentDepth : Z) (l : list Conn) : forall st,
  bounded rank N st -> (0 <= currentDepth)%Z ->
  Forall (fun c => (currentDepth + 1 <= Z.of_nat (rank (c_node c)))%Z
                   /\ rank (c_node c) <= N /\ In (c_node c) (targets cs)) l ->
  bounded rank N (fold_left (Analyzer.relax currentDepth) l st)
  /\ measure N cs (fold_left (Analyzer.relax currentDepth) l st) <= measure N cs st.
Proof.
  induction l as [|c l IH]; intros st Hb H0 Hl; simpl; [split; [exact Hb|lia]|].
  apply List.Forall_cons_iff in Hl as [(A & B & C) Hl].
  destruct (relax_measure currentDepth st c Hb H0 A B C) as [Hb' Hm'].
  destruct (IH _ Hb' H0 Hl) as [Hb'' Hm'']. split; [exact Hb''|lia].
Qed.

Lemma step_measure (st : Analyzer.DepthState) (currentNode : string) (rest : list string) :
  bounded rank N st -> Analyzer.queue st = currentNode :: rest ->
  bounded rank N (Analyzer.step cs st currentNode rest)
  /\ measure N cs (Analyzer.step cs st currentNode rest) + 1 <= measure N cs st.
Proof.
  intros Hb Hq. unfold Analyzer.step. cbv zeta.
  set (st1 := Analyzer.mkDepthState (Analyzer.depths st) rest (Analyzer.maxDepth st)).
  assert (Hb1 : bounded rank N st1) by (destruct Hb; now split).
  assert (Hm1 : measure N cs st1 + 1 = measure N cs st).
  { unfold measure, st1. simpl. rewrite Hq. simpl. lia. }
  destruct (Dict.get currentNode cs) as [ps|] eqn:G; [|split; [exact Hb1|lia]].
  destruct Hb as [Hd Hm].
  destruct (relax_fold (default 0%Z (Dict.get currentNode (Analyzer.depths st)))
              (conns_in ps) st1 Hb1) as [Hb' Hm'].
  - apply Hd.
  - apply List.Forall_forall. intros c Hc.
    destruct (ranked_edge currentNode ps c G Hc) as [Hr Hin].
    specialize (Hd currentNode). split; [lia|]. split; [lia|exact Hin].
  - split; [exact Hb'|lia].
Qed.

Lemma depthLoop_returns (fuel : nat) : forall st,
  bounded rank N st -> measure N cs st <= fuel ->
  exists d, Analyzer.depthLoop fuel (Some cs) st = Some (inr d) /\ (0 <= d <= Z.of_nat N)%Z.
Proof.
  induction fuel as [|fuel IH]; intros st Hb Hm.
  - unfold measure in Hm. destruct st as [ds q m]. simpl in *.
    destruct q as [|x q]; simpl in *; [|lia]. exists m. split; [reflexivity|apply Hb].
  - destruct (Analyzer.queue st) as [|currentNode rest] eqn:Q.
    + exists (Analyzer.maxDepth st). split; [|apply Hb]. simpl. now rewrite Q.
    + destruct (step_measure st currentNode rest Hb Q) as [Hb' Hm'].
      destruct (IH _ Hb') as (d & Hd & Hr); [lia|].
      exists d. split; [|exact Hr]. simpl. now rewrite Q.
Qed.

End Depth.

Lemma slack_initial (N : nat) (ds : Dict.t Z) (names : list string) :
  (forall v, default 0%Z (Dict.get v ds) = 0%Z) -> slack N ds names = N * length names.
Proof.
  intros Hds. unfold slack, sum_nat. induction names as [|x names IH]; [simpl; lia|].
  cbn [map fold_right length]. rewrite IH, Hds. lia.
Qed.

Lemma findTrigger_throws (nodes : list Node) (message : string) :
  Analyzer.findTrigger nodes = inl message -> Exists (fun n => n_type n = None) nodes.
Proof.
  induction nodes as [|n nodes IH]; simpl; [discriminate|].
  destruct (n_type n) as [t|] eqn:T; [|now left].
  destruct (_ || _); [discriminate|]. intros H. right. now apply IH.
Qed.

Lemma initial_depths (trigger : Node) (v : string) :
  default 0%Z (Dict.get v (Analyzer.depths (Analyzer.initial trigger))) = 0%Z.
Proof.
  unfold Analyzer.initial. simpl. destruct (n_name trigger) as [name|]; simpl; [|reflexivity].
  now destruct (String.eqb v name).
Qed.

(** X21.  On a workflow whose edges all lead from a step to a step of
    higher rank, with no target ranked above [N], [calculateWorkflowDepth]
    comes to an end within [2 * N * t + 1] rounds of its loop, [t] being the
    number of edges.  It throws only when a step has no kind or, a trigger
    found, the workflow has no connections object; otherwise the depth it
    returns lies between 0 and [N]. *)
Theorem calculateWorkflowDepth_returns (w : Workflow) (rank : string -> nat) (N fuel : nat) :
  ranked rank N (conns_of w) = true ->
  2 * N * length (targets (conns_of w)) + 1 <= fuel ->
  match Analyzer.calculateWorkflowDepth fuel w with
  | Some (inr d) => (0 <= d <= Z.of_nat N)%Z
  | Some (inl _) =>
      Exists (fun n => n_type n = None) (w_nodes w)
      \/ (w_connections w = None /\ Analyzer.findTrigger (w_nodes w) <> inr None)
  | None => False
  end.
Proof.
  intros Hr Hf. unfold Analyzer.calculateWorkflowDepth.
  destruct (Analyzer.findTrigger (w_nodes w)) as [message|[trigger|]] eqn:T.
  - left. now apply findTrigger_throws in T.
  - unfold conns_of in *. destruct (w_connections w) as [cs|] eqn:C.
    + destruct (depthLoop_returns rank N cs Hr fuel (Analyzer.initial trigger))
        as (d & -> & Hd); [| |exact Hd].
      * split; [|simpl; lia]. intros v. rewrite initial_depths. lia.
      * unfold measure. rewrite slack_initial by apply initial_depths. simpl in *. lia.
    + destruct fuel as [|fuel]; [simpl in Hf; lia|]. simpl.
      right. split; [reflexivity|discriminate].
  - simpl. lia.
Qed.

(** The chain of [Scenario.collision], ranked by position. *)
Lemma calculateWorkflowDepth_returns_collision :
  Analyzer.calculateWorkflowDepth 9 Scenario.collision = Some (inr 2%Z)
  /\ (0 <= 2 <= Z.of_nat 2)%Z.
Proof.
  split; [reflexivity|].
  exact (calculateWorkflowDepth_returns Scenario.collision Sample.collisionRank 2 9
           eq_refl ltac:(simpl; lia)).
Defined.

(** A workflow with a trigger and no connections object makes the
    computation throw in its first round. *)
Lemma calculateWorkflowDepth_without_connections :
  Analyzer.calculateWorkflowDepth 1
    (mkWorkflow (Some "Bare") (w_nodes Scenario.loopWorkflow) None)
  = Some (inl "Cannot read properties of undefined (reading 'Start')").
Proof. reflexivity. Qed.

(** ** Automatic connection *)

Lemma edges_set_incl (src : string) (ps : Ports) (cs : Connections) :
  incl (edges (Dict.set src ps cs)) (edges cs ++ edges_of_ports src ps).
Proof.
  unfold edges. induction cs as [|[src' ps'] cs IH]; intros e He; simpl in *.
  - now rewrite app_nil_r in He.
  - destruct (String.eqb_spec src src') as [->|Hne]; simpl in *.
    + apply in_app_iff in He as [He|He]; apply in_or_app.
      * now right.
      * left. apply in_or_app. now right.
    + apply in_app_iff in He as [He|He].
      * apply in_or_app. left. apply in_or_app. now left.
      * apply IH in He. apply in_app_iff in He as [He|He]; apply in_or_app; [left|now right].
        apply in_or_app. now right.
Qed.

Lemma chain_drawn (nodes : list Node) (links : list (Node * Node)) :
  Forall (fun st => In (fst st) nodes /\ In (snd st) nodes
                    /\ isTriggerNode (ty (snd st)) = false) links ->
  forall cs,
    Forall (drawn nodes) (edges cs) ->
    Forall (drawn nodes)
           (edges (fold_left (fun cs (st : Node * Node) =>
                                Dict.set (nm (fst st)) (mainEdge (nm (snd st))) cs)
                             links cs)).
Proof.
  induction 1 as [|st links (A & B & C) Hl IH]; intros cs Hcs; simpl; [exact Hcs|].
  apply IH. apply List.Forall_forall. intros e He. apply edges_set_incl in He.
  apply in_app_iff in He as [He|He].
  - rewrite List.Forall_forall in Hcs. now apply Hcs.
  - simpl in He. destruct He as [<-|[]]. now exists (fst st), (snd st).
Qed.

(** X22.  On a workflow without connections, the auto-connection of
    [applyAutoFixes] keeps the steps and draws only [main] edges at index 0
    from a step of the workflow to a step that is not a trigger; with fewer
    than two steps it does nothing. *)
Theorem autoConnect_draws (w : Workflow) :
  nonEmpty (conns_of w) = false ->
  w_nodes (fst (autoConnect w)) = w_nodes w
  /\ Forall (drawn (w_nodes w)) (edges (conns_of (fst (autoConnect w))))
  /\ (length (w_nodes w) <= 1 -> autoConnect w = (w, [])).
Proof.
  intros Hempty. unfold autoConnect. rewrite Hempty. rewrite andb_true_r.
  assert (He : edges (conns_of w) = []) by now destruct (conns_of w).
  destruct (Nat.ltb_spec 1 (length (w_nodes w))) as [Hlen|Hlen].
  2:{ simpl. rewrite He. repeat split. constructor. }
  destruct (List.filter (fun n => isTriggerNode (ty n)) (w_nodes w)) as [|t ts] eqn:Ft.
  { simpl. rewrite He. split; [reflexivity|]. split; [constructor|lia]. }
  destruct (List.filter (fun n => negb (isTriggerNode (ty n))) (w_nodes w)) as [|a acts] eqn:Fa.
  { destruct ts; simpl; rewrite He; (split; [reflexivity|]; split; [constructor|lia]). }
  assert (Ht : In t (w_nodes w)).
  { assert (H : In t (List.filter (fun n => isTriggerNode (ty n)) (w_nodes w)))
      by (rewrite Ft; now left).
    now apply filter_In in H. }
  assert (Hacts : forall b, In b (a :: acts) ->
                            In b (w_nodes w) /\ isTriggerNode (ty b) = false).
  { intros b Hb. rewrite <- Fa in Hb. apply filter_In in Hb as [Hb Hn].
    split; [exact Hb|]. now destruct (isTriggerNode (ty b)). }
  assert (Hchain :
            Forall (drawn (w_nodes w))
                   (edges (fold_left (fun cs (st : Node * Node) =>
                                        Dict.set (nm (fst st)) (mainEdge (nm (snd st))) cs)
                                     (combine (t :: a :: acts) (a :: acts)) []))).
  { apply chain_drawn; [|constructor].
    apply List.Forall_forall. intros [x y] Hxy.
    pose proof (in_combine_l _ _ _ _ Hxy) as Hx. pose proof (in_combine_r _ _ _ _ Hxy) as Hy.
    simpl. destruct (Hacts y Hy) as [Hy1 Hy2]. split; [|now split].
    destruct Hx as [<-|Hx]; [exact Ht|]. now apply Hacts. }
  destruct ts as [|t2 ts]; [destruct acts as [|a2 acts]|]; cbn [fst];
    (split; [reflexivity|]; split; [|lia]);
    change (conns_of (set_connections ?c w)) with c.
  - constructor; [|constructor]. exists t, a. destruct (Hacts a) as [A B]; [now left|].
    now repeat split.
  - exact Hchain.
  - exact Hchain.
Qed.

(** Three steps without connections. *)
Lemma autoConnect_draws_unlinked :
  w_nodes (fst (autoConnect Sample.unlinked)) = w_nodes Sample.unlinked
  /\ Forall (drawn (w_nodes Sample.unlinked))
            (edges (conns_of (fst (autoConnect Sample.unlinked))))
  /\ (length (w_nodes Sample.unlinked) <= 1 -> autoConnect Sample.unlinked = (Sample.unlinked, [])).
Proof. apply (autoConnect_draws Sample.unlinked). reflexivity. Defined.

(** X13.  When every port of the adjacency structure has at least one
    output slot, no pass of [applyAutoFixes] throws: the pipeline returns a
    workflow with as many steps as the input, named [My Workflow] when the
    input had no name, whose ports still have an output slot each. *)
Theorem applyAutoFixes_returns (w : Workflow) :
  slotted (conns_of w) ->
  exists r,
    applyAutoFixes w = inr r
    /\ length (w_nodes (fr_workflow r)) = length (w_nodes w)
    /\ w_name (fr_workflow r) = (if falsy (w_name w) then Some "My Workflow" else w_name w)
    /\ slotted (conns_of (fr_workflow r)).
Proof.
  intros H. destruct (applyAutoFixes_shaped w H) as (r & Hr & A & B & C).
  exists r. now repeat split.
Qed.

(** The agent workflow with its two orphans goes through the pipeline. *)
Lemma applyAutoFixes_returns_agent :
  exists r,
    applyAutoFixes Scenario.agentWithOrphans = inr r
    /\ length (w_nodes (fr_workflow r)) = length (w_nodes Scenario.agentWithOrphans)
    /\ w_name (fr_workflow r)
       = (if falsy (w_name Scenario.agentWithOrphans) then Some "My Workflow"
          else w_name Scenario.agentWithOrphans)
    /\ slotted (conns_of (fr_workflow r)).
Proof.
  apply (applyAutoFixes_returns Scenario.agentWithOrphans).
  unfold slotted. simpl. repeat (constructor; try discriminate).
Defined.

(** X14.  [validateWorkflow] with [autofix], on an accepted input whose
    ports have an output slot each, returns a normalized workflow with as
    many steps as the input. *)
Theorem validateWorkflow_normalizes (raw : RawWorkflow) :
  acceptable (InObject raw) = true ->
  slotted (default [] (r_connections raw)) ->
  exists document,
    normalized (validateWorkflow (InObject raw) true) = Some document
    /\ option_map (@length (option Node)) (r_nodes document)
       = option_map (@length (option Node)) (r_nodes raw).
Proof.
  intros Ha Hs. pose proof (checkedWorkflow_acceptable (InObject raw)) as C.
  unfold validateWorkflow.
  destruct (checkedWorkflow (InObject raw)) as [r|[raw' workflow]].
  - destruct C as [C _]. congruence.
  - destruct C as (_ & [= <-] & Hn & _ & Hc).
    destruct (preChecks workflow) as [errs warns].
    destruct (applyAutoFixes_shaped workflow) as (r & -> & _ & Hlen & _).
    { unfold conns_of. now rewrite Hc. }
    unfold conclude. cbv zeta. cbn [normalized].
    destruct (fr_fixed r); eexists; (split; [reflexivity|]); [|reflexivity].
    rewrite Hn. simpl. now rewrite !length_map, Hlen.
Qed.

(** The same workflow as a document handed to the validator. *)
Lemma validateWorkflow_normalizes_agent :
  exists document,
    normalized (validateWorkflow (InObject (raw_of Scenario.agentWithOrphans)) true)
    = Some document
    /\ option_map (@length (option Node)) (r_nodes document)
       = option_map (@length (option Node)) (r_nodes (raw_of Scenario.agentWithOrphans)).
Proof.
  apply (validateWorkflow_normalizes (raw_of Scenario.agentWithOrphans)).
  - reflexivity.
  - unfold slotted. simpl. repeat (constructor; try discriminate).
Defined.

(** ** Reversal of agent-to-tool edges *)

Lemma remove_keys_nodup {V} (k : string) (o : Dict.t V) :
  List.NoDup (map fst o) -> List.NoDup (map fst (Dict.remove k o)).
Proof.
  unfold Dict.remove. induction o as [|[k' v] o IH]; simpl; intros H; [constructor|].
  inversion H as [|? ? Hnin Hnd]; subst.
  destruct (negb (String.eqb k k')); simpl; [|now apply IH].
  constructor; [|now apply IH]. intros Hin. apply Hnin.
  apply in_map_iff in Hin as [kv [E Hin]]. apply filter_In in Hin as [Hin _].
  apply in_map_iff. now exists kv.
Qed.

Lemma keyed_set (k : string) (ps : Ports) (cs : Connections) :
  keyed cs -> List.NoDup (map fst ps) -> keyed (Dict.set k ps cs).
Proof.
  intros [A B] Hps. split.
  - exact (keys_set_nodup k ps cs A).
  - exact (Forall_set (fun ps => List.NoDup (map fst ps)) k ps cs B Hps).
Qed.

Lemma keyed_get (k : string) (ps : Ports) (cs : Connections) :
  keyed cs -> Dict.get k cs = Some ps -> List.NoDup (map fst ps).
Proof.
  intros [_ B] G. exact (Forall_get (fun ps => List.NoDup (map fst ps)) k ps cs B G).
Qed.

Lemma dropBackwards_get (agent tool : string) (cs : Connections) (k : string) :
  k <> agent -> Dict.get k (dropBackwards agent tool cs) = Dict.get k cs.
Proof.
  intros Hne. unfold dropBackwards.
  destruct (Dict.get agent cs) as [ps|]; [|reflexivity].
  destruct (Dict.get "ai_tool" ps) as [outs|]; [|reflexivity].
  destruct (List.filter _ _); now rewrite get_set_ne.
Qed.

Lemma dropBackwards_edge (agent tool : string) (cs : Connections) (t : string) :
  toolEdge (dropBackwards agent tool cs) agent t -> toolEdge cs agent t /\ t <> tool.
Proof.
  unfold dropBackwards, toolEdge.
  destruct (Dict.get agent cs) as [ps|] eqn:A.
  2:{ intros (ps' & outs & c & G & _). congruence. }
  destruct (Dict.get "ai_tool" ps) as [outs|] eqn:T.
  2:{ intros (ps' & outs & c & G & G' & _). rewrite A in G. injection G as <-. congruence. }
  destruct (List.filter _ _) as [|slot outs'] eqn:F.
  - intros (ps' & outs0 & c & G & G' & _). rewrite get_set_eq in G. injection G as <-.
    rewrite get_remove_eq in G'. discriminate.
  - intros (ps' & outs0 & c & G & G' & Hc & Hn). rewrite get_set_eq in G. injection G as <-.
    rewrite get_set_eq in G'. injection G' as <-. rewrite <- F in Hc.
    apply in_concat in Hc as [slot' [Hs Hc]]. apply filter_In in Hs as [Hs _].
    apply in_map_iff in Hs as [slot0 [<- Hs]]. apply filter_In in Hc as [Hc Hne].
    split.
    + exists ps, outs, c. repeat split; auto. apply in_concat. now exists slot0.
    + intros E. rewrite <- E, Hn, String.eqb_refl in Hne. discriminate.
Qed.

Lemma dropBackwards_keyed (agent tool : string) (cs : Connections) :
  keyed cs -> keyed (dropBackwards agent tool cs).
Proof.
  unfold dropBackwards. intros H.
  destruct (Dict.get agent cs) as [ps|] eqn:A; [|exact H].
  destruct (Dict.get "ai_tool" ps) as [outs|]; [|exact H].
  pose proof (keyed_get _ _ _ H A) as Hps.
  destruct (List.filter _ _); apply keyed_set; auto.
  - now apply remove_keys_nodup.
  - exact (keys_set_nodup "ai_tool" _ ps Hps).
Qed.

Section Reversal.
Variable types : Dict.t string.
Hypothesis Hdisjoint :
  forall name t, Dict.get name types = Some t -> isAgentNode t && isToolNode t = false.

Lemma kinds_differ (a t : string) :
  ofKind types isAgentNode a -> ofKind types isToolNode t -> a <> t.
Proof.
  intros (ta & Ga & Ha) (tt & Gt & Ht) ->. rewrite Ga in Gt. injection Gt as ->.
  specialize (Hdisjoint _ _ Ga). rewrite Ha, Ht in Hdisjoint. discriminate.
Qed.

Lemma reverseOne_reverses (cs : Connections) (fs : list string) (b : Backwards)
    (st' : Connections * list string) :
  ofKind types isAgentNode (agentName b) -> ofKind types isToolNode (toolName b) ->
  inherited (toolName b) = false ->
  reverseOne (cs, fs) b = inr st' ->
  (keyed cs -> keyed (fst st'))
  /\ (forall a t, backwardsEdge types (fst st') a t ->
                  backwardsEdge types cs a t /\ (a, t) <> (agentName b, toolName b))
  /\ toolEdge (fst st') (toolName b) (agentName b)
  /\ (forall t a, ofKind types isToolNode t -> toolEdge cs t a -> toolEdge (fst st') t a).
Proof.
  intros Hagent Htool Hplain. unfold reverseOne. cbv zeta.
  set (agent := agentName b). set (tool := toolName b).
  set (cs1 := dropBackwards agent tool cs).
  rewrite (inherited_builtin cs1 tool Hplain).
  set (cs2 := match Dict.get tool cs1 with None => Dict.set tool [] cs1 | Some _ => cs1 end).
  set (ps := default [] (Dict.get tool cs2)).
  set (ps1 := match Dict.get "ai_tool" ps with
              | None => Dict.set "ai_tool" [[]] ps
              | Some _ => ps
              end).
  assert (Hne : agent <> tool) by now apply kinds_differ.
  assert (G2 : Dict.get tool cs2 = Some ps).
  { unfold ps, cs2. destruct (Dict.get tool cs1) as [ps0|] eqn:G; [now rewrite G|].
    now rewrite get_set_eq. }
  assert (G2' : forall k, k <> tool -> Dict.get k cs2 = Dict.get k cs1).
  { intros k Hk. unfold cs2. destruct (Dict.get tool cs1); [reflexivity|].
    now rewrite get_set_ne. }
  assert (Gtool : Dict.get tool cs1 = Dict.get tool cs).
  { unfold cs1. apply dropBackwards_get. congruence. }
  assert (Hps1 : forall port, port <> "ai_tool" -> Dict.get port ps1 = Dict.get port ps).
  { intros port Hp. unfold ps1. destruct (Dict.get "ai_tool" ps); [reflexivity|].
    now rewrite get_set_ne. }
  assert (Hk2 : keyed cs -> keyed cs2 /\ List.NoDup (map fst ps1)).
  { intros Hk. assert (K1 : keyed cs1) by now apply dropBackwards_keyed.
    assert (K2 : keyed cs2).
    { unfold cs2. destruct (Dict.get tool cs1); [exact K1|].
      apply keyed_set; [exact K1|constructor]. }
    split; [exact K2|]. pose proof (keyed_get _ _ _ K2 G2) as Kps.
    unfold ps1. destruct (Dict.get "ai_tool" ps); [exact Kps|].
    exact (keys_set_nodup "ai_tool" _ ps Kps). }
  assert (Hback : forall final,
             Dict.get tool final <> None ->
             (forall k, k <> tool -> Dict.get k final = Dict.get k cs2) ->
             forall a t, backwardsEdge types final a t ->
                         backwardsEdge types cs a t /\ (a, t) <> (agent, tool)).
  { intros final _ Hfinal a t ((ps0 & outs & c & G & G' & Hc & Hn) & Ha & Ht).
    assert (Hat : a <> tool) by (intros ->; now apply (kinds_differ tool tool)).
    rewrite (Hfinal a Hat), (G2' a Hat) in G.
    destruct (String.eqb_spec a agent) as [->|Hna].
    - destruct (dropBackwards_edge agent tool cs t) as [E Hnt].
      { exists ps0, outs, c. now repeat split. }
      split; [now split|]. congruence.
    - unfold cs1 in G. rewrite dropBackwards_get in G by exact Hna.
      split; [|congruence]. split; [|now split]. exists ps0, outs, c. now repeat split. }
  assert (Hkeep : forall outs',
             (forall outs0, Dict.get "ai_tool" ps = Some outs0 ->
                            incl (concat outs0) (concat outs')) ->
             forall t a, ofKind types isToolNode t -> toolEdge cs t a ->
                         toolEdge (Dict.set tool (Dict.set "ai_tool" outs' ps1) cs2) t a).
  { intros outs' Hincl t a Ht (ps0 & outs & c & G & G' & Hc & Hn).
    destruct (String.eqb_spec t tool) as [->|Hnt].
    - rewrite <- Gtool in G. assert (ps0 = ps) as ->.
      { unfold ps, cs2. rewrite G. simpl. now rewrite G. }
      exists (Dict.set "ai_tool" outs' ps1), outs', c.
      rewrite !get_set_eq. repeat split; auto. now apply (Hincl outs).
    - exists ps0, outs, c. rewrite get_set_ne by exact Hnt. rewrite (G2' t Hnt).
      unfold cs1. rewrite dropBackwards_get; [now repeat split|].
      intros ->. now apply (kinds_differ agent agent).
  }
  destruct (default [] (Dict.get "ai_tool" ps1)) as [|slot0 rest] eqn:D; [discriminate|].
  assert (Gai : Dict.get "ai_tool" ps1 = Some (slot0 :: rest)).
  { destruct (Dict.get "ai_tool" ps1); [simpl in D; congruence|discriminate]. }
  assert (Hold : forall outs0, Dict.get "ai_tool" ps = Some outs0 -> outs0 = slot0 :: rest).
  { intros outs0 G. unfold ps1 in Gai. rewrite G in Gai. congruence. }
  destruct (existsb (fun c => String.eqb (c_node c) agent) slot0) eqn:Ex.
  - intros [= <-]. cbn [fst].
    assert (Esame : Dict.set tool ps1 cs2 = Dict.set tool (Dict.set "ai_tool" (slot0 :: rest) ps1) cs2).
    { now rewrite (set_same "ai_tool" (slot0 :: rest) ps1 Gai). }
    split; [|split; [|split]].
    + intros Hk. destruct (Hk2 Hk) as [K2 Kp]. now apply keyed_set.
    + apply Hback.
      * rewrite get_set_eq. discriminate.
      * intros k Hk. now rewrite get_set_ne.
    + apply existsb_exists in Ex as [c [Hc Ec]]. apply String.eqb_eq in Ec.
      exists ps1, (slot0 :: rest), c. rewrite get_set_eq. repeat split; auto.
      simpl. apply in_or_app. now left.
    + rewrite Esame. apply Hkeep. intros outs0 G. rewrite (Hold outs0 G). apply incl_refl.
  - intros [= <-]. cbn [fst]. split; [|split; [|split]].
    + intros Hk. destruct (Hk2 Hk) as [K2 Kp]. apply keyed_set; [exact K2|].
      exact (keys_set_nodup "ai_tool" _ ps1 Kp).
    + apply Hback.
      * rewrite get_set_eq. discriminate.
      * intros k Hk. now rewrite get_set_ne.
    + eexists _, _, (mkConn agent "ai_tool" (b_index b)). rewrite !get_set_eq.
      repeat split; auto. simpl. apply in_or_app. left. apply in_or_app. right. now left.
    + apply Hkeep. intros outs0 G. rewrite (Hold outs0 G). simpl.
      intros x Hx. apply in_app_iff in Hx as [Hx|Hx]; apply in_or_app; [left|now right].
      apply in_or_app. now left.
Qed.

Lemma foldExc_reverses (l : list Backwards) : forall cs fs st',
  Forall (fun b => ofKind types isAgentNode (agentName b)
                   /\ ofKind types isToolNode (toolName b)
                   /\ inherited (toolName b) = false) l ->
  foldExc reverseOne l (cs, fs) = inr st' ->
  (keyed cs -> keyed (fst st'))
  /\ (forall a t, backwardsEdge types (fst st') a t ->
                  backwardsEdge types cs a t
                  /\ Forall (fun b => (a, t) <> (agentName b, toolName b)) l)
  /\ Forall (fun b => toolEdge (fst st') (toolName b) (agentName b)) l
  /\ (forall t a, ofKind types isToolNode t -> toolEdge cs t a -> toolEdge (fst st') t a).
Proof.
  induction l as [|b l IH]; intros cs fs st' Hl; cbn [foldExc].
  - intros [= <-]. simpl. split; [auto|]. split; [|split; [constructor|auto]].
    intros a t H. split; [exact H|constructor].
  - apply List.Forall_cons_iff in Hl as [(Ha & Ht & Hp) Hl].
    destruct (reverseOne (cs, fs) b) as [e|[cs1 fs1]] eqn:R; cbn [bind]; [discriminate|].
    intros F. destruct (reverseOne_reverses cs fs b _ Ha Ht Hp R) as (K1 & B1 & E1 & P1).
    destruct (IH cs1 fs1 st' Hl F) as (K2 & B2 & E2 & P2). simpl in *.
    split; [auto|]. split; [|split].
    + intros a t H. destruct (B2 a t H) as [H1 F1]. destruct (B1 a t H1) as [H0 N0].
      split; [exact H0|]. constructor; assumption.
    + constructor; [|exact E2]. apply P2; assumption.
    + intros t a Hk H. apply P2; [exact Hk|]. now apply P1.
Qed.

End Reversal.

Lemma findBackwards_sound (types : Dict.t string) (cs : Connections) (b : Backwards) :
  In b (findBackwards types cs) ->
  ofKind types isAgentNode (agentName b) /\ ofKind types isToolNode (toolName b).
Proof.
  unfold findBackwards. intros H. apply in_flat_map in H as [kv [_ H]].
  destruct (Dict.get (fst kv) types) as [sourceType|] eqn:S; [|destruct H].
  destruct (isAgentNode sourceType) eqn:A; [|destruct H].
  apply in_flat_map in H as [pk [_ H]].
  destruct (String.eqb (fst pk) "ai_tool"); [|destruct H].
  apply in_flat_map in H as [c [_ H]].
  destruct (Dict.get (c_node c) types) as [targetType|] eqn:T; [|destruct H].
  destruct (isToolNode targetType) eqn:I; [|destruct H].
  destruct H as [<-|[]]. simpl. split; eexists; eauto.
Qed.

Lemma findBackwards_complete (types : Dict.t string) (cs : Connections) (a t : string) :
  backwardsEdge types cs a t ->
  exists b, In b (findBackwards types cs) /\ agentName b = a /\ toolName b = t.
Proof.
  intros ((ps & outs & c & G & G' & Hc & Hn) & (ta & Ga & Ha) & (tt & Gt & Ht)).
  exists (mkBackwards a t (default 0%Z (c_index c))). split; [|now split].
  unfold findBackwards. apply in_flat_map. exists (a, ps). split; [now apply get_in|].
  simpl. rewrite Ga, Ha. apply in_flat_map. exists ("ai_tool", outs).
  split; [now apply get_in|]. simpl. apply in_flat_map. exists c. split; [exact Hc|].
  rewrite Hn, Gt, Ht. now left.
Qed.

Lemma findBackwards_none (types : Dict.t string) (cs : Connections) :
  keyed cs -> (forall a t, ~ backwardsEdge types cs a t) -> findBackwards types cs = [].
Proof.
  intros [Kc Kp] H. destruct (findBackwards types cs) as [|b l] eqn:E; [reflexivity|].
  exfalso. assert (Hb : In b (findBackwards types cs)) by (rewrite E; now left).
  pose proof (findBackwards_sound _ _ _ Hb) as [Ha Ht].
  apply (H (agentName b) (toolName b)). split; [|now split].
  unfold findBackwards in Hb. apply in_flat_map in Hb as [[src ps] [Hkv Hb]]. simpl in Hb.
  destruct (Dict.get src types) as [sourceType|]; [|destruct Hb].
  destruct (isAgentNode sourceType); [|destruct Hb].
  apply in_flat_map in Hb as [[port outs] [Hpk Hb]]. simpl in Hb.
  destruct (String.eqb_spec port "ai_tool") as [->|]; [|destruct Hb].
  apply in_flat_map in Hb as [c [Hc Hb]].
  destruct (Dict.get (c_node c) types) as [targetType|]; [|destruct Hb].
  destruct (isToolNode targetType); [|destruct Hb].
  destruct Hb as [<-|[]]. simpl.
  exists ps, outs, c. split; [now apply in_get_nodup|].
  split; [|now split]. apply in_get_nodup; [|exact Hpk].
  rewrite List.Forall_forall in Kp. exact (Kp _ Hkv).
Qed.

Lemma nodeTypeMap_names (nodes : list Node) : forall m name t,
  Dict.get name
    (fold_left
       (fun m n => if falsy (n_name n) || falsy (n_type n) then m else Dict.set (nm n) (ty n) m)
       nodes m) = Some t ->
  Dict.get name m <> None \/ exists n, In n nodes /\ nm n = name.
Proof.
  induction nodes as [|n nodes IH]; intros m name t; simpl.
  - intros H. left. congruence.
  - intros H. apply IH in H as [H|(n' & Hin & Hn)]; [|right; exists n'; auto].
    destruct (falsy (n_name n) || falsy (n_type n)); [now left|].
    destruct (String.eqb_spec name (nm n)) as [->|Hne].
    + right. exists n. auto.
    + left. now rewrite get_set_ne in H.
Qed.

(** X23.  In a workflow whose connections name no source and no port
    twice, in which no step is of an agent kind and of a tool kind at once
    and no step is named like a member of [Object.prototype], when
    [fixBackwardsToolConnections] returns, the steps are as before, no
    [ai_tool] edge leads from an agent-kind step to a tool-kind step any
    more, and for each such edge found at the start the tool now has an
    [ai_tool] edge to the agent. *)
Theorem fixBackwardsToolConnections_reverses (w w' : Workflow) (out : nat * list string) :
  keyed (conns_of w) ->
  (forall name t, Dict.get name (nodeTypeMap (w_nodes w)) = Some t ->
                  isAgentNode t && isToolNode t = false) ->
  Forall (fun n => inherited (nm n) = false) (w_nodes w) ->
  fixBackwardsToolConnections w = inr (w', out) ->
  w_nodes w' = w_nodes w
  /\ findBackwards (nodeTypeMap (w_nodes w')) (conns_of w') = []
  /\ Forall (fun b => toolEdge (conns_of w') (toolName b) (agentName b))
            (findBackwards (nodeTypeMap (w_nodes w)) (conns_of w)).
Proof.
  intros Hk Hd Hplain. unfold fixBackwardsToolConnections, conns_of in *.
  destruct (w_connections w) as [cs|] eqn:E; simpl in *.
  2:{ intros [= <- _]. rewrite E. simpl. repeat split. constructor. }
  destruct (foldExc reverseOne _ (cs, [])) as [e|st'] eqn:F; simpl; [discriminate|].
  intros [= <- _]. simpl. split; [reflexivity|].
  destruct (foldExc_reverses (nodeTypeMap (w_nodes w)) Hd
              (findBackwards (nodeTypeMap (w_nodes w)) cs) cs [] st') as (K & B & R & _).
  - apply List.Forall_forall. intros b Hb. apply findBackwards_sound in Hb as [Ha Ht].
    split; [exact Ha|]. split; [exact Ht|].
    destruct Ht as (t & Gt & _). unfold nodeTypeMap in Gt.
    apply nodeTypeMap_names in Gt as [Gt|(n & Hin & <-)]; [now contradiction Gt|].
    rewrite List.Forall_forall in Hplain. now apply Hplain.
  - exact F.
  - split; [|exact R]. apply findBackwards_none; [now apply K|].
    intros a t H. destruct (B a t H) as [H0 Hall].
    destruct (findBackwards_complete _ _ _ _ H0) as (b & Hb & <- & <-).
    rewrite List.Forall_forall in Hall. now apply (Hall b Hb).
Qed.

(** An agent wired to its tool the wrong way round. *)
Lemma fixBackwardsToolConnections_reverses_sample :
  exists w' out,
    fixBackwardsToolConnections Sample.backwards = inr (w', out)
    /\ w_nodes w' = w_nodes Sample.backwards
    /\ findBackwards (nodeTypeMap (w_nodes w')) (conns_of w') = []
    /\ Forall (fun b => toolEdge (conns_of w') (toolName b) (agentName b))
              (findBackwards (nodeTypeMap (w_nodes Sample.backwards))
                             (conns_of Sample.backwards)).
Proof.
  eexists. eexists. split; [vm_compute; reflexivity|].
  eapply (fixBackwardsToolConnections_reverses Sample.backwards).
  - split; simpl; repeat constructor; simpl; tauto.
  - intros name t. simpl.
    repeat (destruct (String.eqb name _); [intros [= <-]; reflexivity|]). discriminate.
  - repeat constructor.
  - vm_compute. reflexivity.
Defined.

(** With a tool named [constructor] the backwards edge is removed and its
    reversal is stored nowhere in the connections. *)
Lemma fixBackwardsToolConnections_inherited_name :
  exists w' out,
    fixBackwardsToolConnections Sample.backwardsInherited = inr (w', out)
    /\ findBackwards (nodeTypeMap (w_nodes Sample.backwardsInherited))
                     (conns_of Sample.backwardsInherited)
       = [ mkBackwards "AI Agent" "constructor" 0%Z ]
    /\ toolEdges (conns_of w') = [].
Proof.
  eexists. eexists. split; [vm_compute; reflexivity|]. vm_compute. split; reflexivity.
Qed.
